(** * MySQL-Schema-Compare: the schema diffing engine

    A shallow embedding of the two JavaScript entry points of the
    repository, [src/index.js] (the minimal variant, module [Legacy]) and
    [src/unnamed/part_000] (the variant with the step summary and the
    pull-request comment, module [Action]), and of the [SchemaChecker]
    methods both share word for word.

    JavaScript strings are sequences of bytes here (UTF-8), [null] in
    [COLUMN_DEFAULT] is [None], an [await]ed call that can reject is a
    value of [completion], and [process.exit] is the third way a
    computation can end.  Console narration does not influence control
    flow and is left out.  A connection is a snapshot of its catalog: the
    schema does not change during a run. *)

From Stdlib Require Import String Ascii List ZArith NArith Bool Lia Permutation
  Sorted DecimalString.
Import ListNotations.
Local Open Scope list_scope.
Local Open Scope string_scope.

Set Implicit Arguments.

(** ** Completions: return, throw, or [process.exit] *)

Inductive error : Type :=
| ConnectionError (msg : string)
| QueryError (msg : string)
| CommentError (msg : string)
| TypeError (msg : string).

Inductive completion (A : Type) : Type :=
| Normal (a : A)
| Throw (e : error)
| Exit (code : Z).

Arguments Normal {A} a.
Arguments Throw {A} e.
Arguments Exit {A} code.

Definition bind {A B : Type} (c : completion A) (k : A -> completion B)
  : completion B :=
  match c with
  | Normal a => k a
  | Throw e => Throw e
  | Exit n => Exit n
  end.

Notation "x <- c ;; k" := (bind c (fun x => k))
  (at level 61, c at next level, right associativity).

(** [for (const x of l) { s = await f(s, x) }] *)
Fixpoint forOf {A S : Type} (f : S -> A -> completion S) (l : list A) (s : S)
  : completion S :=
  match l with
  | [] => Normal s
  | x :: xs => s' <- f s x ;; forOf f xs s'
  end.

(** [Array.prototype.push], [Array.prototype.includes] on strings, and
    [Array.prototype.join]. *)
Definition push {A : Type} (l : list A) (x : A) : list A := l ++ [x].

Definition includes (l : list string) (x : string) : bool :=
  existsb (String.eqb x) l.

Fixpoint join (sep : string) (l : list string) : string :=
  match l with
  | [] => ""
  | [x] => x
  | x :: xs => x ++ sep ++ join sep xs
  end.

(** ** Data model: the rows the catalog queries return *)

Module Column.
(** One row of the [INFORMATION_SCHEMA.COLUMNS] query of
    [getTableColumns], under the aliases the query gives. *)
Record t : Type := mk {
  name : string;
  type : string;
  nullable : string;
  defaultValue : option string;
  extra : string;
  keyType : string;
  maxLength : option Z;
  numericPrecision : option Z;
  numericScale : option Z
}.
End Column.

Module TableRow.
(** One row of the [INFORMATION_SCHEMA.TABLES] query of [getTables]. *)
Record t : Type := mk { TABLE_NAME : string }.
End TableRow.

Module CreateRow.
(** One row of [SHOW CREATE TABLE t]: its ['Create Table'] field. *)
Record t : Type := mk { Create_Table : string }.
End CreateRow.

Module IndexRow.
(** One row of [SHOW INDEX FROM t]: only the three fields that are read. *)
Record t : Type := mk {
  Key_name : string;
  Column_name : string;
  Non_unique : Z
}.
End IndexRow.

Module Index.
(** The object [getTableIndexes] builds for one index. *)
Record t : Type := mk {
  name : string;
  columns : list string;
  unique : bool;
  table : string
}.
End Index.

Module MissingColumn.
Record t : Type := mk { table : string; column : Column.t }.
End MissingColumn.

Module DifferentColumn.
Record t : Type := mk {
  table : string;
  column : Column.t;
  differences : list string
}.
End DifferentColumn.

(** ** Column comparator *)

(** The arrow of the difference notes, U+2192. *)
Definition arrow : string := "→".

Definition compareColumns (devColumn mainColumn : Column.t) : list string :=
  let differences : list string := [] in
  let differences :=
    if negb (Column.type devColumn =? Column.type mainColumn)
    then push differences
           ("type: '" ++ Column.type mainColumn ++ "' " ++ arrow ++ " '"
              ++ Column.type devColumn ++ "'")
    else differences in
  let differences :=
    if negb (Column.nullable devColumn =? Column.nullable mainColumn)
    then push differences
           ("nullable: " ++ Column.nullable mainColumn ++ " " ++ arrow ++ " "
              ++ Column.nullable devColumn)
    else differences in
  let devDefault :=
    match Column.defaultValue devColumn with
    | None => "NULL"
    | Some d => d
    end in
  let mainDefault :=
    match Column.defaultValue mainColumn with
    | None => "NULL"
    | Some d => d
    end in
  let differences :=
    if negb (devDefault =? mainDefault)
    then push differences
           ("default: " ++ mainDefault ++ " " ++ arrow ++ " " ++ devDefault)
    else differences in
  let differences :=
    if negb (Column.extra devColumn =? Column.extra mainColumn)
    then push differences
           ("extra: '" ++ Column.extra mainColumn ++ "' " ++ arrow ++ " '"
              ++ Column.extra devColumn ++ "'")
    else differences in
  differences.

(** ** SQL emitter *)

(** Truthiness of a string: every string but the empty one. *)
Definition truthy (s : string) : bool := negb (s =? "").

Definition generateAlterColumnCommand (tableName : string) (column : Column.t)
  : string :=
  let sql := "ALTER TABLE `" ++ tableName ++ "` ADD COLUMN `"
             ++ Column.name column ++ "` " ++ Column.type column in
  let sql := if Column.nullable column =? "NO" then sql ++ " NOT NULL" else sql in
  let sql :=
    match Column.defaultValue column with
    | Some d => sql ++ " DEFAULT " ++ d
    | None => sql
    end in
  let sql :=
    if truthy (Column.extra column) then sql ++ " " ++ Column.extra column
    else sql in
  sql ++ ";".

Definition generateModifyColumnCommand (tableName : string) (column : Column.t)
  : string :=
  let sql := "ALTER TABLE `" ++ tableName ++ "` MODIFY COLUMN `"
             ++ Column.name column ++ "` " ++ Column.type column in
  let sql := if Column.nullable column =? "NO" then sql ++ " NOT NULL" else sql in
  let sql :=
    match Column.defaultValue column with
    | Some d => sql ++ " DEFAULT " ++ d
    | None => sql
    end in
  let sql :=
    if truthy (Column.extra column) then sql ++ " " ++ Column.extra column
    else sql in
  sql ++ ";".

Definition generateCreateIndexCommand (index : Index.t) : string :=
  let uniqueKeyword := if Index.unique index then "UNIQUE " else "" in
  let columns := join ", " (map (fun col => "`" ++ col ++ "`") (Index.columns index)) in
  "CREATE " ++ uniqueKeyword ++ "INDEX `" ++ Index.name index ++ "` ON `"
    ++ Index.table index ++ "` (" ++ columns ++ ");".

(** ** Catalog reader *)

(** What one connection answers to the four statements the checker issues
    through [connection.execute]: a snapshot, so a statement issued twice
    is answered twice the same way.  A rejected promise is a [Throw]. *)
Record Connection : Type := {
  (** [SELECT TABLE_NAME FROM INFORMATION_SCHEMA.TABLES ...] *)
  tablesRows : completion (list TableRow.t);
  (** [SELECT ... FROM INFORMATION_SCHEMA.COLUMNS ... AND TABLE_NAME = ?] *)
  columnsRows : string -> completion (list Column.t);
  (** [SHOW INDEX FROM t] *)
  showIndexRows : string -> completion (list IndexRow.t);
  (** [SHOW CREATE TABLE t] *)
  showCreateRows : string -> completion (list CreateRow.t)
}.

Definition getTables (connection : Connection) : completion (list string) :=
  rows <- tablesRows connection ;;
  Normal (map (fun row => TableRow.TABLE_NAME row) rows).

Definition getCreateTableStatement (connection : Connection) (tableName : string)
  : completion string :=
  rows <- showCreateRows connection tableName ;;
  match rows with
  | row :: _ => Normal (CreateRow.Create_Table row)
  | [] => Throw (TypeError "Cannot read properties of undefined (reading 'Create Table')")
  end.

Definition getTableColumns (connection : Connection) (tableName : string)
  : completion (list Column.t) :=
  rows <- columnsRows connection tableName ;;
  Normal rows.

(** *** The object [indexes] of [getTableIndexes]

    [const indexes = {}] is an ordinary object: its own properties, kept in
    the order they were created, and behind them the properties it inherits
    from [Object.prototype]. *)
Definition JsObject : Type := list (string * Index.t).

(** The property names of [Object.prototype]; each holds a function, or for
    [__proto__] the prototype itself, so reading one through [indexes]
    yields a value that is truthy and has no [columns]. *)
Definition objectPrototypeKeys : list string :=
  [ "constructor"; "__defineGetter__"; "__defineSetter__"; "hasOwnProperty";
    "__lookupGetter__"; "__lookupSetter__"; "isPrototypeOf";
    "propertyIsEnumerable"; "toString"; "valueOf"; "__proto__";
    "toLocaleString" ].

Definition inherited (key : string) : bool := includes objectPrototypeKeys key.

Inductive property : Type :=
| Own (value : Index.t)
| Inherited
| Undefined.

Fixpoint getOwn (o : JsObject) (key : string) : option Index.t :=
  match o with
  | [] => None
  | (k, v) :: rest => if k =? key then Some v else getOwn rest key
  end.

(** [o[key]] *)
Definition getProp (o : JsObject) (key : string) : property :=
  match getOwn o key with
  | Some v => Own v
  | None => if inherited key then Inherited else Undefined
  end.

(** [!o[key]]: objects and functions are truthy, [undefined] is not. *)
Definition notProp (o : JsObject) (key : string) : bool :=
  match getProp o key with
  | Undefined => true
  | _ => false
  end.

(** Replace the value of an own property where it stands. *)
Fixpoint replaceOwn (o : JsObject) (key : string) (v : Index.t) : JsObject :=
  match o with
  | [] => []
  | (k, w) :: rest =>
      if k =? key then (k, v) :: rest else (k, w) :: replaceOwn rest key v
  end.

(** [o[key] = v]: an own property keeps its place, a new one goes last. *)
Definition setProp (o : JsObject) (key : string) (v : Index.t) : JsObject :=
  match getOwn o key with
  | Some _ => replaceOwn o key v
  | None => push o (key, v)
  end.

(** Array indices: the canonical decimal strings of 0 .. 2^32 - 2.
    [Object.values] lists the properties with such names first, by number. *)
Definition digitOf (c : ascii) : option N :=
  let n := N_of_ascii c in
  if ((48 <=? n) && (n <=? 57))%N then Some (n - 48)%N else None.

Fixpoint parseDigits (s : string) (acc : N) : option N :=
  match s with
  | EmptyString => Some acc
  | String c rest =>
      match digitOf c with
      | Some d => parseDigits rest (acc * 10 + d)%N
      | None => None
      end
  end.

Definition arrayIndex (key : string) : option N :=
  match key with
  | EmptyString => None
  | String c rest =>
      if (c =? "0")%char && negb (rest =? "") then None
      else match parseDigits key 0%N with
           | Some n => if (n <=? 4294967294)%N then Some n else None
           | None => None
           end
  end.

Fixpoint insertByIndex (e : N * Index.t) (l : list (N * Index.t))
  : list (N * Index.t) :=
  match l with
  | [] => [e]
  | h :: rest =>
      if (fst e <=? fst h)%N then e :: l else h :: insertByIndex e rest
  end.

Definition indexedProps (o : JsObject) : list (N * Index.t) :=
  fold_right
    (fun (p : string * Index.t) acc =>
       match arrayIndex (fst p) with
       | Some n => insertByIndex (n, snd p) acc
       | None => acc
       end) [] o.

Definition namedProps (o : JsObject) : JsObject :=
  filter (fun p : string * Index.t =>
            match arrayIndex (fst p) with None => true | Some _ => false end) o.

(** [Object.values(o)] *)
Definition objectValues (o : JsObject) : list Index.t :=
  (map snd (indexedProps o) ++ map snd (namedProps o))%list.

(** The callback of [rows.forEach] in [getTableIndexes]. *)
Definition indexRow (tableName : string) (indexes : JsObject) (row : IndexRow.t)
  : completion JsObject :=
  if negb (IndexRow.Key_name row =? "PRIMARY") then
    let indexes :=
      if notProp indexes (IndexRow.Key_name row)
      then setProp indexes (IndexRow.Key_name row)
             {| Index.name := IndexRow.Key_name row;
                Index.columns := [];
                Index.unique := (IndexRow.Non_unique row =? 0)%Z;
                Index.table := tableName |}
      else indexes in
    match getProp indexes (IndexRow.Key_name row) with
    | Own d =>
        Normal (replaceOwn indexes (IndexRow.Key_name row)
                  {| Index.name := Index.name d;
                     Index.columns := push (Index.columns d) (IndexRow.Column_name row);
                     Index.unique := Index.unique d;
                     Index.table := Index.table d |})
    | Inherited | Undefined =>
        Throw (TypeError "Cannot read properties of undefined (reading 'push')")
    end
  else Normal indexes.

Definition getTableIndexes (connection : Connection) (tableName : string)
  : completion (list Index.t) :=
  rows <- showIndexRows connection tableName ;;
  indexes <- forOf (indexRow tableName) rows [] ;;
  Normal (objectValues indexes).

(** ** Schema differ *)

Module Found.
(** The four arrays [checkAndReport] fills while it walks the tables. *)
Record t : Type := mk {
  missingTables : list string;
  missingColumns : list MissingColumn.t;
  differentColumns : list DifferentColumn.t;
  missingIndexes : list Index.t
}.

Definition empty : t := mk [] [] [] [].

(** [length > 0] of any of the four. *)
Definition any (f : t) : bool :=
  (0 <? length (missingTables f))%nat
  || (0 <? length (missingColumns f))%nat
  || (0 <? length (differentColumns f))%nat
  || (0 <? length (missingIndexes f))%nat.
End Found.

Module Result.
(** The object the variant with the step summary returns. *)
Record t : Type := mk {
  isInSync : bool;
  missingTables : list string;
  missingColumns : list MissingColumn.t;
  differentColumns : list DifferentColumn.t;
  missingIndexes : list Index.t
}.
End Result.

(** The body of [for (const devColumn of devColumns)]. *)
Definition checkColumn (table : string) (mainColumns : list Column.t)
  (acc : Found.t) (devColumn : Column.t) : Found.t :=
  match find (fun col => Column.name col =? Column.name devColumn) mainColumns with
  | None =>
      Found.mk (Found.missingTables acc)
        (push (Found.missingColumns acc) (MissingColumn.mk table devColumn))
        (Found.differentColumns acc)
        (Found.missingIndexes acc)
  | Some mainColumn =>
      let differences := compareColumns devColumn mainColumn in
      if (0 <? length differences)%nat then
        Found.mk (Found.missingTables acc)
          (Found.missingColumns acc)
          (push (Found.differentColumns acc)
             (DifferentColumn.mk table devColumn differences))
          (Found.missingIndexes acc)
      else acc
  end.

(** The body of [for (const devIndex of devIndexes)]. *)
Definition checkIndex (mainIndexNames : list string)
  (acc : Found.t) (devIndex : Index.t) : Found.t :=
  if negb (includes mainIndexNames (Index.name devIndex)) then
    Found.mk (Found.missingTables acc)
      (Found.missingColumns acc)
      (Found.differentColumns acc)
      (push (Found.missingIndexes acc) devIndex)
  else acc.

(** The body of [for (const table of devTables)]. *)
Definition checkTable (devDb mainDb : Connection) (mainTables : list string)
  (acc : Found.t) (table : string) : completion Found.t :=
  if negb (includes mainTables table) then
    Normal (Found.mk (push (Found.missingTables acc) table)
              (Found.missingColumns acc)
              (Found.differentColumns acc)
              (Found.missingIndexes acc))
  else
    devColumns <- getTableColumns devDb table ;;
    mainColumns <- getTableColumns mainDb table ;;
    let acc := fold_left (checkColumn table mainColumns) devColumns acc in
    devIndexes <- getTableIndexes devDb table ;;
    mainIndexes <- getTableIndexes mainDb table ;;
    let mainIndexNames := map Index.name mainIndexes in
    Normal (fold_left (checkIndex mainIndexNames) devIndexes acc).

(** [checkAndReport] up to the summary: the walk over the tables of dev. *)
Definition walkTables (devDb mainDb : Connection) : completion Found.t :=
  devTables <- getTables devDb ;;
  mainTables <- getTables mainDb ;;
  forOf (checkTable devDb mainDb mainTables) devTables Found.empty.

(** The commands [checkAndReport] prints once something is missing, in the
    order it prints them; the statement of a missing table is fetched from
    dev and that query can fail. *)
Definition fixCommands (devDb : Connection) (f : Found.t) : completion (list string) :=
  creates <-
    forOf (fun (out : list string) (table : string) =>
             createStatement <- getCreateTableStatement devDb table ;;
             Normal (push out (createStatement ++ ";")))
          (Found.missingTables f) [] ;;
  let alters :=
    map (fun m => generateAlterColumnCommand (MissingColumn.table m) (MissingColumn.column m))
        (Found.missingColumns f) in
  let modifies :=
    map (fun d => generateModifyColumnCommand (DifferentColumn.table d) (DifferentColumn.column d))
        (Found.differentColumns f) in
  let indexes := map generateCreateIndexCommand (Found.missingIndexes f) in
  Normal (creates ++ alters ++ modifies ++ indexes)%list.

(** ** The process: connections, [try]/[catch]/[finally], [process.exit] *)

Inductive side : Type := MainDb | DevDb.

Inductive event : Type :=
| Connected (s : side)
| Ended (s : side).

(** The fields of the checker, and what has happened to the connections. *)
Record world : Type := {
  this_mainDb : option Connection;
  this_devDb : option Connection;
  trace : list event
}.

Definition initial : world :=
  {| this_mainDb := None; this_devDb := None; trace := [] |}.

(** What the run meets outside: the two servers, the [GITHUB_ACTIONS]
    variable, and the answer to [issues.createComment]. *)
Record Env : Type := {
  createMainConnection : completion Connection;
  createDevConnection : completion Connection;
  GITHUB_ACTIONS : bool;
  createComment : completion unit
}.

Definition proc (A : Type) : Type := world -> completion A * world.

Definition bindP {A B : Type} (m : proc A) (k : A -> proc B) : proc B :=
  fun w =>
    match m w with
    | (Normal a, w') => k a w'
    | (Throw e, w') => (Throw e, w')
    | (Exit n, w') => (Exit n, w')
    end.

Definition retP {A : Type} (a : A) : proc A := fun w => (Normal a, w).

Definition await {A : Type} (c : completion A) : proc A := fun w => (c, w).

(** [process.exit(code)] ends the process where it stands: nothing that
    follows runs, a pending [finally] block included. *)
Definition processExit {A : Type} (code : Z) : proc A := fun w => (Exit code, w).

(** [try { body } catch (error) { handler }] *)
Definition tryCatch {A : Type} (body : proc A) (handler : error -> proc A) : proc A :=
  fun w =>
    match body w with
    | (Throw e, w') => handler e w'
    | r => r
    end.

(** [try { body } catch (error) { handler } finally { cleanup }] *)
Definition tryCatchFinally {A : Type} (body : proc A) (handler : error -> proc A)
  (cleanup : proc unit) : proc A :=
  fun w =>
    match tryCatch body handler w with
    | (Exit n, w') => (Exit n, w')
    | (Normal a, w') =>
        match cleanup w' with
        | (Normal _, w'') => (Normal a, w'')
        | (Throw e, w'') => (Throw e, w'')
        | (Exit n, w'') => (Exit n, w'')
        end
    | (Throw e, w') =>
        match cleanup w' with
        | (Normal _, w'') => (Throw e, w'')
        | (Throw e', w'') => (Throw e', w'')
        | (Exit n, w'') => (Exit n, w'')
        end
    end.

Notation "x <-- c ;;; k" := (bindP c (fun x => k))
  (at level 61, c at next level, right associativity).
Notation "c ;;; k" := (bindP c (fun _ => k))
  (at level 61, right associativity).

Definition record (e : event) : proc unit :=
  fun w => (Normal tt,
            {| this_mainDb := this_mainDb w; this_devDb := this_devDb w;
               trace := push (trace w) e |}).

Definition connect (env : Env) : proc unit :=
  mainDb <-- await (createMainConnection env) ;;;
  (fun w => (Normal tt,
             {| this_mainDb := Some mainDb; this_devDb := this_devDb w;
                trace := trace w |})) ;;;
  record (Connected MainDb) ;;;
  devDb <-- await (createDevConnection env) ;;;
  (fun w => (Normal tt,
             {| this_mainDb := this_mainDb w; this_devDb := Some devDb;
                trace := trace w |})) ;;;
  record (Connected DevDb).

Definition disconnect : proc unit :=
  (fun w => match this_mainDb w with
            | Some _ => record (Ended MainDb) w
            | None => retP tt w
            end) ;;;
  (fun w => match this_devDb w with
            | Some _ => record (Ended DevDb) w
            | None => retP tt w
            end).

(** Reading a connection of the checker: [execute] on [null] throws. *)
Definition theConnection (field : world -> option Connection) : proc Connection :=
  fun w =>
    match field w with
    | Some c => (Normal c, w)
    | None => (Throw (TypeError "Cannot read properties of null (reading 'execute')"), w)
    end.

(** A connection is released at the end of a run when it was ended after
    it was opened. *)
Definition releasedAll (w : world) : Prop :=
  forall s, In (Connected s) (trace w) -> In (Ended s) (trace w).

(** ** [src/index.js]: the minimal variant *)

Module Legacy.

(** [checkAndReport] answers with a boolean. *)
Definition checkAndReport (devDb mainDb : Connection) : completion bool :=
  found <- walkTables devDb mainDb ;;
  if Found.any found then
    _ <- fixCommands devDb found ;;
    Normal false
  else Normal true.

Definition this_checkAndReport : proc bool :=
  devDb <-- theConnection this_devDb ;;;
  mainDb <-- theConnection this_mainDb ;;;
  await (checkAndReport devDb mainDb).

Definition main (env : Env) : proc unit :=
  tryCatchFinally
    (connect env ;;;
     isInSync <-- this_checkAndReport ;;;
     processExit (if isInSync : bool then 0 else 1)%Z)
    (fun error => processExit 1%Z)
    disconnect.

End Legacy.

(** ** [src/unnamed/part_000]: the variant with summary and comment *)

Module Action.

(** [checkAndReport] answers with the result object; in sync, the four
    arrays of the object are fresh empty ones. *)
Definition checkAndReport (devDb mainDb : Connection) : completion Result.t :=
  found <- walkTables devDb mainDb ;;
  if Found.any found then
    _ <- fixCommands devDb found ;;
    Normal (Result.mk false
              (Found.missingTables found)
              (Found.missingColumns found)
              (Found.differentColumns found)
              (Found.missingIndexes found))
  else Normal (Result.mk true [] [] [] []).

Definition this_checkAndReport : proc Result.t :=
  devDb <-- theConnection this_devDb ;;;
  mainDb <-- theConnection this_mainDb ;;;
  await (checkAndReport devDb mainDb).

(** [generatePRComment], abridged: of the comment only the SQL commands
    are kept, the part that queries dev again; the grouping by table that
    precedes them, which can throw, is not in it.  The whole comment is
    [generatePRCommentBody] below. *)
Definition generatePRComment (devDb : Connection) (result : Result.t)
  : completion (list string) :=
  let found :=
    Found.mk (Result.missingTables result) (Result.missingColumns result)
      (Result.differentColumns result) (Result.missingIndexes result) in
  if Found.any found then fixCommands devDb found else Normal [].

Definition this_generatePRComment (result : Result.t) : proc (list string) :=
  devDb <-- theConnection this_devDb ;;;
  await (generatePRComment devDb result).

(** [main].  Where [GITHUB_ACTIONS] is unset this follows the source, and
    the properties below take it there; the capture of the console, set up
    and restored around the check, is [setupOutputCapture] and
    [restoreConsoleLog] below.  The branch of a GitHub Actions run is
    abridged: the step summary, written without [await], and the outputs
    of the step are left out, the comment is the abridged
    [generatePRComment], and [createComment] stands for the whole of
    [github.getOctokit(...).rest.issues.createComment(...)]. *)
Definition main (env : Env) : proc unit :=
  tryCatch
    (connect env ;;;
     result <-- this_checkAndReport ;;;
     (if GITHUB_ACTIONS env then
        if negb (Result.isInSync result) then
          body <-- this_generatePRComment result ;;;
          await (createComment env)
        else retP tt
      else retP tt) ;;;
     disconnect ;;;
     processExit 0%Z)
    (fun error =>
       (if GITHUB_ACTIONS env then await (createComment env) else retP tt) ;;;
       processExit 1%Z).

End Action.

(** ** Sample catalogs *)

Definition col (name type nullable : string) (defaultValue : option string)
  (extra : string) : Column.t :=
  Column.mk name type nullable defaultValue extra "" None None None.

(** A connection that answers every statement from fixed data. *)
Definition serve (tables : list string)
  (columns : string -> list Column.t)
  (indexRows : string -> list IndexRow.t) : Connection :=
  {| tablesRows := Normal (map TableRow.mk tables);
     columnsRows := fun t => Normal (columns t);
     showIndexRows := fun t => Normal (indexRows t);
     showCreateRows := fun t =>
       if includes tables t
       then Normal [CreateRow.mk ("CREATE TABLE `" ++ t ++ "` (...)")]
       else Throw (QueryError ("Table '" ++ t ++ "' doesn't exist")) |}.

Definition usersColumns : list Column.t :=
  [ col "id" "int(11)" "NO" None "auto_increment";
    col "email" "varchar(255)" "NO" None "" ].

Definition usersIndexRows : list IndexRow.t :=
  [ IndexRow.mk "PRIMARY" "id" 0;
    IndexRow.mk "ix_email" "email" 0 ].

(** dev: tables [orders] and [users]. *)
Definition devSample : Connection :=
  serve ["orders"; "users"]
    (fun t => if t =? "users" then usersColumns
              else if t =? "orders" then [col "id" "int(11)" "NO" None ""; col "total" "int" "YES" None ""]
              else [])
    (fun t => if t =? "users" then usersIndexRows
              else if t =? "orders" then [IndexRow.mk "ix_total" "total" 1]
              else []).

(** main: table [users] only, as in dev. *)
Definition mainSample : Connection :=
  serve ["users"]
    (fun t => if t =? "users" then usersColumns else [])
    (fun t => if t =? "users" then usersIndexRows else []).

(** A larger main: everything dev has, and more. *)
Definition mainSuper : Connection :=
  serve ["audit"; "orders"; "users"]
    (fun t => if t =? "users" then usersColumns ++ [col "age" "int" "YES" None ""]
              else if t =? "orders" then [col "id" "int(11)" "NO" None ""; col "total" "int" "YES" None ""]
              else if t =? "audit" then [col "id" "int" "NO" None ""]
              else [])%list
    (fun t => if t =? "users" then usersIndexRows ++ [IndexRow.mk "ix_age" "age" 1]
              else if t =? "orders" then [IndexRow.mk "ix_total" "total" 1]
              else [])%list.

(** A table [events] with a column [constructor] and an index of that
    name on it. *)
Definition eventsColumns : list Column.t :=
  [ col "id" "int(11)" "NO" None "auto_increment";
    col "constructor" "varchar(64)" "YES" None "" ].

Definition eventsIndexRows : list IndexRow.t :=
  [ IndexRow.mk "PRIMARY" "id" 0;
    IndexRow.mk "constructor" "constructor" 1 ].

Definition eventsCatalog : Connection :=
  serve ["events"]
    (fun t => if t =? "events" then eventsColumns else [])
    (fun t => if t =? "events" then eventsIndexRows else []).

(** The same, and a table [audit] and a column [payload] more. *)
Definition eventsSuper : Connection :=
  serve ["audit"; "events"]
    (fun t => if t =? "events" then eventsColumns ++ [col "payload" "text" "YES" None ""]
              else if t =? "audit" then [col "id" "int" "NO" None ""]
              else [])%list
    (fun t => if t =? "events" then eventsIndexRows else []).

(** ** The specification's words, as definitions

    These follow the specification, not the code; the properties below
    compare the two. *)

(** The note of one dimension of the comparison: present exactly when the
    two sides differ. *)
Definition note (same : bool) (text : string) : list string :=
  if same then [] else [text].

(** The null sentinel of a default becomes the literal string. *)
Definition normalized (d : option string) : string :=
  match d with None => "NULL" | Some s => s end.

(** Type, nullable, default, extra, in this order, the target's value
    before the reference's in each note. *)
Definition compare_spec (reference target : Column.t) : list string :=
  (note (Column.type reference =? Column.type target)
     ("type: '" ++ Column.type target ++ "' → '" ++ Column.type reference ++ "'")
   ++ note (Column.nullable reference =? Column.nullable target)
        ("nullable: " ++ Column.nullable target ++ " → " ++ Column.nullable reference)
   ++ note (normalized (Column.defaultValue reference)
              =? normalized (Column.defaultValue target))
        ("default: " ++ normalized (Column.defaultValue target) ++ " → "
           ++ normalized (Column.defaultValue reference))
   ++ note (Column.extra reference =? Column.extra target)
        ("extra: '" ++ Column.extra target ++ "' → '" ++ Column.extra reference ++ "'"))%list.

(** The optional clauses of a column statement. *)
Definition notNullClause (c : Column.t) : string :=
  if string_dec (Column.nullable c) "NO" then " NOT NULL" else "".

Definition defaultClause (c : Column.t) : string :=
  match Column.defaultValue c with
  | Some d => " DEFAULT " ++ d
  | None => ""
  end.

Definition extraClause (c : Column.t) : string :=
  if string_dec (Column.extra c) "" then "" else " " ++ Column.extra c.

Definition columnClauses (c : Column.t) : string :=
  notNullClause c ++ defaultClause c ++ extraClause c.

(** The rows of one index, in the order the catalog gave them, and the
    descriptor the specification asks for: the columns of these rows, and
    uniqueness as the inverted flag of the first of them. *)
Definition rowsOf (key : string) (rows : list IndexRow.t) : list IndexRow.t :=
  filter (fun r => IndexRow.Key_name r =? key) rows.

Definition descriptorOf (tableName : string) (rows : list IndexRow.t) (key : string)
  : Index.t :=
  {| Index.name := key;
     Index.columns := map IndexRow.Column_name (rowsOf key rows);
     Index.unique :=
       match rowsOf key rows with
       | first :: _ => (IndexRow.Non_unique first =? 0)%Z
       | [] => false
       end;
     Index.table := tableName |}.

(** Catalog rows whose index names the object [indexes] can hold: none of
    them is a name [indexes] inherits. *)
Definition plainNames (rows : list IndexRow.t) : Prop :=
  forall r, In r rows -> IndexRow.Key_name r <> "PRIMARY" ->
            inherited (IndexRow.Key_name r) = false.

(** What holds of [indexes] once the rows [seen] have gone through the
    callback of [getTableIndexes]. *)
Record grouped (tableName : string) (seen : list IndexRow.t) (o : JsObject)
  : Prop := {
  grouped_nodup : NoDup (map fst o);
  grouped_own : forall k d, In (k, d) o ->
    d = descriptorOf tableName seen k
    /\ k <> "PRIMARY" /\ inherited k = false
    /\ In k (map IndexRow.Key_name seen);
  grouped_all : forall r, In r seen -> IndexRow.Key_name r <> "PRIMARY" ->
    In (IndexRow.Key_name r) (map fst o)
}.

(** Appending the four arrays of two findings. *)
Definition foundApp (a b : Found.t) : Found.t :=
  Found.mk (Found.missingTables a ++ Found.missingTables b)
    (Found.missingColumns a ++ Found.missingColumns b)
    (Found.differentColumns a ++ Found.differentColumns b)
    (Found.missingIndexes a ++ Found.missingIndexes b).

(** What one table of dev adds to the four arrays. *)
Definition tableFound (devDb mainDb : Connection) (mainTables : list string)
  (table : string) : completion Found.t :=
  checkTable devDb mainDb mainTables Found.empty table.

(** Name-based lookup of a reference column in the target. *)
Definition sameName (c : Column.t) (m : Column.t) : bool :=
  Column.name m =? Column.name c.

Definition missingColumnsOf (table : string) (mainColumns devColumns : list Column.t)
  : list MissingColumn.t :=
  flat_map (fun c => match find (sameName c) mainColumns with
                     | None => [MissingColumn.mk table c]
                     | Some _ => []
                     end) devColumns.

Definition differentColumnsOf (table : string) (mainColumns devColumns : list Column.t)
  : list DifferentColumn.t :=
  flat_map (fun c => match find (sameName c) mainColumns with
                     | Some m =>
                         match compareColumns c m with
                         | [] => []
                         | notes => [DifferentColumn.mk table c notes]
                         end
                     | None => []
                     end) devColumns.

Definition missingIndexesOf (mainIndexes devIndexes : list Index.t) : list Index.t :=
  filter (fun d => negb (includes (map Index.name mainIndexes) (Index.name d)))
    devIndexes.

(** ** Catalogs *)

(** Column names are unique within a table (the invariant of the data
    model). *)
Definition uniqueColumnNames (c : Connection) : Prop :=
  forall table columns,
    getTableColumns c table = Normal columns -> NoDup (map Column.name columns).

(** The indexes of a table, as the specification reads them off the rows
    of the catalog: one descriptor for each index name other than
    [PRIMARY].  This is said of the rows, whatever [getTableIndexes] makes
    of them. *)
Definition hasIndex (table : string) (rows : list IndexRow.t) (d : Index.t) : Prop :=
  exists r, In r rows /\ IndexRow.Key_name r <> "PRIMARY"
            /\ d = descriptorOf table rows (IndexRow.Key_name r).

(** Every table, column and index [A] has, [B] has identically: of the
    tables [A] lists, each is listed by [B], each of its columns is a column
    of it in [B], and each of its indexes an index of it in [B]. *)
Definition supersetOf (A B : Connection) : Prop :=
  exists tablesA tablesB,
    getTables A = Normal tablesA /\ getTables B = Normal tablesB
    /\ incl tablesA tablesB
    /\ forall table, In table tablesA ->
         exists columnsA columnsB rowsA rowsB,
           columnsRows A table = Normal columnsA
           /\ columnsRows B table = Normal columnsB
           /\ incl columnsA columnsB
           /\ showIndexRows A table = Normal rowsA
           /\ showIndexRows B table = Normal rowsB
           /\ forall d, hasIndex table rowsA d -> hasIndex table rowsB d.

(** The same tables, columns and indexes on both sides. *)
Definition sameCatalog (A B : Connection) : Prop :=
  exists tables,
    getTables A = Normal tables /\ getTables B = Normal tables
    /\ forall table, In table tables ->
         exists columns rowsA rowsB,
           columnsRows A table = Normal columns
           /\ columnsRows B table = Normal columns
           /\ showIndexRows A table = Normal rowsA
           /\ showIndexRows B table = Normal rowsB
           /\ forall d, hasIndex table rowsA d <-> hasIndex table rowsB d.

(** No index of a table that [A] lists, on either side, is named like a
    member of [Object.prototype]. *)
Definition plainIndexNames (A B : Connection) : Prop :=
  forall tables table rows,
    getTables A = Normal tables -> In table tables ->
    showIndexRows A table = Normal rows \/ showIndexRows B table = Normal rows ->
    plainNames rows.

(** What the readers return for the tables of [A], they return for [B]
    too.  This speaks of the calls, not of the catalogs: it holds of no
    pair on which [getTableIndexes] throws. *)
Definition answersBelow (A B : Connection) : Prop :=
  exists tablesA tablesB,
    getTables A = Normal tablesA /\ getTables B = Normal tablesB
    /\ incl tablesA tablesB
    /\ forall table, In table tablesA ->
         exists columnsA columnsB indexesA indexesB,
           getTableColumns A table = Normal columnsA
           /\ getTableColumns B table = Normal columnsB
           /\ incl columnsA columnsB
           /\ getTableIndexes A table = Normal indexesA
           /\ getTableIndexes B table = Normal indexesB
           /\ incl indexesA indexesB.

(** The index names of a table, all the differ reads of the target's
    indexes. *)
Definition indexNames (c : Connection) (table : string) : completion (list string) :=
  indexes <- getTableIndexes c table ;; Normal (map Index.name indexes).

(** The two ways a table of dev is checked, and what each adds. *)
Inductive checked (devDb mainDb : Connection) (mainTables : list string)
  (table : string) (f : Found.t) : Prop :=
| checked_missing :
    ~ In table mainTables ->
    f = Found.mk [table] [] [] [] ->
    checked devDb mainDb mainTables table f
| checked_present (devColumns mainColumns : list Column.t)
    (devIndexes mainIndexes : list Index.t) :
    In table mainTables ->
    getTableColumns devDb table = Normal devColumns ->
    getTableColumns mainDb table = Normal mainColumns ->
    getTableIndexes devDb table = Normal devIndexes ->
    getTableIndexes mainDb table = Normal mainIndexes ->
    f = Found.mk [] (missingColumnsOf table mainColumns devColumns)
          (differentColumnsOf table mainColumns devColumns)
          (missingIndexesOf mainIndexes devIndexes) ->
    checked devDb mainDb mainTables table f.

Definition allEmpty (r : Result.t) : Prop :=
  Result.missingTables r = [] /\ Result.missingColumns r = []
  /\ Result.differentColumns r = [] /\ Result.missingIndexes r = [].

(** Every entry of the four lists is an element of the reference. *)
Definition fromReference (A : Connection) (r : Result.t) : Prop :=
  (forall table, In table (Result.missingTables r) ->
     exists tablesA, getTables A = Normal tablesA /\ In table tablesA)
  /\ (forall m, In m (Result.missingColumns r) ->
        exists tablesA columnsA,
          getTables A = Normal tablesA /\ In (MissingColumn.table m) tablesA
          /\ getTableColumns A (MissingColumn.table m) = Normal columnsA
          /\ In (MissingColumn.column m) columnsA)
  /\ (forall x, In x (Result.differentColumns r) ->
        exists tablesA columnsA,
          getTables A = Normal tablesA /\ In (DifferentColumn.table x) tablesA
          /\ getTableColumns A (DifferentColumn.table x) = Normal columnsA
          /\ In (DifferentColumn.column x) columnsA)
  /\ (forall d, In d (Result.missingIndexes r) ->
        exists tablesA indexesA,
          getTables A = Normal tablesA /\ In (Index.table d) tablesA
          /\ getTableIndexes A (Index.table d) = Normal indexesA
          /\ In d indexesA).

(** What the result owes to a table that both sides have. *)
Definition driftReported (devDb mainDb : Connection) (r : Result.t) (table : string)
  : Prop :=
  exists devColumns mainColumns devIndexes mainIndexes,
    getTableColumns devDb table = Normal devColumns
    /\ getTableColumns mainDb table = Normal mainColumns
    /\ getTableIndexes devDb table = Normal devIndexes
    /\ getTableIndexes mainDb table = Normal mainIndexes
    /\ (forall c, In c devColumns -> find (sameName c) mainColumns = None ->
                  In (MissingColumn.mk table c) (Result.missingColumns r))
    /\ (forall c m, In c devColumns -> find (sameName c) mainColumns = Some m ->
                    compareColumns c m <> [] ->
                    In (DifferentColumn.mk table c (compareColumns c m))
                       (Result.differentColumns r))
    /\ (forall d, In d devIndexes ->
                  ~ In (Index.name d) (map Index.name mainIndexes) ->
                  In d (Result.missingIndexes r)).

(** ** More sample catalogs and runs *)

(** dev ahead of main: a table, a column, an index more, a column of another
    type, and an index of the same name over other columns. *)
Definition devDrift : Connection :=
  serve ["orders"; "users"]
    (fun t => if t =? "users"
              then [ col "id" "int(11)" "NO" None "auto_increment";
                     col "email" "varchar(255)" "NO" None "";
                     col "age" "int" "NO" (Some "0") "" ]
              else if t =? "orders" then [col "id" "int(11)" "NO" None ""]
              else [])
    (fun t => if t =? "users"
              then [ IndexRow.mk "PRIMARY" "id" 0;
                     IndexRow.mk "ix_email" "email" 0;
                     IndexRow.mk "ix_age" "age" 1 ]
              else []).

Definition mainDrift : Connection :=
  serve ["users"]
    (fun t => if t =? "users"
              then [ col "id" "int(10)" "NO" None "auto_increment";
                     col "email" "varchar(255)" "NO" None "" ]
              else [])
    (fun t => if t =? "users"
              then [ IndexRow.mk "PRIMARY" "id" 0;
                     IndexRow.mk "ix_email" "id" 1;
                     IndexRow.mk "ix_email" "email" 1 ]
              else []).

Definition driftResult : Result.t :=
  Result.mk false ["orders"]
    [MissingColumn.mk "users" (col "age" "int" "NO" (Some "0") "")]
    [DifferentColumn.mk "users" (col "id" "int(11)" "NO" None "auto_increment")
       ["type: 'int(10)' → 'int(11)'"]]
    [Index.mk "ix_age" ["age"] false "users"].

Definition envInSync : Env :=
  {| createMainConnection := Normal mainSample;
     createDevConnection := Normal mainSample;
     GITHUB_ACTIONS := false;
     createComment := Normal tt |}.

Definition envDevDown : Env :=
  {| createMainConnection := Normal mainSample;
     createDevConnection := Throw (ConnectionError "connect ECONNREFUSED");
     GITHUB_ACTIONS := false;
     createComment := Normal tt |}.

(** Both servers answer, then a table of dev disappears before its
    columns are read. *)
Definition devVanishing : Connection :=
  {| tablesRows := Normal [TableRow.mk "users"];
     columnsRows := fun _ => Throw (QueryError "Table 'users' doesn't exist");
     showIndexRows := fun _ => Normal [];
     showCreateRows := fun _ => Throw (QueryError "Table 'users' doesn't exist") |}.

Definition envQueryFails : Env :=
  {| createMainConnection := Normal mainSample;
     createDevConnection := Normal devVanishing;
     GITHUB_ACTIONS := false;
     createComment := Normal tt |}.

(** ** The rest of the two files *)

(** The result object of a walk that found [found]. *)
Definition resultOf (found : Found.t) : Result.t :=
  Result.mk (negb (Found.any found)) (Found.missingTables found)
    (Found.missingColumns found) (Found.differentColumns found)
    (Found.missingIndexes found).

Definition envDrift : Env :=
  {| createMainConnection := Normal mainDrift;
     createDevConnection := Normal devDrift;
     GITHUB_ACTIONS := false;
     createComment := Normal tt |}.

(** The findings of the tables, one after the other. *)
Definition foundConcat (fs : list Found.t) : Found.t :=
  fold_right foundApp Found.empty fs.

(** The four reads of a table both sides list all return. *)
Definition readable (devDb mainDb : Connection) (table : string) : Prop :=
  (exists devColumns, getTableColumns devDb table = Normal devColumns)
  /\ (exists mainColumns, getTableColumns mainDb table = Normal mainColumns)
  /\ (exists devIndexes, getTableIndexes devDb table = Normal devIndexes)
  /\ (exists mainIndexes, getTableIndexes mainDb table = Normal mainIndexes).

Definition toStringRows : list IndexRow.t :=
  [IndexRow.mk "PRIMARY" "id" 0; IndexRow.mk "toString" "label" 1].

(** Both sides alike, with an index named [toString] on [users]. *)
Definition withToString : Connection :=
  serve ["users"] (fun _ => usersColumns) (fun _ => toStringRows).

(** The four things [compareColumns] reads of a column. *)
Definition compared (c : Column.t) : string * string * string * string :=
  (Column.type c, Column.nullable c, normalized (Column.defaultValue c),
   Column.extra c).

(** The names of a list in the order of their first appearance. *)
Definition addName (names : list string) (name : string) : list string :=
  if includes names name then names else push names name.

Definition firstNames (names : list string) : list string :=
  fold_left addName names [].

(** The index names of the rows of a table, PRIMARY left out. *)
Definition indexKeys (rows : list IndexRow.t) : list string :=
  filter (fun k => negb (k =? "PRIMARY")) (map IndexRow.Key_name rows).

Definition isArrayIndex (name : string) : bool :=
  match arrayIndex name with Some _ => true | None => false end.

(** [d] stands before [d'] among the indexes named by numbers. *)
Definition numberedBefore (d d' : Index.t) : Prop :=
  exists n n', arrayIndex (Index.name d) = Some n
               /\ arrayIndex (Index.name d') = Some n' /\ (n <= n')%N.

Definition appendAll (l : list string) : string := fold_right append "" l.

(** *** Capturing the console: [setupOutputCapture]

    A string argument loses its colour codes through
    [arg.replace(/\x1b\[[0-9;]*m/g, '')]. *)

Definition ESC : ascii := ascii_of_nat 27.

(** [[0-9;]] *)
Definition isParam (c : ascii) : bool :=
  let n := N_of_ascii c in
  ((48 <=? n) && (n <=? 57))%N || (c =? ";")%char.

(** Where the scan of the pattern stands: outside a match, after ESC, or
    after ESC [ and the parameters read so far. *)
Inductive scan : Type :=
| Outside
| AfterEsc
| InParams (params : string).

(** The replacement, left to right: a match is dropped, a failed attempt
    gives its characters back and the scan goes on behind the ESC. *)
Fixpoint stripFrom (st : scan) (s : string) : string :=
  match s with
  | EmptyString =>
      match st with
      | Outside => ""
      | AfterEsc => String ESC ""
      | InParams params => String ESC (String "[" params)
      end
  | String c rest =>
      let outside :=
        if (c =? ESC)%char then stripFrom AfterEsc rest
        else String c (stripFrom Outside rest) in
      match st with
      | Outside => outside
      | AfterEsc =>
          if (c =? "[")%char then stripFrom (InParams "") rest
          else String ESC outside
      | InParams params =>
          if isParam c then stripFrom (InParams (params ++ String c "")) rest
          else if (c =? "m")%char then stripFrom Outside rest
          else String ESC (String "[" (params ++ outside))
      end
  end.

Definition stripAnsi (s : string) : string := stripFrom Outside s.

(** An argument of a console call: a string, or anything else by its
    [JSON.stringify] text (empty where that is [undefined]). *)
Inductive consoleArg : Type :=
| StringArg (s : string)
| OtherArg (json : string).

(** The [message] of a captured call. *)
Definition capturedMessage (args : list consoleArg) : string :=
  join " " (map (fun arg => match arg with
                            | StringArg s => stripAnsi s
                            | OtherArg json => json
                            end) args).

(** Specification side: strings of parameters, a whole colour code, and
    text free of ESC. *)
Fixpoint allParams (s : string) : bool :=
  match s with
  | EmptyString => true
  | String c rest => isParam c && allParams rest
  end.

Fixpoint noEsc (s : string) : bool :=
  match s with
  | EmptyString => true
  | String c rest => negb (c =? ESC)%char && noEsc rest
  end.

Definition colorCode (params : string) : string :=
  String ESC (String "[" (params ++ "m")).

(** *** The step summary: [generateActionsSummary] *)

Module Captured.
(** An entry of [capturedOutput]. *)
Record t : Type := mk { type : string; message : string; timestamp : string }.
End Captured.

(** A number in a template literal. *)
Definition numberToString (n : nat) : string :=
  NilZero.string_of_uint (Nat.to_uint n).

(** A row object in a template literal, and a property that is not there. *)
Definition objectToString : string := "[object Object]".
Definition undefinedToString : string := "undefined".

(** [generateActionsSummary(result)], given what the clock and the locale
    supply: [toLocaleTimeString ts] for
    [new Date(ts).toLocaleTimeString()], and [now] for
    [new Date().toISOString()]. *)
Definition generateActionsSummary (toLocaleTimeString : string -> string)
  (now : string) (capturedOutput : list Captured.t) (result : Result.t) : string :=
  let summary : list string :=
   (    [ "# 🔍 MySQL Schema Comparison Report"; "" ]
    ++ (if Result.isInSync result
        then [ "## ✅ Status: In Sync"; "Main database has everything from dev database." ]
        else [ "## ❌ Status: Out of Sync"; "Main database is missing elements from dev database." ])
    ++ [ "";
         "## 📊 Summary"; "| Category | Count |"; "|----------|-------|";
         ("| Missing Tables | " ++ numberToString (length (Result.missingTables result)) ++ " |")%string;
         ("| Missing Columns | " ++ numberToString (length (Result.missingColumns result)) ++ " |")%string;
         ("| Different Columns | " ++ numberToString (length (Result.differentColumns result)) ++ " |")%string;
         ("| Missing Indexes | " ++ numberToString (length (Result.missingIndexes result)) ++ " |")%string;
         "";
         "## 📋 Full Console Output"; ""; "<details>"; "<summary>Click to view complete log</summary>"; ""; "```" ]
    ++ (if (0 <? length capturedOutput)%nat
        then map (fun output =>
                    ("[" ++ toLocaleTimeString (Captured.timestamp output) ++ "] "
                       ++ Captured.message output)%string) capturedOutput
        else [ "No output captured" ])
    ++ [ "```"; "</details>"; "" ]
    ++ (if negb (Result.isInSync result) then
          (if (0 <? length (Result.missingTables result))%nat
           then [ "## 📋 Missing Tables" ]
                ++ map (fun table => ("- " ++ table)%string) (Result.missingTables result)
                ++ [ "" ]
           else [])
          ++ (if (0 <? length (Result.missingColumns result))%nat
              then [ "## 📋 Missing Columns" ]
                   ++ map (fun col => ("- " ++ MissingColumn.table col ++ "."
                                         ++ objectToString)%string)
                        (Result.missingColumns result)
                   ++ [ "" ]
              else [])
          ++ (if (0 <? length (Result.differentColumns result))%nat
              then [ "## 📋 Different Columns" ]
                   ++ map (fun col => ("- " ++ DifferentColumn.table col ++ "."
                                         ++ objectToString ++ ": "
                                         ++ undefinedToString)%string)
                        (Result.differentColumns result)
                   ++ [ "" ]
              else [])
        else [])
    ++ [ "---"; ("Generated at: " ++ now)%string ])%list in
  join (String (ascii_of_nat 10) "") summary.

(** *** The comment on the pull request: [generatePRComment] *)

Module Group.
(** An element of [group.columns]. *)
Inductive entry : Type :=
| MissingEntry (column : Column.t)
| DifferentEntry (column : Column.t) (differences : list string).

(** A value of [tableGroups]; [missing] is [true] or not there. *)
Record t : Type := mk {
  missing : bool;
  columns : list entry;
  indexes : list Index.t
}.
End Group.

(** The object [tableGroups]: own properties in the order of creation,
    before the same inherited properties as [indexes] has. *)
Definition TableGroups : Type := list (string * Group.t).

Fixpoint getGroup (o : TableGroups) (key : string) : option Group.t :=
  match o with
  | [] => None
  | (k, v) :: rest => if k =? key then Some v else getGroup rest key
  end.

Fixpoint replaceGroup (o : TableGroups) (key : string) (v : Group.t) : TableGroups :=
  match o with
  | [] => []
  | (k, w) :: rest =>
      if k =? key then (k, v) :: rest else (k, w) :: replaceGroup rest key v
  end.

(** [if (!tableGroups[table]) tableGroups[table] = fresh] *)
Definition ensureGroup (o : TableGroups) (table : string) (fresh : Group.t)
  : TableGroups :=
  match getGroup o table with
  | Some _ => o
  | None => if inherited table then o else push o (table, fresh)
  end.

(** [tableGroups[table].columns.push(entry)] after the guard. *)
Definition groupColumn (o : TableGroups) (table : string) (e : Group.entry)
  : completion TableGroups :=
  let o := ensureGroup o table (Group.mk false [] []) in
  match getGroup o table with
  | Some g =>
      Normal (replaceGroup o table
                (Group.mk (Group.missing g) (push (Group.columns g) e)
                   (Group.indexes g)))
  | None => Throw (TypeError "Cannot read properties of undefined (reading 'push')")
  end.

(** [tableGroups[index.table].indexes.push(index)] after the guard. *)
Definition groupIndex (o : TableGroups) (index : Index.t) : completion TableGroups :=
  let o := ensureGroup o (Index.table index) (Group.mk false [] []) in
  match getGroup o (Index.table index) with
  | Some g =>
      Normal (replaceGroup o (Index.table index)
                (Group.mk (Group.missing g) (Group.columns g)
                   (push (Group.indexes g) index)))
  | None => Throw (TypeError "Cannot read properties of undefined (reading 'push')")
  end.

(** The four loops that fill [tableGroups]. *)
Definition groupByTable (result : Result.t) : completion TableGroups :=
  let o :=
    fold_left (fun o table => ensureGroup o table (Group.mk true [] []))
      (Result.missingTables result) [] in
  o <- forOf (fun o m => groupColumn o (MissingColumn.table m)
                           (Group.MissingEntry (MissingColumn.column m)))
         (Result.missingColumns result) o ;;
  o <- forOf (fun o d => groupColumn o (DifferentColumn.table d)
                           (Group.DifferentEntry (DifferentColumn.column d)
                              (DifferentColumn.differences d)))
         (Result.differentColumns result) o ;;
  forOf groupIndex (Result.missingIndexes result) o.

(** [Object.keys(tableGroups)] with the group of each key: the keys that
    are array indices first, by number, then the others as created. *)
Fixpoint insertGroup (e : N * (string * Group.t)) (l : list (N * (string * Group.t)))
  : list (N * (string * Group.t)) :=
  match l with
  | [] => [e]
  | h :: rest => if (fst e <=? fst h)%N then e :: l else h :: insertGroup e rest
  end.

Definition groupsInKeyOrder (o : TableGroups) : TableGroups :=
  (map snd
     (fold_right
        (fun (p : string * Group.t) acc =>
           match arrayIndex (fst p) with
           | Some n => insertGroup (n, p) acc
           | None => acc
           end) [] o)
   ++ filter (fun p : string * Group.t =>
                match arrayIndex (fst p) with None => true | Some _ => false end) o)%list.

Definition commentEntry (e : Group.entry) : string :=
  match e with
  | Group.MissingEntry column =>
      "- ❌ Missing column: `" ++ Column.name column ++ "` (`" ++ Column.type column ++ "`)"
  | Group.DifferentEntry column differences =>
      "- ⚠️ Different column: `" ++ Column.name column ++ "` - " ++ join ", " differences
  end.

Definition commentIndex (index : Index.t) : string :=
  let columns := join ", " (Index.columns index) in
  let unique := if Index.unique index then "UNIQUE " else "" in
  "- ❌ Missing " ++ unique ++ "index: `" ++ Index.name index ++ "` on columns (`" ++ columns ++ "`)".

(** The body of [Object.keys(tableGroups).forEach]. *)
Definition commentGroup (p : string * Group.t) : list string :=
  let tableName := fst p in
  let group := snd p in
  if Group.missing group then
    [ ("### ❌ Table: `" ++ tableName ++ "`")%string; "**Missing entire table in main database**"; "" ]
  else
    ([ ("### ⚠️ Table: `" ++ tableName ++ "`")%string ]
     ++ (if (0 <? length (Group.columns group))%nat
         then [ "**Column differences:**" ] ++ map commentEntry (Group.columns group) ++ [ "" ]
         else [])
     ++ (if (0 <? length (Group.indexes group))%nat
         then [ "**Index differences:**" ] ++ map commentIndex (Group.indexes group) ++ [ "" ]
         else []))%list.

(** The lines between the two code fences. *)
Definition commentCommands (devDb : Connection) (result : Result.t)
  : completion (list string) :=
  tables <-
    (if (0 <? length (Result.missingTables result))%nat then
       forOf (fun (comment : list string) (table : string) =>
                createStatement <- getCreateTableStatement devDb table ;;
                Normal (push (push comment (createStatement ++ ";")) ""))
             (Result.missingTables result) [ "-- Missing Tables --" ]
     else Normal []) ;;
  Normal
    (tables
     ++ (if (0 <? length (Result.missingColumns result))%nat
         then [ "-- Missing Columns --" ]
              ++ map (fun m => generateAlterColumnCommand (MissingColumn.table m)
                                 (MissingColumn.column m))
                   (Result.missingColumns result)
              ++ [ "" ]
         else [])
     ++ (if (0 <? length (Result.differentColumns result))%nat
         then [ "-- Modified Columns (review carefully before running) --" ]
              ++ flat_map
                   (fun d =>
                      [ ("-- Column " ++ Column.name (DifferentColumn.column d) ++ " in table "
                           ++ DifferentColumn.table d ++ ": "
                           ++ join ", " (DifferentColumn.differences d))%string;
                        generateModifyColumnCommand (DifferentColumn.table d)
                          (DifferentColumn.column d) ])
                   (Result.differentColumns result)
              ++ [ "" ]
         else [])
     ++ (if (0 <? length (Result.missingIndexes result))%nat
         then [ "-- Missing Indexes --" ]
              ++ map generateCreateIndexCommand (Result.missingIndexes result)
         else []))%list.

(** [generatePRComment(result)]; the three strings are what
    [process.env.GITHUB_SERVER_URL], [GITHUB_REPOSITORY] and [GITHUB_RUN_ID]
    give in the template. *)
Definition generatePRCommentBody (serverUrl repository runId : string)
  (devDb : Connection) (result : Result.t) : completion string :=
  let head : list string :=
    [ "## 🚨 Database Schema Differences Detected"; ""; "The schema comparison between your development and production databases found differences:"; "";
      "| Category | Count |"; "|----------|-------|";
      ("| Missing Tables | " ++ numberToString (length (Result.missingTables result)) ++ " |")%string;
      ("| Missing Columns | " ++ numberToString (length (Result.missingColumns result)) ++ " |")%string;
      ("| Different Columns | " ++ numberToString (length (Result.differentColumns result)) ++ " |")%string;
      ("| Missing Indexes | " ++ numberToString (length (Result.missingIndexes result)) ++ " |")%string;
      "" ] in
  details <-
    (if (0 <? length (Result.missingTables result))%nat
        || (0 <? length (Result.missingColumns result))%nat
        || (0 <? length (Result.differentColumns result))%nat
        || (0 <? length (Result.missingIndexes result))%nat
     then
       tableGroups <- groupByTable result ;;
       commands <- commentCommands devDb result ;;
       Normal ([ "## 🔍 Detailed Differences"; "" ]
               ++ flat_map commentGroup (groupsInKeyOrder tableGroups)
               ++ [ "## 📋 SQL Commands to Fix"; ""; "<details>"; "<summary>Click to view SQL commands</summary>"; ""; "```sql" ]
               ++ commands
               ++ [ "```"; "</details>"; "" ])%list
     else Normal []) ;;
  Normal
    (join (String (ascii_of_nat 10) "")
       (head ++ details
        ++ [ "### 📋 Next Steps:";
             ("1. Review the detailed comparison in the [Actions summary](" ++ serverUrl ++ "/" ++ repository ++ "/actions/runs/" ++ runId ++ ")")%string;
             "2. Apply the generated SQL commands to your production database"; "3. Re-run this check to verify the changes"; "";
             "### ⚠️ Important:"; "- Review all SQL commands before executing them"; "- Consider creating a backup before applying changes"; "- Test changes in a staging environment first"; "";
             "---"; "🤖 *This comment was automatically generated by the MySQL Schema Compare action*" ])%list).


(** One step of the four loops of [generatePRComment]. *)
Inductive finding : Type :=
| TableFinding (table : string)
| ColumnFinding (table : string) (e : Group.entry)
| IndexFinding (index : Index.t).

Definition tableOf (f : finding) : string :=
  match f with
  | TableFinding table => table
  | ColumnFinding table _ => table
  | IndexFinding index => Index.table index
  end.

Definition applyFinding (o : TableGroups) (f : finding) : completion TableGroups :=
  match f with
  | TableFinding table => Normal (ensureGroup o table (Group.mk true [] []))
  | ColumnFinding table e => groupColumn o table e
  | IndexFinding index => groupIndex o index
  end.

Definition findingsOf (result : Result.t) : list finding :=
  (map TableFinding (Result.missingTables result)
   ++ map (fun m => ColumnFinding (MissingColumn.table m)
                      (Group.MissingEntry (MissingColumn.column m)))
        (Result.missingColumns result)
   ++ map (fun d => ColumnFinding (DifferentColumn.table d)
                      (Group.DifferentEntry (DifferentColumn.column d)
                         (DifferentColumn.differences d)))
        (Result.differentColumns result)
   ++ map IndexFinding (Result.missingIndexes result))%list.

Definition findingsFor (table : string) (seen : list finding) : list finding :=
  filter (fun f => tableOf f =? table) seen.

(** The group a table has once the findings [seen] are in. *)
Definition groupAfter (seen : list finding) (table : string) : Group.t :=
  {| Group.missing :=
       match findingsFor table seen with
       | TableFinding _ :: _ => true
       | _ => false
       end;
     Group.columns :=
       flat_map (fun f => match f with ColumnFinding _ e => [e] | _ => [] end)
         (findingsFor table seen);
     Group.indexes :=
       flat_map (fun f => match f with IndexFinding i => [i] | _ => [] end)
         (findingsFor table seen) |}.

(** The group the specification of the comment gives a table: marked
    missing when the table is, with the missing columns of the table, then
    its differing columns, and its missing indexes. *)
Definition groupOf (result : Result.t) (table : string) : Group.t :=
  {| Group.missing := includes (Result.missingTables result) table;
     Group.columns :=
       (map (fun m => Group.MissingEntry (MissingColumn.column m))
          (filter (fun m => MissingColumn.table m =? table)
             (Result.missingColumns result))
        ++ map (fun d => Group.DifferentEntry (DifferentColumn.column d)
                           (DifferentColumn.differences d))
            (filter (fun d => DifferentColumn.table d =? table)
               (Result.differentColumns result)))%list;
     Group.indexes :=
       filter (fun i => Index.table i =? table) (Result.missingIndexes result) |}.

(** The tables of the findings, in the order the lists are gone through. *)
Definition tablesOfResult (result : Result.t) : list string :=
  (Result.missingTables result
   ++ map MissingColumn.table (Result.missingColumns result)
   ++ map DifferentColumn.table (Result.differentColumns result)
   ++ map Index.table (Result.missingIndexes result))%list.

(** No column or index finding is on a table named like a member of
    [Object.prototype]. *)
Definition plainTables (result : Result.t) : Prop :=
  (forall m, In m (Result.missingColumns result) ->
             inherited (MissingColumn.table m) = false)
  /\ (forall d, In d (Result.differentColumns result) ->
                inherited (DifferentColumn.table d) = false)
  /\ (forall i, In i (Result.missingIndexes result) ->
                inherited (Index.table i) = false).

Record groupedBy (seen : list finding) (o : TableGroups) : Prop := {
  groupedBy_nodup : NoDup (map fst o);
  groupedBy_own : forall k g, In (k, g) o ->
    g = groupAfter seen k /\ inherited k = false /\ In k (map tableOf seen);
  groupedBy_all : forall f, In f seen -> inherited (tableOf f) = false ->
    In (tableOf f) (map fst o)
}.

(** The group a finding opens, and what it adds to a group that is there. *)
Definition firstGroup (f : finding) : Group.t :=
  match f with
  | TableFinding _ => Group.mk true [] []
  | ColumnFinding _ e => Group.mk false [e] []
  | IndexFinding i => Group.mk false [] [i]
  end.

Definition extendGroup (g : Group.t) (f : finding) : Group.t :=
  match f with
  | TableFinding _ => g
  | ColumnFinding _ e => Group.mk (Group.missing g) (push (Group.columns g) e)
                           (Group.indexes g)
  | IndexFinding i => Group.mk (Group.missing g) (Group.columns g)
                        (push (Group.indexes g) i)
  end.

Definition isTableFinding (f : finding) : bool :=
  match f with TableFinding _ => true | _ => false end.

(** A console method: the one Node provides, or the closure
    [captureOutput(type, originalMethod)] returns. *)
Inductive method : Type :=
| Native (name : string)
| Capturing (type : string) (originalMethod : method).

Record Console : Type := {
  console_log : method;
  console_error : method;
  console_warn : method;
  console_info : method
}.

(** The console, the two fields of the checker that the capture uses, and
    what the native methods have written. *)
Record capture : Type := {
  console : Console;
  capturedOutput : list Captured.t;
  originalConsole : option Console;
  written : list (string * list consoleArg)
}.

(** Calling a console method at the time [now]. *)
Fixpoint callMethod (m : method) (now : string) (args : list consoleArg)
  (st : capture) : capture :=
  match m with
  | Native name =>
      {| console := console st;
         capturedOutput := capturedOutput st;
         originalConsole := originalConsole st;
         written := push (written st) (name, args) |}
  | Capturing type originalMethod =>
      callMethod originalMethod now args
        {| console := console st;
           capturedOutput :=
             push (capturedOutput st)
               (Captured.mk type (capturedMessage args) now);
           originalConsole := originalConsole st;
           written := written st |}
  end.

Definition setupOutputCapture (st : capture) : capture :=
  let originalConsole := console st in
  {| console :=
       {| console_log := Capturing "log" (console_log originalConsole);
          console_error := Capturing "error" (console_error originalConsole);
          console_warn := Capturing "warn" (console_warn originalConsole);
          console_info := Capturing "info" (console_info originalConsole) |};
     capturedOutput := [];
     originalConsole := Some originalConsole;
     written := written st |}.

Definition restoreConsoleLog (st : capture) : completion capture :=
  match originalConsole st with
  | Some original =>
      Normal {| console := original;
                capturedOutput := capturedOutput st;
                originalConsole := originalConsole st;
                written := written st |}
  | None => Throw (TypeError "Cannot read properties of undefined (reading 'log')")
  end.

(** A console that nothing has captured yet. *)
Definition nativeConsole : Console :=
  {| console_log := Native "log"; console_error := Native "error";
     console_warn := Native "warn"; console_info := Native "info" |}.

Definition freshCapture : capture :=
  {| console := nativeConsole; capturedOutput := []; originalConsole := None;
     written := [] |}.

(** [console.log(...args)] and the like, through whatever method the
    console holds at the time. *)
Definition consoleCall (select : Console -> method) (now : string)
  (args : list consoleArg) (st : capture) : capture :=
  callMethod (select (console st)) now args st.

(** dev as in [devDrift], but its table [orders], which main lacks, cannot
    be read. *)
Definition devDriftOrdersLocked : Connection :=
  {| tablesRows := tablesRows devDrift;
     columnsRows := fun t => if t =? "orders"
                             then Throw (QueryError "SELECT command denied")
                             else columnsRows devDrift t;
     showIndexRows := fun t => if t =? "orders"
                               then Throw (QueryError "SELECT command denied")
                               else showIndexRows devDrift t;
     showCreateRows := showCreateRows devDrift |}.

(** dev as in [devDrift], but SHOW CREATE TABLE is refused. *)
Definition devDriftNoCreate : Connection :=
  {| tablesRows := tablesRows devDrift;
     columnsRows := columnsRows devDrift;
     showIndexRows := showIndexRows devDrift;
     showCreateRows := fun _ => Throw (QueryError "SHOW command denied") |}.

(** A table named [constructor] on both sides, with a column more in
    dev. *)
Definition devConstructor : Connection :=
  serve ["constructor"]
    (fun _ => [col "id" "int" "NO" None ""; col "label" "text" "YES" None ""])
    (fun _ => []).

Definition mainConstructor : Connection :=
  serve ["constructor"] (fun _ => [col "id" "int" "NO" None ""]) (fun _ => []).

Definition constructorResult : Result.t :=
  Result.mk false []
    [MissingColumn.mk "constructor" (col "label" "text" "YES" None "")] [] [].

(** *** The configurations [connect] builds *)

Module Config.
(** [config.ssl]: [{ ca }] or [{}]. *)
Record sslOptions : Type := mkSsl { ca : option string }.

Record t : Type := mk {
  host : string;
  port : string;
  user : string;
  password : string;
  database : string;
  ssl : option sslOptions
}.
End Config.

(** [mainConfig], from [core.getInput]. *)
Definition mainConfig (getInput : string -> string) : Config.t :=
  let mainConfig :=
    Config.mk (getInput "main-db-host") (getInput "main-db-port")
      (getInput "main-db-user") (getInput "main-db-password")
      (getInput "main-db-name") None in
  if getInput "main-db-ssl" =? "true" then
    let mainSslCa := getInput "main-db-ssl-ca" in
    Config.mk (Config.host mainConfig) (Config.port mainConfig)
      (Config.user mainConfig) (Config.password mainConfig)
      (Config.database mainConfig)
      (Some (if truthy mainSslCa then Config.mkSsl (Some mainSslCa)
             else Config.mkSsl None))
  else mainConfig.

(** [devConfig], from [core.getInput]. *)
Definition devConfig (getInput : string -> string) : Config.t :=
  let devConfig :=
    Config.mk (getInput "dev-db-host") (getInput "dev-db-port")
      (getInput "dev-db-user") (getInput "dev-db-password")
      (getInput "dev-db-name") None in
  if getInput "dev-db-ssl" =? "true" then
    let devSslCa := getInput "dev-db-ssl-ca" in
    Config.mk (Config.host devConfig) (Config.port devConfig)
      (Config.user devConfig) (Config.password devConfig)
      (Config.database devConfig)
      (Some (if truthy devSslCa then Config.mkSsl (Some devSslCa)
             else Config.mkSsl None))
  else devConfig.

(** The inputs of the action that name the main database. *)
Definition mainInputs : list string :=
  [ "main-db-host"; "main-db-port"; "main-db-user"; "main-db-password";
    "main-db-name"; "main-db-ssl"; "main-db-ssl-ca" ].

(** The input of the dev database that answers to one of main:
    [main-db-x] becomes [dev-db-x]. *)
Definition devInput (name : string) : string :=
  "dev" ++ substring 4 (String.length name - 4) name.

(** The inputs of the local test payload, in part. *)
Definition sampleInputs (name : string) : string :=
  if name =? "main-db-host" then "prod.example.com"
  else if name =? "main-db-ssl" then "true"
  else if name =? "dev-db-host" then "dev.example.com"
  else if name =? "dev-db-ssl" then "TRUE"
  else "".


(** * Properties *)

(** ** Strings and lists *)

Lemma append_assoc (a b c : string) : (a ++ b) ++ c = a ++ (b ++ c).
Proof. induction a as [|ch a IH]; simpl; [reflexivity | now rewrite IH]. Qed.

Lemma append_empty_r (a : string) : a ++ "" = a.
Proof. induction a as [|ch a IH]; simpl; [reflexivity | now rewrite IH]. Qed.

Lemma includes_In (l : list string) (x : string) :
  includes l x = true <-> In x l.
Proof.
  unfold includes. rewrite existsb_exists. split.
  - intros [y [Hy He]]. apply String.eqb_eq in He. now subst.
  - intros H. exists x. split; [assumption | apply String.eqb_refl].
Qed.

Lemma includes_not_In (l : list string) (x : string) :
  includes l x = false <-> ~ In x l.
Proof.
  rewrite <- includes_In. destruct (includes l x); split; congruence.
Qed.

Lemma bind_Normal {A B : Type} (c : completion A) (k : A -> completion B) (b : B) :
  bind c k = Normal b -> exists a, c = Normal a /\ k a = Normal b.
Proof. destruct c as [a| |]; simpl; [|discriminate..]. intros H. now exists a. Qed.

Lemma foundApp_empty_r (a : Found.t) : foundApp a Found.empty = a.
Proof. destruct a. unfold foundApp. simpl. now rewrite !app_nil_r. Qed.

Lemma foundApp_empty_l (a : Found.t) : foundApp Found.empty a = a.
Proof. now destruct a. Qed.

Lemma foundApp_assoc (a b c : Found.t) :
  foundApp (foundApp a b) c = foundApp a (foundApp b c).
Proof. unfold foundApp. simpl. now rewrite !app_assoc. Qed.

(** ** Column comparator *)

Lemma compareColumns_spec (dev main : Column.t) :
  compareColumns dev main = compare_spec dev main.
Proof.
  unfold compareColumns, compare_spec, note, push, normalized.
  cbv zeta.
  destruct (Column.defaultValue dev) as [d|];
    destruct (Column.defaultValue main) as [m|];
    repeat match goal with
           | |- context [String.eqb ?a ?b] => destruct (String.eqb a b)
           end; reflexivity.
Qed.

Lemma note_length (same : bool) (text : string) : (length (note same text) <= 1)%nat.
Proof. destruct same; simpl; lia. Qed.

Lemma compareColumns_same (c : Column.t) : compareColumns c c = [].
Proof.
  rewrite compareColumns_spec. unfold compare_spec.
  now rewrite !String.eqb_refl.
Qed.

(** ** SQL emitter *)

Ltac string_cases :=
  repeat match goal with
         | |- context [string_dec ?a ?b] => destruct (string_dec a b)
         | |- context [String.eqb ?a ?b] => destruct (String.eqb_spec a b)
         end; try congruence.

Lemma generateAlterColumnCommand_clauses (tableName : string) (c : Column.t) :
  generateAlterColumnCommand tableName c
  = ("ALTER TABLE `" ++ tableName ++ "` ADD COLUMN `" ++ Column.name c ++ "` "
       ++ Column.type c) ++ columnClauses c ++ ";".
Proof.
  unfold generateAlterColumnCommand, columnClauses, notNullClause,
    defaultClause, extraClause, truthy.
  cbv zeta.
  destruct (Column.defaultValue c) as [d|]; string_cases;
    cbn [negb]; rewrite ?append_assoc; cbn [append]; rewrite ?append_assoc;
    reflexivity.
Qed.

Lemma generateModifyColumnCommand_clauses (tableName : string) (c : Column.t) :
  generateModifyColumnCommand tableName c
  = ("ALTER TABLE `" ++ tableName ++ "` MODIFY COLUMN `" ++ Column.name c ++ "` "
       ++ Column.type c) ++ columnClauses c ++ ";".
Proof.
  unfold generateModifyColumnCommand, columnClauses, notNullClause,
    defaultClause, extraClause, truthy.
  cbv zeta.
  destruct (Column.defaultValue c) as [d|]; string_cases;
    cbn [negb]; rewrite ?append_assoc; cbn [append]; rewrite ?append_assoc;
    reflexivity.
Qed.

(** ** Own properties *)

Lemma getOwn_None (o : JsObject) (k : string) :
  getOwn o k = None <-> ~ In k (map fst o).
Proof.
  induction o as [|[k' v] o IH]; simpl.
  - tauto.
  - destruct (String.eqb_spec k' k) as [->|Hne].
    + split; [discriminate | tauto].
    + rewrite IH. tauto.
Qed.

Lemma getOwn_Some (o : JsObject) (k : string) (v : Index.t) :
  getOwn o k = Some v -> In (k, v) o.
Proof.
  induction o as [|[k' w] o IH]; simpl; [discriminate|].
  destruct (String.eqb_spec k' k) as [->|Hne].
  - intros [= ->]. now left.
  - intros H. right. now apply IH.
Qed.

Lemma getOwn_In (o : JsObject) (k : string) (v : Index.t) :
  NoDup (map fst o) -> In (k, v) o -> getOwn o k = Some v.
Proof.
  induction o as [|[k' w] o IH]; simpl; [tauto|].
  intros Hnd [Heq|Hin].
  - injection Heq as -> ->. now rewrite String.eqb_refl.
  - inversion Hnd as [|? ? Hnot Hnd']; subst.
    destruct (String.eqb_spec k' k) as [->|Hne].
    + exfalso. apply Hnot. now apply (in_map fst) in Hin.
    + now apply IH.
Qed.

Lemma getOwn_push (o : JsObject) (k : string) (v : Index.t) :
  getOwn o k = None -> getOwn (push o (k, v)) k = Some v.
Proof.
  unfold push. induction o as [|[k' w] o IH]; simpl.
  - now rewrite String.eqb_refl.
  - destruct (k' =? k); [discriminate | exact IH].
Qed.

Lemma replaceOwn_push (o : JsObject) (k : string) (v v' : Index.t) :
  getOwn o k = None -> replaceOwn (push o (k, v)) k v' = push o (k, v').
Proof.
  unfold push. induction o as [|[k' w] o IH]; simpl.
  - now rewrite String.eqb_refl.
  - destruct (k' =? k); [discriminate|]. intros H. now rewrite IH.
Qed.

Lemma replaceOwn_keys (o : JsObject) (k : string) (v : Index.t) :
  map fst (replaceOwn o k v) = map fst o.
Proof.
  induction o as [|[k' w] o IH]; simpl; [reflexivity|].
  destruct (k' =? k); simpl; [reflexivity | now rewrite IH].
Qed.

Lemma In_replaceOwn (o : JsObject) (k : string) (v : Index.t) (k' : string) (x : Index.t) :
  In k (map fst o) ->
  NoDup (map fst o) ->
  In (k', x) (replaceOwn o k v) <-> (k' = k /\ x = v) \/ (k' <> k /\ In (k', x) o).
Proof.
  induction o as [|[k0 w] o IH]; simpl; [tauto|].
  intros Hin Hnd. inversion Hnd as [|? ? Hnot Hnd']; subst.
  destruct (String.eqb_spec k0 k) as [->|Hne]; simpl.
  - split.
    + intros [[= <- <-]|H]; [now left|].
      right. split; [|now right].
      intros ->. apply Hnot. now apply (in_map fst) in H.
    + intros [[-> ->]|[Hne [[= <- <-]|H]]]; [now left | congruence | now right].
  - destruct Hin as [?|Hin]; [congruence|].
    rewrite (IH Hin Hnd'). split.
    + intros [[= <- <-]|[H|H]]; [right; split; [congruence | now left] | now left |].
      right. split; [tauto | right; tauto].
    + intros [H|[Hk [[= <- <-]|H]]]; [right; now left | now left | right; right; tauto].
Qed.

(** ** [Object.values] lists every own value once *)

Lemma insertByIndex_perm (e : N * Index.t) (l : list (N * Index.t)) :
  Permutation (insertByIndex e l) (e :: l).
Proof.
  induction l as [|h l IH]; simpl; [reflexivity|].
  destruct (fst e <=? fst h)%N; [reflexivity|].
  rewrite IH. apply perm_swap.
Qed.

Lemma objectValues_perm (o : JsObject) :
  Permutation (objectValues o) (map snd o).
Proof.
  unfold objectValues.
  induction o as [|[k v] o IH]; simpl; [reflexivity|].
  destruct (arrayIndex k) as [n|]; simpl.
  - rewrite insertByIndex_perm. simpl. now apply perm_skip.
  - rewrite <- Permutation_middle. now apply perm_skip.
Qed.

Lemma In_objectValues (o : JsObject) (d : Index.t) :
  In d (objectValues o) <-> exists k, In (k, d) o.
Proof.
  split.
  - intros H. apply (Permutation_in _ (objectValues_perm o)) in H.
    apply in_map_iff in H. destruct H as [[k d'] [Heq Hin]].
    simpl in Heq. subst. now exists k.
  - intros [k H]. apply (Permutation_in _ (Permutation_sym (objectValues_perm o))).
    apply in_map_iff. now exists (k, d).
Qed.

(** ** The loop of [getTableIndexes] *)

Section Grouping.
Variable tableName : string.

Lemma grouped_nil : grouped tableName [] [].
Proof. split; simpl; try tauto. constructor. Qed.

Lemma rowsOf_app (key : string) (a b : list IndexRow.t) :
  rowsOf key (a ++ b) = (rowsOf key a ++ rowsOf key b)%list.
Proof. unfold rowsOf. apply filter_app. Qed.

Lemma rowsOf_nil_iff (key : string) (rows : list IndexRow.t) :
  rowsOf key rows = [] <-> ~ In key (map IndexRow.Key_name rows).
Proof.
  unfold rowsOf. induction rows as [|r rows IH]; simpl; [tauto|].
  destruct (String.eqb_spec (IndexRow.Key_name r) key) as [->|Hne].
  - split; [discriminate | tauto].
  - rewrite IH. tauto.
Qed.

Lemma descriptorOf_other (seen : list IndexRow.t) (row : IndexRow.t) (k : string) :
  IndexRow.Key_name row <> k ->
  descriptorOf tableName (seen ++ [row]) k = descriptorOf tableName seen k.
Proof.
  intros Hne. unfold descriptorOf. rewrite rowsOf_app.
  assert (Hn : rowsOf k [row] = []).
  { unfold rowsOf. simpl. destruct (String.eqb_spec (IndexRow.Key_name row) k); congruence. }
  rewrite Hn, app_nil_r. reflexivity.
Qed.

Lemma descriptorOf_first (seen : list IndexRow.t) (row : IndexRow.t) :
  ~ In (IndexRow.Key_name row) (map IndexRow.Key_name seen) ->
  descriptorOf tableName (seen ++ [row]) (IndexRow.Key_name row)
  = {| Index.name := IndexRow.Key_name row;
       Index.columns := [IndexRow.Column_name row];
       Index.unique := (IndexRow.Non_unique row =? 0)%Z;
       Index.table := tableName |}.
Proof.
  intros Hnew. apply rowsOf_nil_iff in Hnew.
  unfold descriptorOf. rewrite rowsOf_app, Hnew.
  unfold rowsOf. simpl. now rewrite String.eqb_refl.
Qed.

Lemma descriptorOf_next (seen : list IndexRow.t) (row : IndexRow.t) :
  In (IndexRow.Key_name row) (map IndexRow.Key_name seen) ->
  descriptorOf tableName (seen ++ [row]) (IndexRow.Key_name row)
  = let d := descriptorOf tableName seen (IndexRow.Key_name row) in
    {| Index.name := Index.name d;
       Index.columns := push (Index.columns d) (IndexRow.Column_name row);
       Index.unique := Index.unique d;
       Index.table := Index.table d |}.
Proof.
  intros Hold.
  unfold descriptorOf. cbv zeta. simpl Index.name. simpl Index.columns.
  simpl Index.unique. simpl Index.table.
  rewrite rowsOf_app.
  assert (Hn : rowsOf (IndexRow.Key_name row) [row] = [row]).
  { unfold rowsOf. simpl. now rewrite String.eqb_refl. }
  rewrite Hn, map_app. unfold push. simpl map.
  destruct (rowsOf (IndexRow.Key_name row) seen) as [|f rest] eqn:Hr.
  - apply rowsOf_nil_iff in Hr. contradiction.
  - reflexivity.
Qed.

Lemma indexRow_primary (o : JsObject) (row : IndexRow.t) :
  IndexRow.Key_name row = "PRIMARY" -> indexRow tableName o row = Normal o.
Proof.
  intros Hp. unfold indexRow. rewrite Hp. reflexivity.
Qed.

Lemma indexRow_cases (o : JsObject) (row : IndexRow.t) :
  IndexRow.Key_name row <> "PRIMARY" ->
  indexRow tableName o row =
  match getOwn o (IndexRow.Key_name row) with
  | Some d =>
      Normal (replaceOwn o (IndexRow.Key_name row)
                {| Index.name := Index.name d;
                   Index.columns := push (Index.columns d) (IndexRow.Column_name row);
                   Index.unique := Index.unique d;
                   Index.table := Index.table d |})
  | None =>
      if inherited (IndexRow.Key_name row)
      then Throw (TypeError "Cannot read properties of undefined (reading 'push')")
      else Normal (push o (IndexRow.Key_name row,
                           {| Index.name := IndexRow.Key_name row;
                              Index.columns := [IndexRow.Column_name row];
                              Index.unique := (IndexRow.Non_unique row =? 0)%Z;
                              Index.table := tableName |}))
  end.
Proof.
  intros Hp. unfold indexRow.
  destruct (String.eqb_spec (IndexRow.Key_name row) "PRIMARY") as [|_]; [contradiction|].
  cbn [negb]. unfold notProp, getProp at 2.
  destruct (getOwn o (IndexRow.Key_name row)) as [d|] eqn:Hget.
  - unfold getProp. now rewrite Hget.
  - destruct (inherited (IndexRow.Key_name row)) eqn:Hinh.
    + unfold getProp. now rewrite Hget, Hinh.
    + unfold setProp, getProp. rewrite Hget, Hinh.
      rewrite getOwn_push by assumption. now rewrite replaceOwn_push by assumption.
Qed.

Lemma indexRow_grouped (seen : list IndexRow.t) (o o' : JsObject) (row : IndexRow.t) :
  grouped tableName seen o ->
  indexRow tableName o row = Normal o' ->
  grouped tableName (seen ++ [row]) o'.
Proof.
  intros [Hnd Hown Hall].
  destruct (string_dec (IndexRow.Key_name row) "PRIMARY") as [Hp|Hp].
  - rewrite (indexRow_primary o row Hp). intros [= <-]. split; [assumption | |].
    + intros k d Hin. destruct (Hown k d Hin) as (Hd & Hk & Hi & Hs).
      repeat split; try assumption.
      * rewrite descriptorOf_other; [assumption | congruence].
      * rewrite map_app, in_app_iff. now left.
    + intros r Hr Hrp. apply in_app_iff in Hr. destruct Hr as [Hr|[<-|[]]].
      * now apply Hall.
      * contradiction.
  - rewrite (indexRow_cases o row Hp).
    destruct (getOwn o (IndexRow.Key_name row)) as [d|] eqn:Hget.
    + intros [= <-].
      pose proof (getOwn_Some _ _ Hget) as Hin.
      destruct (Hown _ _ Hin) as (Hd & _ & Hi & Hs).
      assert (Hkey : In (IndexRow.Key_name row) (map fst o)).
      { now apply (in_map fst) in Hin. }
      split.
      * now rewrite replaceOwn_keys.
      * intros k x Hx. apply In_replaceOwn in Hx; [|assumption..].
        destruct Hx as [[-> ->]|[Hne Hx]].
        -- repeat split; try assumption.
           ++ rewrite descriptorOf_next by assumption. cbv zeta. now rewrite <- Hd.
           ++ rewrite map_app, in_app_iff. now left.
        -- destruct (Hown k x Hx) as (Hd' & Hk' & Hi' & Hs').
           repeat split; try assumption.
           ++ rewrite descriptorOf_other; [assumption | congruence].
           ++ rewrite map_app, in_app_iff. now left.
      * intros r Hr Hrp. rewrite replaceOwn_keys.
        apply in_app_iff in Hr. destruct Hr as [Hr|[<-|[]]]; [now apply Hall | assumption].
    + destruct (inherited (IndexRow.Key_name row)) eqn:Hinh; [discriminate|].
      intros [= <-]. unfold push.
      pose proof (proj1 (getOwn_None _ _) Hget) as Hnew.
      assert (Hunseen : ~ In (IndexRow.Key_name row) (map IndexRow.Key_name seen)).
      { intros Hs. apply in_map_iff in Hs. destruct Hs as [r [Hk Hr]].
        apply Hnew. rewrite <- Hk. apply Hall; [assumption | congruence]. }
      split.
      * rewrite map_app. simpl.
        apply NoDup_app; [assumption | repeat constructor; simpl; tauto |].
        intros a Ha [<-|[]]. contradiction.
      * intros k x Hx. apply in_app_iff in Hx. destruct Hx as [Hx|[[= <- <-]|[]]].
        -- destruct (Hown k x Hx) as (Hd' & Hk' & Hi' & Hs').
           repeat split; try assumption.
           ++ rewrite descriptorOf_other; [assumption|].
              intros <-. contradiction.
           ++ rewrite map_app, in_app_iff. now left.
        -- repeat split; try assumption.
           ++ rewrite descriptorOf_first by assumption. reflexivity.
           ++ rewrite map_app, in_app_iff. right. now left.
      * intros r Hr Hrp. rewrite map_app, in_app_iff.
        apply in_app_iff in Hr. destruct Hr as [Hr|[<-|[]]].
        -- left. now apply Hall.
        -- right. now left.
Qed.

Lemma forOf_indexRow_grouped (rows seen : list IndexRow.t) (o o' : JsObject) :
  grouped tableName seen o ->
  forOf (indexRow tableName) rows o = Normal o' ->
  grouped tableName (seen ++ rows) o'.
Proof.
  revert seen o. induction rows as [|row rows IH]; intros seen o Hg; simpl.
  - intros [= <-]. now rewrite app_nil_r.
  - destruct (indexRow tableName o row) as [o1| |] eqn:Hstep; simpl; try discriminate.
    intros Hrest.
    replace (seen ++ row :: rows)%list with ((seen ++ [row]) ++ rows)%list
      by (rewrite <- app_assoc; reflexivity).
    apply (IH _ o1); [|assumption].
    now apply indexRow_grouped with (o := o).
Qed.

(** The callback returns unless the name of the row is one that
    [indexes] inherits. *)
Lemma indexRow_returns (o : JsObject) (row : IndexRow.t) :
  (IndexRow.Key_name row <> "PRIMARY" -> inherited (IndexRow.Key_name row) = false) ->
  exists o', indexRow tableName o row = Normal o'.
Proof.
  intros Hsafe.
  destruct (string_dec (IndexRow.Key_name row) "PRIMARY") as [Hp|Hp].
  - rewrite (indexRow_primary o row Hp). eexists; reflexivity.
  - rewrite (indexRow_cases o row Hp), (Hsafe Hp).
    destruct (getOwn o (IndexRow.Key_name row)); eexists; reflexivity.
Qed.

Lemma forOf_indexRow_returns (rows : list IndexRow.t) (o : JsObject) :
  (forall r, In r rows -> IndexRow.Key_name r <> "PRIMARY" ->
             inherited (IndexRow.Key_name r) = false) ->
  exists o', forOf (indexRow tableName) rows o = Normal o'.
Proof.
  revert o. induction rows as [|row rows IH]; intros o Hsafe; simpl.
  - eexists; reflexivity.
  - destruct (indexRow_returns o row) as [o1 H1].
    + apply Hsafe. now left.
    + rewrite H1. simpl. apply IH. intros r Hr. apply Hsafe. now right.
Qed.

End Grouping.

(** ** The walk over the tables of dev *)

Section Walk.
Variables (devDb mainDb : Connection) (mainTables : list string).

Lemma checkColumn_app (table : string) (mainColumns : list Column.t)
  (a b : Found.t) (c : Column.t) :
  checkColumn table mainColumns (foundApp a b) c
  = foundApp a (checkColumn table mainColumns b c).
Proof.
  unfold checkColumn.
  destruct (find _ mainColumns) as [m|].
  - destruct (0 <? length (compareColumns c m))%nat; [|reflexivity].
    unfold foundApp, push. simpl. now rewrite app_assoc.
  - unfold foundApp, push. simpl. now rewrite app_assoc.
Qed.

Lemma fold_checkColumn_app (table : string) (mainColumns devColumns : list Column.t)
  (a b : Found.t) :
  fold_left (checkColumn table mainColumns) devColumns (foundApp a b)
  = foundApp a (fold_left (checkColumn table mainColumns) devColumns b).
Proof.
  revert b. induction devColumns as [|c cs IH]; intros b; simpl; [reflexivity|].
  now rewrite checkColumn_app, IH.
Qed.

Lemma checkIndex_app (names : list string) (a b : Found.t) (d : Index.t) :
  checkIndex names (foundApp a b) d = foundApp a (checkIndex names b d).
Proof.
  unfold checkIndex. destruct (negb (includes names (Index.name d))); [|reflexivity].
  unfold foundApp, push. simpl. now rewrite app_assoc.
Qed.

Lemma fold_checkIndex_app (names : list string) (devIndexes : list Index.t)
  (a b : Found.t) :
  fold_left (checkIndex names) devIndexes (foundApp a b)
  = foundApp a (fold_left (checkIndex names) devIndexes b).
Proof.
  revert b. induction devIndexes as [|d ds IH]; intros b; simpl; [reflexivity|].
  now rewrite checkIndex_app, IH.
Qed.

Lemma checkTable_app (a b : Found.t) (table : string) :
  checkTable devDb mainDb mainTables (foundApp a b) table
  = (f <- checkTable devDb mainDb mainTables b table ;; Normal (foundApp a f)).
Proof.
  unfold checkTable.
  destruct (negb (includes mainTables table)).
  - simpl. unfold foundApp, push. simpl. now rewrite app_assoc.
  - destruct (getTableColumns devDb table) as [dc| |]; simpl; try reflexivity.
    destruct (getTableColumns mainDb table) as [mc| |]; simpl; try reflexivity.
    destruct (getTableIndexes devDb table) as [di| |]; simpl; try reflexivity.
    destruct (getTableIndexes mainDb table) as [mi| |]; simpl; try reflexivity.
    now rewrite fold_checkColumn_app, fold_checkIndex_app.
Qed.

Lemma checkTable_tableFound (a : Found.t) (table : string) :
  checkTable devDb mainDb mainTables a table
  = (f <- tableFound devDb mainDb mainTables table ;; Normal (foundApp a f)).
Proof.
  unfold tableFound. rewrite <- checkTable_app. now rewrite foundApp_empty_r.
Qed.

Lemma forOf_checkTable_app (tables : list string) (a b : Found.t) :
  forOf (checkTable devDb mainDb mainTables) tables (foundApp a b)
  = (f <- forOf (checkTable devDb mainDb mainTables) tables b ;; Normal (foundApp a f)).
Proof.
  revert b. induction tables as [|t ts IH]; intros b; simpl; [reflexivity|].
  rewrite checkTable_app.
  destruct (checkTable devDb mainDb mainTables b t) as [f| |]; simpl; try reflexivity.
  apply IH.
Qed.

(** The walk over [table :: tables]: what [table] adds, then the rest. *)
Lemma forOf_checkTable_cons (table : string) (tables : list string) :
  forOf (checkTable devDb mainDb mainTables) (table :: tables) Found.empty
  = (f <- tableFound devDb mainDb mainTables table ;;
     g <- forOf (checkTable devDb mainDb mainTables) tables Found.empty ;;
     Normal (foundApp f g)).
Proof.
  simpl. unfold tableFound.
  destruct (checkTable devDb mainDb mainTables Found.empty table) as [f| |];
    simpl; try reflexivity.
  rewrite <- (foundApp_empty_r f) at 1. apply forOf_checkTable_app.
Qed.

(** Membership in any of the four arrays after the walk. *)
Lemma forOf_checkTable_In {X : Type} (proj : Found.t -> list X)
  (Happ : forall a b, proj (foundApp a b) = (proj a ++ proj b)%list)
  (tables : list string) (found : Found.t) :
  forOf (checkTable devDb mainDb mainTables) tables Found.empty = Normal found ->
  forall x, In x (proj found) <->
            (In x (proj Found.empty)
             \/ exists table f, In table tables
                          /\ tableFound devDb mainDb mainTables table = Normal f
                          /\ In x (proj f)).
Proof.
  revert found. induction tables as [|t ts IH]; intros found.
  - simpl. intros [= <-] x. split; [tauto|].
    intros [H|(t & f & [] & _)]. assumption.
  - rewrite forOf_checkTable_cons. intros H.
    apply bind_Normal in H. destruct H as (f & Hf & H).
    apply bind_Normal in H. destruct H as (g & Hg & [= <-]).
    intros x. rewrite Happ, in_app_iff, (IH g Hg x). split.
    + intros [Hx|[Hx|(t' & f' & Ht' & Hf' & Hx)]].
      * right. exists t, f. simpl. tauto.
      * now left.
      * right. exists t', f'. simpl. tauto.
    + intros [Hx|(t' & f' & [<-|Ht'] & Hf' & Hx)].
      * right. now left.
      * left. congruence.
      * right. right. now exists t', f'.
Qed.

(** The walk returns when every table of dev can be checked. *)
Lemma forOf_checkTable_returns (tables : list string) :
  (forall table, In table tables ->
                 exists f, tableFound devDb mainDb mainTables table = Normal f) ->
  exists found,
    forOf (checkTable devDb mainDb mainTables) tables Found.empty = Normal found.
Proof.
  induction tables as [|t ts IH]; intros Hall.
  - eexists; reflexivity.
  - rewrite forOf_checkTable_cons.
    destruct (Hall t) as [f Hf]; [now left|]. rewrite Hf. simpl.
    destruct IH as [g Hg]; [intros t' Ht'; apply Hall; now right|].
    rewrite Hg. simpl. eexists; reflexivity.
Qed.

Lemma fold_checkColumn (table : string) (mainColumns devColumns : list Column.t) :
  fold_left (checkColumn table mainColumns) devColumns Found.empty
  = Found.mk [] (missingColumnsOf table mainColumns devColumns)
      (differentColumnsOf table mainColumns devColumns) [].
Proof.
  induction devColumns as [|c cs IH]; [reflexivity|].
  simpl fold_left.
  rewrite <- (foundApp_empty_r (checkColumn table mainColumns Found.empty c)).
  rewrite fold_checkColumn_app, IH.
  unfold checkColumn, missingColumnsOf, differentColumnsOf, sameName.
  simpl flat_map.
  destruct (find _ mainColumns) as [m|]; [|reflexivity].
  destruct (compareColumns c m); reflexivity.
Qed.

Lemma fold_checkIndex (mainIndexes devIndexes : list Index.t) (a : Found.t) :
  fold_left (checkIndex (map Index.name mainIndexes)) devIndexes a
  = foundApp a (Found.mk [] [] [] (missingIndexesOf mainIndexes devIndexes)).
Proof.
  revert a. induction devIndexes as [|d ds IH]; intros a.
  - simpl. now rewrite foundApp_empty_r.
  - simpl fold_left. rewrite IH.
    unfold checkIndex, missingIndexesOf. simpl filter.
    destruct (negb (includes (map Index.name mainIndexes) (Index.name d))).
    + unfold foundApp, push. simpl. now rewrite !app_nil_r, <- app_assoc.
    + reflexivity.
Qed.

(** The two ways a table of dev is checked. *)
Lemma tableFound_missing (table : string) :
  includes mainTables table = false ->
  tableFound devDb mainDb mainTables table = Normal (Found.mk [table] [] [] []).
Proof. intros H. unfold tableFound, checkTable. now rewrite H. Qed.

Lemma tableFound_present (table : string) :
  includes mainTables table = true ->
  tableFound devDb mainDb mainTables table
  = (devColumns <- getTableColumns devDb table ;;
     mainColumns <- getTableColumns mainDb table ;;
     devIndexes <- getTableIndexes devDb table ;;
     mainIndexes <- getTableIndexes mainDb table ;;
     Normal (Found.mk []
               (missingColumnsOf table mainColumns devColumns)
               (differentColumnsOf table mainColumns devColumns)
               (missingIndexesOf mainIndexes devIndexes))).
Proof.
  intros H. unfold tableFound, checkTable. rewrite H. cbn [negb].
  destruct (getTableColumns devDb table) as [dc| |]; cbn [bind]; try reflexivity.
  destruct (getTableColumns mainDb table) as [mc| |]; cbn [bind]; try reflexivity.
  destruct (getTableIndexes devDb table) as [di| |]; cbn [bind]; try reflexivity.
  destruct (getTableIndexes mainDb table) as [mi| |]; cbn [bind]; try reflexivity.
  rewrite fold_checkIndex, fold_checkColumn. unfold foundApp. simpl. now rewrite !app_nil_r.
Qed.

Lemma forOf_checkTable_missingTables (tables : list string) (found : Found.t) :
  forOf (checkTable devDb mainDb mainTables) tables Found.empty = Normal found ->
  Found.missingTables found
  = filter (fun table => negb (includes mainTables table)) tables.
Proof.
  revert found. induction tables as [|t ts IH]; intros found.
  - simpl. now intros [= <-].
  - rewrite forOf_checkTable_cons. intros H.
    apply bind_Normal in H. destruct H as (f & Hf & H).
    apply bind_Normal in H. destruct H as (g & Hg & [= <-]).
    simpl. rewrite (IH g Hg).
    destruct (includes mainTables t) eqn:Hin.
    + rewrite tableFound_present in Hf by assumption.
      apply bind_Normal in Hf. destruct Hf as (dc & _ & Hf).
      apply bind_Normal in Hf. destruct Hf as (mc & _ & Hf).
      apply bind_Normal in Hf. destruct Hf as (di & _ & Hf).
      apply bind_Normal in Hf. destruct Hf as (mi & _ & [= <-]).
      reflexivity.
    + rewrite tableFound_missing in Hf by assumption.
      injection Hf as <-. reflexivity.
Qed.
End Walk.

(** ** [getTableIndexes] *)

Lemma getTableIndexes_grouped (connection : Connection) (tableName : string)
  (rows : list IndexRow.t) (indexes : list Index.t) :
  showIndexRows connection tableName = Normal rows ->
  getTableIndexes connection tableName = Normal indexes ->
  NoDup (map Index.name indexes)
  /\ forall d, In d indexes <->
               exists r, In r rows /\ IndexRow.Key_name r <> "PRIMARY"
                         /\ d = descriptorOf tableName rows (IndexRow.Key_name r).
Proof.
  intros Hrows. unfold getTableIndexes. rewrite Hrows. cbn [bind].
  intros H. apply bind_Normal in H. destruct H as (o & Ho & [= <-]).
  pose proof (forOf_indexRow_grouped rows (grouped_nil tableName) Ho) as Hg.
  simpl app in Hg. destruct Hg as [Hnd Hown Hall].
  assert (Hnames : map Index.name (map snd o) = map fst o).
  { rewrite map_map. apply map_ext_in. intros [k d] Hin.
    destruct (Hown k d Hin) as (-> & _). reflexivity. }
  split.
  - apply (Permutation_NoDup (l := map Index.name (map snd o))).
    + apply Permutation_map, Permutation_sym, objectValues_perm.
    + now rewrite Hnames.
  - intros d. rewrite In_objectValues. split.
    + intros [k Hin]. destruct (Hown k d Hin) as (Hd & Hk & _ & Hs).
      apply in_map_iff in Hs. destruct Hs as (r & Hr & Hin').
      exists r. rewrite Hr. tauto.
    + intros (r & Hr & Hp & ->).
      pose proof (Hall r Hr Hp) as Hk. apply in_map_iff in Hk.
      destruct Hk as ([k d] & Hfst & Hin). simpl in Hfst. subst k.
      exists (IndexRow.Key_name r).
      now destruct (Hown _ _ Hin) as (<- & _).
Qed.

Lemma getTableIndexes_returns (connection : Connection) (tableName : string)
  (rows : list IndexRow.t) :
  showIndexRows connection tableName = Normal rows ->
  plainNames rows ->
  exists indexes, getTableIndexes connection tableName = Normal indexes.
Proof.
  intros Hrows Hplain. unfold getTableIndexes. rewrite Hrows. cbn [bind].
  destruct (forOf_indexRow_returns tableName rows [] Hplain) as [o Ho].
  rewrite Ho. eexists; reflexivity.
Qed.

Lemma getTableIndexes_table (connection : Connection) (tableName : string)
  (indexes : list Index.t) :
  getTableIndexes connection tableName = Normal indexes ->
  forall d, In d indexes -> Index.table d = tableName.
Proof.
  intros H d Hd. pose proof H as H'. unfold getTableIndexes in H'.
  apply bind_Normal in H'. destruct H' as (rows & Hrows & _).
  destruct (getTableIndexes_grouped _ _ Hrows H) as [_ Hin].
  apply Hin in Hd. destruct Hd as (r & _ & _ & ->). reflexivity.
Qed.

(** The loop stops at the first row whose name [indexes] inherits. *)
Lemma forOf_indexRow_throws (tableName : string) (rows seen : list IndexRow.t)
  (o : JsObject) :
  grouped tableName seen o ->
  (exists r, In r rows /\ IndexRow.Key_name r <> "PRIMARY"
             /\ inherited (IndexRow.Key_name r) = true) ->
  forOf (indexRow tableName) rows o
  = Throw (TypeError "Cannot read properties of undefined (reading 'push')").
Proof.
  revert seen o. induction rows as [|row rows IH]; intros seen o Hg (r & Hr & Hp & Hi).
  - destruct Hr.
  - simpl.
    destruct (string_dec (IndexRow.Key_name row) "PRIMARY") as [Hrow|Hrow].
    + rewrite (indexRow_primary tableName o row Hrow). simpl.
      apply (IH (seen ++ [row])%list).
      * apply indexRow_grouped with (o := o); [assumption|].
        now apply indexRow_primary.
      * destruct Hr as [<-|Hr]; [contradiction|]. now exists r.
    + destruct (indexRow tableName o row) as [o1|e|n] eqn:Hstep.
      * simpl. apply (IH (seen ++ [row])%list).
        -- now apply indexRow_grouped with (o := o).
        -- destruct Hr as [<-|Hr]; [|now exists r].
           exfalso. rewrite (indexRow_cases tableName o row Hrow) in Hstep.
           destruct (getOwn o (IndexRow.Key_name row)) as [d|] eqn:Hget.
           ++ apply getOwn_Some in Hget.
              destruct (grouped_own Hg _ _ Hget) as (_ & _ & Hplain & _).
              congruence.
           ++ rewrite Hi in Hstep. discriminate.
      * rewrite (indexRow_cases tableName o row Hrow) in Hstep.
        destruct (getOwn o (IndexRow.Key_name row)); [discriminate|].
        destruct (inherited (IndexRow.Key_name row)); [|discriminate].
        injection Hstep as <-. reflexivity.
      * rewrite (indexRow_cases tableName o row Hrow) in Hstep.
        destruct (getOwn o (IndexRow.Key_name row)); [discriminate|].
        destruct (inherited (IndexRow.Key_name row)); discriminate.
Qed.

Lemma getTableIndexes_throws (connection : Connection) (tableName : string)
  (rows : list IndexRow.t) :
  showIndexRows connection tableName = Normal rows ->
  (exists r, In r rows /\ IndexRow.Key_name r <> "PRIMARY"
             /\ inherited (IndexRow.Key_name r) = true) ->
  getTableIndexes connection tableName
  = Throw (TypeError "Cannot read properties of undefined (reading 'push')").
Proof.
  intros Hrows Hbad. unfold getTableIndexes. rewrite Hrows. cbn [bind].
  now rewrite (forOf_indexRow_throws rows (grouped_nil tableName) Hbad).
Qed.

(** ** [checkAndReport] *)

Lemma any_false (f : Found.t) :
  Found.any f = false <->
  Found.missingTables f = [] /\ Found.missingColumns f = []
  /\ Found.differentColumns f = [] /\ Found.missingIndexes f = [].
Proof.
  unfold Found.any.
  destruct f as [[|? ?] [|? ?] [|? ?] [|? ?]]; cbn;
    repeat split; intros; repeat match goal with H : _ /\ _ |- _ => destruct H end;
    congruence.
Qed.

(** The result object carries the four arrays of the walk, and
    [isInSync] says whether they are all empty. *)
Lemma checkAndReport_walk (devDb mainDb : Connection) (r : Result.t) :
  Action.checkAndReport devDb mainDb = Normal r ->
  exists found,
    walkTables devDb mainDb = Normal found
    /\ r = Result.mk (negb (Found.any found)) (Found.missingTables found)
             (Found.missingColumns found) (Found.differentColumns found)
             (Found.missingIndexes found).
Proof.
  unfold Action.checkAndReport. intros H.
  apply bind_Normal in H. destruct H as (found & Hw & H).
  exists found. split; [assumption|].
  destruct (Found.any found) eqn:Hany.
  - apply bind_Normal in H. destruct H as (_ & _ & [= <-]). reflexivity.
  - injection H as <-. apply any_false in Hany.
    destruct Hany as (-> & -> & -> & ->). reflexivity.
Qed.

Lemma walkTables_inv (devDb mainDb : Connection) (found : Found.t) :
  walkTables devDb mainDb = Normal found ->
  exists devTables mainTables,
    getTables devDb = Normal devTables
    /\ getTables mainDb = Normal mainTables
    /\ forOf (checkTable devDb mainDb mainTables) devTables Found.empty = Normal found.
Proof.
  unfold walkTables. intros H.
  apply bind_Normal in H. destruct H as (dt & Hd & H).
  apply bind_Normal in H. destruct H as (mt & Hm & H).
  now exists dt, mt.
Qed.

(** ** Supersets *)

Lemma sameCatalog_supersetOf (A B : Connection) :
  sameCatalog A B -> supersetOf A B.
Proof.
  intros (tables & HA & HB & Hall).
  exists tables, tables. repeat split; try assumption; [apply incl_refl|].
  intros table Ht.
  destruct (Hall table Ht) as (cs & ra & rb & H1 & H2 & H3 & H4 & H5).
  exists cs, cs, ra, rb. repeat split; try assumption; [apply incl_refl|].
  intros d. apply H5.
Qed.

(** Where no index name is one [indexes] inherits, the readers return
    what the catalogs hold. *)
Lemma supersetOf_answersBelow (A B : Connection) :
  supersetOf A B -> plainIndexNames A B -> answersBelow A B.
Proof.
  intros (ta & tb & HA & HB & Hincl & Hall) Hplain.
  exists ta, tb. repeat split; try assumption.
  intros table Ht.
  destruct (Hall table Ht) as (ca & cb & ra & rb & H1 & H2 & Hc & H3 & H4 & Hi).
  destruct (getTableIndexes_returns A table H3) as [ia Hia].
  { apply (Hplain ta table); [assumption|assumption|now left]. }
  destruct (getTableIndexes_returns B table H4) as [ib Hib].
  { apply (Hplain ta table); [assumption|assumption|now right]. }
  exists ca, cb, ia, ib. unfold getTableColumns. rewrite H1, H2.
  repeat split; try assumption; try reflexivity.
  intros d Hd.
  apply (proj2 (getTableIndexes_grouped B table H4 Hib)).
  apply Hi. apply (proj2 (getTableIndexes_grouped A table H3 Hia)). exact Hd.
Qed.

Lemma find_sameName_unique (columns : list Column.t) (c : Column.t) :
  NoDup (map Column.name columns) -> In c columns ->
  find (sameName c) columns = Some c.
Proof.
  induction columns as [|m ms IH]; simpl; [tauto|].
  intros Hnd Hin. inversion Hnd as [|? ? Hnot Hnd']; subst.
  unfold sameName at 1.
  destruct (String.eqb_spec (Column.name m) (Column.name c)) as [Heq|Hne].
  - destruct Hin as [->|Hin]; [reflexivity|].
    exfalso. apply Hnot. rewrite Heq. now apply in_map.
  - destruct Hin as [->|Hin]; [congruence|]. now apply IH.
Qed.

Lemma missingColumnsOf_incl (table : string) (mainColumns devColumns : list Column.t) :
  NoDup (map Column.name mainColumns) -> incl devColumns mainColumns ->
  missingColumnsOf table mainColumns devColumns = [].
Proof.
  intros Hnd. unfold missingColumnsOf.
  induction devColumns as [|c cs IH]; intros Hincl; [reflexivity|].
  simpl. rewrite find_sameName_unique; [| assumption | apply Hincl; now left].
  apply IH. intros x Hx. apply Hincl. now right.
Qed.

Lemma differentColumnsOf_incl (table : string) (mainColumns devColumns : list Column.t) :
  NoDup (map Column.name mainColumns) -> incl devColumns mainColumns ->
  differentColumnsOf table mainColumns devColumns = [].
Proof.
  intros Hnd. unfold differentColumnsOf.
  induction devColumns as [|c cs IH]; intros Hincl; [reflexivity|].
  simpl. rewrite find_sameName_unique; [| assumption | apply Hincl; now left].
  rewrite compareColumns_same. apply IH. intros x Hx. apply Hincl. now right.
Qed.

Lemma missingIndexesOf_incl (mainIndexes devIndexes : list Index.t) :
  incl devIndexes mainIndexes -> missingIndexesOf mainIndexes devIndexes = [].
Proof.
  unfold missingIndexesOf.
  induction devIndexes as [|d ds IH]; intros Hincl; [reflexivity|].
  simpl.
  assert (Hin : includes (map Index.name mainIndexes) (Index.name d) = true).
  { apply includes_In, in_map, Hincl. now left. }
  rewrite Hin. apply IH. intros x Hx. apply Hincl. now right.
Qed.

(** Against a target that has everything, the walk finds nothing. *)
Lemma walkTables_superset (A B : Connection) :
  answersBelow A B -> uniqueColumnNames B ->
  walkTables A B = Normal Found.empty.
Proof.
  intros (ta & tb & HA & HB & Hincl & Hall) Huniq.
  unfold walkTables. rewrite HA, HB. cbn [bind].
  clear HA. induction ta as [|t ts IH]; [reflexivity|].
  rewrite forOf_checkTable_cons.
  assert (Ht : includes tb t = true) by (apply includes_In, Hincl; now left).
  rewrite (tableFound_present A B tb t Ht).
  destruct (Hall t) as (ca & cb & ia & ib & H1 & H2 & Hc & H3 & H4 & Hi); [now left|].
  rewrite H1, H2, H3, H4. cbn [bind].
  rewrite missingColumnsOf_incl, differentColumnsOf_incl, missingIndexesOf_incl;
    try assumption; try (eapply Huniq; eassumption).
  rewrite IH.
  - reflexivity.
  - intros x Hx. apply Hincl. now right.
  - intros x Hx. apply Hall. now right.
Qed.

Lemma checkAndReport_superset (A B : Connection) :
  answersBelow A B -> uniqueColumnNames B ->
  Action.checkAndReport A B = Normal (Result.mk true [] [] [] [])
  /\ Legacy.checkAndReport A B = Normal true.
Proof.
  intros Hs Hu. unfold Action.checkAndReport, Legacy.checkAndReport.
  rewrite (walkTables_superset Hs Hu). split; reflexivity.
Qed.

(** ** Membership in what one table adds *)

Lemma In_missingColumnsOf (table : string) (mainColumns devColumns : list Column.t)
  (m : MissingColumn.t) :
  In m (missingColumnsOf table mainColumns devColumns) <->
  exists c, In c devColumns /\ find (sameName c) mainColumns = None
            /\ m = MissingColumn.mk table c.
Proof.
  unfold missingColumnsOf. rewrite in_flat_map. split.
  - intros (c & Hc & Hm). exists c.
    destruct (find (sameName c) mainColumns); simpl in Hm; [tauto|].
    destruct Hm as [<-|[]]. tauto.
  - intros (c & Hc & Hf & ->). exists c. rewrite Hf. simpl. tauto.
Qed.

Lemma In_differentColumnsOf (table : string) (mainColumns devColumns : list Column.t)
  (x : DifferentColumn.t) :
  In x (differentColumnsOf table mainColumns devColumns) <->
  exists c m, In c devColumns /\ find (sameName c) mainColumns = Some m
              /\ compareColumns c m <> []
              /\ x = DifferentColumn.mk table c (compareColumns c m).
Proof.
  unfold differentColumnsOf. rewrite in_flat_map. split.
  - intros (c & Hc & Hx).
    destruct (find (sameName c) mainColumns) as [m|] eqn:Hf; simpl in Hx; [|tauto].
    exists c, m. destruct (compareColumns c m) eqn:Hcmp; simpl in Hx; [tauto|].
    destruct Hx as [<-|[]]. repeat split; try assumption. discriminate.
  - intros (c & m & Hc & Hf & Hne & ->). exists c. rewrite Hf.
    destruct (compareColumns c m); [congruence|]. simpl. tauto.
Qed.

Lemma In_missingIndexesOf (mainIndexes devIndexes : list Index.t) (d : Index.t) :
  In d (missingIndexesOf mainIndexes devIndexes) <->
  In d devIndexes /\ ~ In (Index.name d) (map Index.name mainIndexes).
Proof.
  unfold missingIndexesOf. rewrite filter_In, negb_true_iff, includes_not_In.
  reflexivity.
Qed.

Section WalkFacts.
Variables (devDb mainDb : Connection) (mainTables : list string).

Lemma tableFound_checked (table : string) (f : Found.t) :
  tableFound devDb mainDb mainTables table = Normal f ->
  checked devDb mainDb mainTables table f.
Proof.
  destruct (includes mainTables table) eqn:Hin.
  - rewrite tableFound_present by assumption. intros H.
    apply bind_Normal in H. destruct H as (dc & Hdc & H).
    apply bind_Normal in H. destruct H as (mc & Hmc & H).
    apply bind_Normal in H. destruct H as (di & Hdi & H).
    apply bind_Normal in H. destruct H as (mi & Hmi & [= <-]).
    apply includes_In in Hin.
    now apply checked_present with dc mc di mi.
  - rewrite tableFound_missing by assumption. intros [= <-].
    apply includes_not_In in Hin. now apply checked_missing.
Qed.

Lemma forOf_checkTable_each (tables : list string) (found : Found.t) :
  forOf (checkTable devDb mainDb mainTables) tables Found.empty = Normal found ->
  forall table, In table tables ->
                exists f, tableFound devDb mainDb mainTables table = Normal f.
Proof.
  revert found. induction tables as [|t ts IH]; intros found; [simpl; tauto|].
  rewrite forOf_checkTable_cons. intros H.
  apply bind_Normal in H. destruct H as (f & Hf & H).
  apply bind_Normal in H. destruct H as (g & Hg & _).
  intros table [<-|Hin]; [now exists f | now apply (IH g)].
Qed.
End WalkFacts.

Lemma forOf_ext {A S : Type} (f g : S -> A -> completion S) (l : list A) (s : S) :
  (forall s x, f s x = g s x) -> forOf f l s = forOf g l s.
Proof.
  intros H. revert s. induction l as [|x xs IH]; intros s; simpl; [reflexivity|].
  rewrite H. destruct (g s x); simpl; auto.
Qed.

Lemma checkTable_index_names (devDb main main' : Connection)
  (mainTables : list string) (acc : Found.t) (table : string) :
  (forall t, getTableColumns main' t = getTableColumns main t) ->
  (forall t, indexNames main' t = indexNames main t) ->
  checkTable devDb main' mainTables acc table
  = checkTable devDb main mainTables acc table.
Proof.
  intros Hc Hi. unfold checkTable.
  destruct (negb (includes mainTables table)); [reflexivity|].
  rewrite Hc.
  destruct (getTableColumns devDb table) as [dc| |]; cbn [bind]; try reflexivity.
  destruct (getTableColumns main table) as [mc| |]; cbn [bind]; try reflexivity.
  destruct (getTableIndexes devDb table) as [di| |]; cbn [bind]; try reflexivity.
  specialize (Hi table). unfold indexNames in Hi.
  destruct (getTableIndexes main' table) as [mi'| |],
      (getTableIndexes main table) as [mi| |]; cbn [bind] in *; congruence.
Qed.

Lemma checkAndReport_index_names (devDb main main' : Connection) :
  getTables main' = getTables main ->
  (forall t, getTableColumns main' t = getTableColumns main t) ->
  (forall t, indexNames main' t = indexNames main t) ->
  Action.checkAndReport devDb main' = Action.checkAndReport devDb main.
Proof.
  intros Ht Hc Hi. unfold Action.checkAndReport, walkTables. rewrite Ht.
  destruct (getTables devDb) as [dt| |]; cbn [bind]; try reflexivity.
  destruct (getTables main) as [mt| |]; cbn [bind]; try reflexivity.
  rewrite (forOf_ext (checkTable devDb main' mt) (checkTable devDb main mt)).
  - reflexivity.
  - intros s x. now apply checkTable_index_names.
Qed.

Lemma count_occ_filter_NoDup (p : string -> bool) (l : list string) (x : string) :
  NoDup l -> In x l -> p x = true ->
  count_occ string_dec (filter p l) x = 1%nat.
Proof.
  intros Hnd Hin Hp.
  apply NoDup_count_occ'; [now apply NoDup_filter | now apply filter_In].
Qed.

Lemma serve_uniqueColumnNames (tables : list string)
  (columns : string -> list Column.t) (indexRows : string -> list IndexRow.t) :
  (forall t, NoDup (map Column.name (columns t))) ->
  uniqueColumnNames (serve tables columns indexRows).
Proof.
  intros H table cs. unfold getTableColumns, serve. simpl. intros [= <-]. apply H.
Qed.

Ltac distinct_names :=
  repeat constructor; simpl; intuition discriminate.

Lemma mainSample_unique : uniqueColumnNames mainSample.
Proof.
  apply serve_uniqueColumnNames. intros t.
  destruct (t =? "users"); distinct_names.
Defined.

Lemma foundApp_missingTables (a b : Found.t) :
  Found.missingTables (foundApp a b) = (Found.missingTables a ++ Found.missingTables b)%list.
Proof. reflexivity. Qed.

Lemma foundApp_missingColumns (a b : Found.t) :
  Found.missingColumns (foundApp a b) = (Found.missingColumns a ++ Found.missingColumns b)%list.
Proof. reflexivity. Qed.

Lemma foundApp_differentColumns (a b : Found.t) :
  Found.differentColumns (foundApp a b)
  = (Found.differentColumns a ++ Found.differentColumns b)%list.
Proof. reflexivity. Qed.

Lemma foundApp_missingIndexes (a b : Found.t) :
  Found.missingIndexes (foundApp a b) = (Found.missingIndexes a ++ Found.missingIndexes b)%list.
Proof. reflexivity. Qed.

(** An entry of one of the four arrays comes from one checked table. *)
Lemma walk_In {X : Type} (proj : Found.t -> list X)
  (Happ : forall a b, proj (foundApp a b) = (proj a ++ proj b)%list)
  (Hempty : proj Found.empty = [])
  (devDb mainDb : Connection) (mainTables devTables : list string) (found : Found.t) :
  forOf (checkTable devDb mainDb mainTables) devTables Found.empty = Normal found ->
  forall x, In x (proj found) <->
            exists table f, In table devTables
                            /\ checked devDb mainDb mainTables table f
                            /\ tableFound devDb mainDb mainTables table = Normal f
                            /\ In x (proj f).
Proof.
  intros H x. rewrite (forOf_checkTable_In _ _ _ proj Happ _ H x), Hempty. split.
  - intros [[]|(t & f & Ht & Hf & Hx)]. exists t, f.
    repeat split; try assumption. now apply tableFound_checked.
  - intros (t & f & Ht & _ & Hf & Hx). right. now exists t, f.
Qed.

Lemma walk_fromReference (A B : Connection) (r : Result.t) :
  Action.checkAndReport A B = Normal r -> fromReference A r.
Proof.
  intros H. apply checkAndReport_walk in H. destruct H as (found & Hw & ->).
  apply walkTables_inv in Hw. destruct Hw as (ta & tb & HA & HB & Hw).
  unfold fromReference. simpl. repeat split.
  - intros t Ht.
    apply (proj1 (@walk_In _ Found.missingTables foundApp_missingTables eq_refl _ _ _ _ _ Hw _)) in Ht.
    destruct Ht as (t' & f & Ht' & Hc & _ & Hin). exists ta. split; [assumption|].
    destruct Hc as [_ ->| ? ? ? ? _ _ _ _ _ ->]; simpl in Hin; [|tauto].
    destruct Hin as [<-|[]]. assumption.
  - intros m Hm.
    apply (proj1 (@walk_In _ Found.missingColumns foundApp_missingColumns eq_refl _ _ _ _ _ Hw _)) in Hm.
    destruct Hm as (t' & f & Ht' & Hc & _ & Hin).
    destruct Hc as [_ ->| dc mc di mi _ Hdc _ _ _ ->]; simpl in Hin; [tauto|].
    apply In_missingColumnsOf in Hin. destruct Hin as (c & Hc & _ & ->).
    exists ta, dc. simpl. tauto.
  - intros x Hx.
    apply (proj1 (@walk_In _ Found.differentColumns foundApp_differentColumns eq_refl _ _ _ _ _ Hw _)) in Hx.
    destruct Hx as (t' & f & Ht' & Hc & _ & Hin).
    destruct Hc as [_ ->| dc mc di mi _ Hdc _ _ _ ->]; simpl in Hin; [tauto|].
    apply In_differentColumnsOf in Hin. destruct Hin as (c & m & Hc & _ & _ & ->).
    exists ta, dc. simpl. tauto.
  - intros d Hd.
    apply (proj1 (@walk_In _ Found.missingIndexes foundApp_missingIndexes eq_refl _ _ _ _ _ Hw _)) in Hd.
    destruct Hd as (t' & f & Ht' & Hc & _ & Hin).
    destruct Hc as [_ ->| dc mc di mi _ _ _ Hdi _ ->]; simpl in Hin; [tauto|].
    apply In_missingIndexesOf in Hin. destruct Hin as (Hin & _).
    rewrite (getTableIndexes_table _ _ Hdi d Hin).
    exists ta, di. tauto.
Qed.

Lemma mainSuper_unique : uniqueColumnNames mainSuper.
Proof.
  apply serve_uniqueColumnNames. intros t.
  destruct (t =? "users"); [distinct_names|].
  destruct (t =? "orders"); [distinct_names|].
  destruct (t =? "audit"); distinct_names.
Defined.

(** Rows given one by one: none of their names is inherited. *)
Ltac plain_rows :=
  let r := fresh "r" in
  let Hr := fresh "Hr" in
  intros r Hr _; simpl in Hr;
  repeat (destruct Hr as [<-|Hr]; [reflexivity|]); destruct Hr.

(** Rows given one by one: each index of the first is one of the second. *)
Ltac index_among :=
  let d := fresh "d" in
  let r := fresh "r" in
  let Hr := fresh "Hr" in
  let Hp := fresh "Hp" in
  intros d (r & Hr & Hp & ->); simpl in Hr;
  repeat (destruct Hr as [<-|Hr];
          [ first [ now (exfalso; apply Hp)
                  | match goal with
                    | |- hasIndex _ _ (descriptorOf _ _ (IndexRow.Key_name ?row)) =>
                        exists row; split; [simpl; tauto|];
                        split; [assumption|reflexivity]
                    end ] |]);
  destruct Hr.

Lemma devSample_below_mainSuper : supersetOf devSample mainSuper.
Proof.
  exists ["orders"; "users"], ["audit"; "orders"; "users"].
  split; [reflexivity|]. split; [reflexivity|]. split.
  - intros t [<-|[<-|[]]]; simpl; tauto.
  - intros t [<-|[<-|[]]].
    + exists [col "id" "int(11)" "NO" None ""; col "total" "int" "YES" None ""],
        [col "id" "int(11)" "NO" None ""; col "total" "int" "YES" None ""],
        [IndexRow.mk "ix_total" "total" 1], [IndexRow.mk "ix_total" "total" 1].
      split; [reflexivity|]. split; [reflexivity|]. split; [apply incl_refl|].
      split; [reflexivity|]. split; [reflexivity|]. index_among.
    + exists usersColumns, (usersColumns ++ [col "age" "int" "YES" None ""])%list,
        usersIndexRows, (usersIndexRows ++ [IndexRow.mk "ix_age" "age" 1])%list.
      split; [reflexivity|]. split; [reflexivity|].
      split; [intros x Hx; simpl in *; tauto|].
      split; [reflexivity|]. split; [reflexivity|]. index_among.
Defined.

Lemma devSample_mainSuper_plain : plainIndexNames devSample mainSuper.
Proof.
  intros tables table rows Ht Hin Hrows.
  vm_compute in Ht. injection Ht as <-.
  destruct Hin as [<-|[<-|[]]]; destruct Hrows as [Hrows|Hrows];
    vm_compute in Hrows; injection Hrows as <-; plain_rows.
Defined.

Lemma mainSample_same : sameCatalog mainSample mainSample.
Proof.
  exists ["users"]. split; [reflexivity|]. split; [reflexivity|].
  intros table [<-|[]].
  exists usersColumns, usersIndexRows, usersIndexRows.
  repeat split; try reflexivity; intros H; exact H.
Defined.

Lemma mainSample_plain : plainIndexNames mainSample mainSample.
Proof.
  intros tables table rows Ht Hin Hrows.
  vm_compute in Ht. injection Ht as <-.
  destruct Hin as [<-|[]]; destruct Hrows as [Hrows|Hrows];
    vm_compute in Hrows; injection Hrows as <-; plain_rows.
Defined.

(** The catalogs with an index named [constructor]. *)
Lemma eventsCatalog_same : sameCatalog eventsCatalog eventsCatalog.
Proof.
  exists ["events"]. split; [reflexivity|]. split; [reflexivity|].
  intros table [<-|[]].
  exists eventsColumns, eventsIndexRows, eventsIndexRows.
  repeat split; try reflexivity; intros H; exact H.
Qed.

Lemma eventsCatalog_unique : uniqueColumnNames eventsCatalog.
Proof.
  apply serve_uniqueColumnNames. intros t.
  destruct (t =? "events"); distinct_names.
Qed.

Lemma eventsSuper_unique : uniqueColumnNames eventsSuper.
Proof.
  apply serve_uniqueColumnNames. intros t.
  destruct (t =? "events"); [distinct_names|].
  destruct (t =? "audit"); distinct_names.
Qed.

Lemma eventsCatalog_below_eventsSuper : supersetOf eventsCatalog eventsSuper.
Proof.
  exists ["events"], ["audit"; "events"].
  split; [reflexivity|]. split; [reflexivity|]. split.
  - intros t [<-|[]]; simpl; tauto.
  - intros t [<-|[]].
    exists eventsColumns, (eventsColumns ++ [col "payload" "text" "YES" None ""])%list,
      eventsIndexRows, eventsIndexRows.
    split; [reflexivity|]. split; [reflexivity|].
    split; [intros x Hx; simpl in *; tauto|].
    split; [reflexivity|]. split; [reflexivity|]. intros d H. exact H.
Qed.

Lemma walk_table (devDb mainDb : Connection) (mainTables devTables : list string)
  (found : Found.t) (table : string) :
  forOf (checkTable devDb mainDb mainTables) devTables Found.empty = Normal found ->
  In table devTables ->
  exists f, tableFound devDb mainDb mainTables table = Normal f
            /\ checked devDb mainDb mainTables table f
            /\ incl (Found.missingColumns f) (Found.missingColumns found)
            /\ incl (Found.differentColumns f) (Found.differentColumns found)
            /\ incl (Found.missingIndexes f) (Found.missingIndexes found).
Proof.
  intros Hw Hin.
  destruct (forOf_checkTable_each _ _ _ _ Hw table Hin) as [f Hf].
  exists f. split; [assumption|]. split; [now apply tableFound_checked|].
  repeat split; intros x Hx.
  - apply (proj2 (@walk_In _ Found.missingColumns foundApp_missingColumns eq_refl
                    _ _ _ _ _ Hw _)).
    exists table, f. repeat split; try assumption. now apply tableFound_checked.
  - apply (proj2 (@walk_In _ Found.differentColumns foundApp_differentColumns eq_refl
                    _ _ _ _ _ Hw _)).
    exists table, f. repeat split; try assumption. now apply tableFound_checked.
  - apply (proj2 (@walk_In _ Found.missingIndexes foundApp_missingIndexes eq_refl
                    _ _ _ _ _ Hw _)).
    exists table, f. repeat split; try assumption. now apply tableFound_checked.
Qed.

(** ** The process *)

Lemma connect_cases (env : Env) (w : world) :
  (exists e, createMainConnection env = Throw e /\ connect env w = (Throw e, w))
  \/ (exists n, createMainConnection env = Exit n /\ connect env w = (Exit n, w))
  \/ (exists m w', createMainConnection env = Normal m
                   /\ this_mainDb w' = Some m /\ this_devDb w' = this_devDb w
                   /\ trace w' = push (trace w) (Connected MainDb)
                   /\ ((exists e, createDevConnection env = Throw e
                                  /\ connect env w = (Throw e, w'))
                       \/ (exists n, createDevConnection env = Exit n
                                     /\ connect env w = (Exit n, w'))
                       \/ (exists d, createDevConnection env = Normal d
                                     /\ connect env w
                                        = (Normal tt,
                                           {| this_mainDb := Some m;
                                              this_devDb := Some d;
                                              trace := push (trace w') (Connected DevDb) |})))).
Proof.
  unfold connect, bindP, await, record.
  destruct (createMainConnection env) as [m|e|n].
  - right. right. exists m.
    exists {| this_mainDb := Some m; this_devDb := this_devDb w;
              trace := push (trace w) (Connected MainDb) |}.
    split; [reflexivity|]. split; [reflexivity|]. split; [reflexivity|].
    split; [reflexivity|]. cbn.
    destruct (createDevConnection env) as [d|e|n].
    + right. right. exists d. split; reflexivity.
    + left. exists e. split; reflexivity.
    + right. left. exists n. split; reflexivity.
  - left. exists e. split; reflexivity.
  - right. left. exists n. split; reflexivity.
Qed.

(** In [src/index.js] every way through [try] and [catch] ends in
    [process.exit]: the [finally] block is never reached. *)
Lemma legacy_main_exit (env : Env) (w : world) :
  exists n w', Legacy.main env w = (Exit n, w')
               /\ exists es, trace w' = (trace w ++ es)%list
                             /\ forall s, ~ In (Ended s) es.
Proof.
  unfold Legacy.main, tryCatchFinally, tryCatch.
  unfold bindP at 1.
  destruct (connect_cases env w)
    as [(e & _ & ->)|[(n & _ & ->)|(m & w' & _ & Hm & Hd & Ht & H)]].
  - unfold processExit. exists 1%Z, w. split; [reflexivity|].
    exists []. rewrite app_nil_r. split; [reflexivity | simpl; tauto].
  - exists n, w. split; [reflexivity|].
    exists []. rewrite app_nil_r. split; [reflexivity | simpl; tauto].
  - destruct H as [(e & _ & ->)|[(n & _ & ->)|(d & _ & ->)]].
    + unfold processExit. exists 1%Z, w'. split; [reflexivity|].
      exists [Connected MainDb]. split; [exact Ht|].
      intros s [H|[]]. discriminate.
    + exists n, w'. split; [reflexivity|].
      exists [Connected MainDb]. split; [exact Ht|].
      intros s [H|[]]. discriminate.
    + unfold Legacy.this_checkAndReport, bindP, theConnection, await, processExit.
      cbn [this_devDb this_mainDb].
      assert (Hes : exists es,
                 trace {| this_mainDb := Some m; this_devDb := Some d;
                          trace := push (trace w') (Connected DevDb) |}
                 = (trace w ++ es)%list /\ forall s, ~ In (Ended s) es).
      { exists [Connected MainDb; Connected DevDb]. split.
        - cbn [trace]. rewrite Ht. unfold push. now rewrite <- app_assoc.
        - intros s [H|[H|[]]]; discriminate. }
      destruct (Legacy.checkAndReport d m) as [b|e|n]; eexists; eexists;
        (split; [reflexivity | exact Hes]).
Qed.

Lemma legacy_main_never_ends (env : Env) (s : side) :
  ~ In (Ended s) (trace (snd (Legacy.main env initial))).
Proof.
  destruct (legacy_main_exit env initial) as (n & w' & -> & es & Ht & Hes).
  simpl. rewrite Ht. simpl. apply Hes.
Qed.


(** In [src/unnamed/part_000] the run that completes does release both
    connections before it exits. *)
Lemma action_main_releases_on_success (env : Env) (m d : Connection) (r : Result.t) :
  createMainConnection env = Normal m ->
  createDevConnection env = Normal d ->
  Action.checkAndReport d m = Normal r ->
  GITHUB_ACTIONS env = false ->
  Action.main env initial
  = (Exit 0%Z,
     {| this_mainDb := Some m; this_devDb := Some d;
        trace := [Connected MainDb; Connected DevDb; Ended MainDb; Ended DevDb] |}).
Proof.
  intros Hm Hd Hr Hg.
  unfold Action.main, tryCatch, connect, Action.this_checkAndReport, disconnect,
    bindP, await, record, retP, theConnection, processExit, initial.
  rewrite Hm, Hd, Hg. cbn. rewrite Hr. reflexivity.
Qed.

(** [src/unnamed/part_000], whenever dev refuses the connection: exit 1
    with the connection to main still open. *)
Lemma action_main_dev_refused (env : Env) (m : Connection) (e : error) :
  createMainConnection env = Normal m ->
  createDevConnection env = Throw e ->
  GITHUB_ACTIONS env = false ->
  Action.main env initial
  = (Exit 1%Z,
     {| this_mainDb := Some m; this_devDb := None; trace := [Connected MainDb] |}).
Proof.
  intros Hm Hd Hg.
  unfold Action.main, tryCatch, connect, bindP, await, record, retP, processExit,
    initial.
  rewrite Hm, Hd, Hg. reflexivity.
Qed.

(** ... and whenever the comparison throws: exit 1 with both open. *)
Lemma action_main_check_throws (env : Env) (m d : Connection) (e : error) :
  createMainConnection env = Normal m ->
  createDevConnection env = Normal d ->
  Action.checkAndReport d m = Throw e ->
  GITHUB_ACTIONS env = false ->
  Action.main env initial
  = (Exit 1%Z,
     {| this_mainDb := Some m; this_devDb := Some d;
        trace := [Connected MainDb; Connected DevDb] |}).
Proof.
  intros Hm Hd Hr Hg.
  unfold Action.main, tryCatch, connect, Action.this_checkAndReport,
    bindP, await, record, retP, theConnection, processExit, initial.
  rewrite Hm, Hd, Hg. cbn. rewrite Hr. reflexivity.
Qed.

(** ** Sample runs *)

Example drift_run : Action.checkAndReport devDrift mainDrift = Normal driftResult.
Proof. reflexivity. Qed.

Example drift_run_legacy : Legacy.checkAndReport devDrift mainDrift = Normal false.
Proof. reflexivity. Qed.

(** dev has [orders] and [users], main has [users]: the one missing table is
    reported, and [users] is in order. *)
Example orders_missing :
  Action.checkAndReport devSample mainSample
  = Normal (Result.mk false ["orders"] [] [] []).
Proof. reflexivity. Qed.

(** Indexes whose names are array indices come first, by number. *)
Example indexes_numbered_first :
  getTableIndexes
    (serve ["t"] (fun _ => [])
       (fun _ => [ IndexRow.mk "b" "x" 0; IndexRow.mk "10" "y" 1;
                   IndexRow.mk "b" "z" 0; IndexRow.mk "2" "y" 1 ])) "t"
  = Normal [ Index.mk "2" ["y"] false "t"; Index.mk "10" ["y"] false "t";
             Index.mk "b" ["x"; "z"] true "t" ].
Proof. reflexivity. Qed.

(** An index named like a member of [Object.prototype] stops the reader. *)
Example index_named_toString :
  getTableIndexes
    (serve ["t"] (fun _ => []) (fun _ => [IndexRow.mk "toString" "x" 0])) "t"
  = Throw (TypeError "Cannot read properties of undefined (reading 'push')").
Proof. reflexivity. Qed.

Example create_index_command :
  generateCreateIndexCommand (Index.mk "ix_a" ["x"; "y"] true "t")
  = "CREATE UNIQUE INDEX `ix_a` ON `t` (`x`, `y`);".
Proof. reflexivity. Qed.

(** * The properties of the specification *)

(** C1. The result's [isInSync] is true exactly when the four difference
    lists are empty, in [src/unnamed/part_000] on the result object and in
    [src/index.js] on the boolean against the four arrays of the walk.
    When both sides hold the same tables, columns and indexes (column names
    unique within a table, as the data model has them) and no index of
    these tables is named like a member of [Object.prototype], the run
    returns [isInSync = true] with four empty lists.  Two equal catalogs
    with an index named [constructor] are not found in sync:
    [getTableIndexes] looks the name up in [indexes], finds the member the
    object inherits, and both variants throw a [TypeError]. *)
Theorem C1_in_sync_iff_empty (devDb mainDb : Connection) :
  (forall r, Action.checkAndReport devDb mainDb = Normal r ->
             (Result.isInSync r = true <-> allEmpty r))
  /\ (forall b, Legacy.checkAndReport devDb mainDb = Normal b ->
        exists found,
          walkTables devDb mainDb = Normal found
          /\ (b = true <->
              Found.missingTables found = [] /\ Found.missingColumns found = []
              /\ Found.differentColumns found = [] /\ Found.missingIndexes found = []))
  /\ (sameCatalog devDb mainDb -> uniqueColumnNames mainDb ->
      plainIndexNames devDb mainDb ->
      Action.checkAndReport devDb mainDb = Normal (Result.mk true [] [] [] [])
      /\ Legacy.checkAndReport devDb mainDb = Normal true)
  /\ (sameCatalog eventsCatalog eventsCatalog
      /\ uniqueColumnNames eventsCatalog
      /\ Action.checkAndReport eventsCatalog eventsCatalog
         = Throw (TypeError "Cannot read properties of undefined (reading 'push')")
      /\ Legacy.checkAndReport eventsCatalog eventsCatalog
         = Throw (TypeError "Cannot read properties of undefined (reading 'push')")).
Proof.
  split; [|split; [|split]].
  - intros r H. apply checkAndReport_walk in H. destruct H as (found & _ & ->).
    unfold allEmpty. simpl. rewrite negb_true_iff. apply any_false.
  - intros b H. unfold Legacy.checkAndReport in H.
    apply bind_Normal in H. destruct H as (found & Hw & H).
    exists found. split; [assumption|]. rewrite <- any_false.
    destruct (Found.any found).
    + apply bind_Normal in H. destruct H as (_ & _ & [= <-]). split; discriminate.
    + injection H as <-. tauto.
  - intros Hs Hu Hp. apply checkAndReport_superset; [|assumption].
    apply supersetOf_answersBelow; [|assumption].
    now apply sameCatalog_supersetOf.
  - split; [exact eventsCatalog_same|]. split; [exact eventsCatalog_unique|].
    split; reflexivity.
Qed.

Lemma C1_in_sync_iff_empty_witness :
  (Result.isInSync driftResult = true <-> allEmpty driftResult)
  /\ (exists found,
         walkTables devDrift mainDrift = Normal found
         /\ (false = true <->
             Found.missingTables found = [] /\ Found.missingColumns found = []
             /\ Found.differentColumns found = [] /\ Found.missingIndexes found = []))
  /\ Action.checkAndReport mainSample mainSample = Normal (Result.mk true [] [] [] [])
  /\ Legacy.checkAndReport mainSample mainSample = Normal true.
Proof.
  split; [|split].
  - apply (proj1 (C1_in_sync_iff_empty devDrift mainDrift)). reflexivity.
  - apply (proj1 (proj2 (C1_in_sync_iff_empty devDrift mainDrift))). reflexivity.
  - apply (proj1 (proj2 (proj2 (C1_in_sync_iff_empty mainSample mainSample)))).
    + exact mainSample_same.
    + exact mainSample_unique.
    + exact mainSample_plain.
Defined.

(** C2. The diff goes from reference to target only.  When the target
    holds every table, column and index of the reference, identically, and
    maybe more, and no index of the reference's tables is named like a
    member of [Object.prototype], the run is in sync with four empty lists;
    and whatever a run reports is an element of the reference, so nothing
    that only the target has appears in any list.  A reference with an
    index named [constructor] is not found in sync against a target that
    holds all of it and more: [getTableIndexes] finds the member [indexes]
    inherits under that name and both variants throw a [TypeError]. *)
Theorem C2_one_directional (A B : Connection) :
  (supersetOf A B -> uniqueColumnNames B -> plainIndexNames A B ->
   Action.checkAndReport A B = Normal (Result.mk true [] [] [] [])
   /\ Legacy.checkAndReport A B = Normal true)
  /\ (forall r, Action.checkAndReport A B = Normal r -> fromReference A r)
  /\ (supersetOf eventsCatalog eventsSuper
      /\ uniqueColumnNames eventsSuper
      /\ Action.checkAndReport eventsCatalog eventsSuper
         = Throw (TypeError "Cannot read properties of undefined (reading 'push')")
      /\ Legacy.checkAndReport eventsCatalog eventsSuper
         = Throw (TypeError "Cannot read properties of undefined (reading 'push')")).
Proof.
  split; [|split].
  - intros Hs Hu Hp. apply checkAndReport_superset; [|assumption].
    now apply supersetOf_answersBelow.
  - intros r. apply walk_fromReference.
  - split; [exact eventsCatalog_below_eventsSuper|].
    split; [exact eventsSuper_unique|]. split; reflexivity.
Qed.

Lemma C2_one_directional_witness :
  (Action.checkAndReport devSample mainSuper = Normal (Result.mk true [] [] [] [])
   /\ Legacy.checkAndReport devSample mainSuper = Normal true)
  /\ fromReference devDrift driftResult.
Proof.
  split.
  - apply (proj1 (C2_one_directional devSample mainSuper)).
    + exact devSample_below_mainSuper.
    + exact mainSuper_unique.
    + exact devSample_mainSuper_plain.
  - apply (proj1 (proj2 (C2_one_directional devDrift mainDrift))). reflexivity.
Defined.

(** C3. A table of the reference that the target's table list lacks is
    entered once in [missingTables], and no column or index of it is
    entered anywhere; the tables both sides have are checked all the same:
    each of their missing columns, differing columns and missing indexes is
    in the result. *)
Theorem C3_missing_table_not_descended (devDb mainDb : Connection) (r : Result.t)
  (devTables mainTables : list string) (table : string) :
  Action.checkAndReport devDb mainDb = Normal r ->
  getTables devDb = Normal devTables ->
  getTables mainDb = Normal mainTables ->
  NoDup devTables ->
  In table devTables ->
  ~ In table mainTables ->
  count_occ string_dec (Result.missingTables r) table = 1%nat
  /\ (forall m, In m (Result.missingColumns r) -> MissingColumn.table m <> table)
  /\ (forall x, In x (Result.differentColumns r) -> DifferentColumn.table x <> table)
  /\ (forall d, In d (Result.missingIndexes r) -> Index.table d <> table)
  /\ (forall other, In other devTables -> In other mainTables ->
                    driftReported devDb mainDb r other).
Proof.
  intros H HA HB Hnd Hin Hnot.
  apply checkAndReport_walk in H. destruct H as (found & Hw & ->).
  apply walkTables_inv in Hw. destruct Hw as (ta & tb & HA' & HB' & Hw).
  rewrite HA in HA'. rewrite HB in HB'. injection HA' as <-. injection HB' as <-.
  simpl. repeat split.
  - rewrite (forOf_checkTable_missingTables _ _ _ _ Hw).
    apply count_occ_filter_NoDup; try assumption.
    apply negb_true_iff. now apply includes_not_In.
  - intros m Hm.
    apply (proj1 (@walk_In _ Found.missingColumns foundApp_missingColumns eq_refl
                    _ _ _ _ _ Hw _)) in Hm.
    destruct Hm as (t' & f & Ht' & Hc & _ & Hx).
    destruct Hc as [_ ->| dc mc di mi Hpresent _ _ _ _ ->]; simpl in Hx; [tauto|].
    apply In_missingColumnsOf in Hx. destruct Hx as (c & _ & _ & ->).
    simpl. intros ->. contradiction.
  - intros x Hm.
    apply (proj1 (@walk_In _ Found.differentColumns foundApp_differentColumns eq_refl
                    _ _ _ _ _ Hw _)) in Hm.
    destruct Hm as (t' & f & Ht' & Hc & _ & Hx).
    destruct Hc as [_ ->| dc mc di mi Hpresent _ _ _ _ ->]; simpl in Hx; [tauto|].
    apply In_differentColumnsOf in Hx. destruct Hx as (c & m & _ & _ & _ & ->).
    simpl. intros ->. contradiction.
  - intros d Hm.
    apply (proj1 (@walk_In _ Found.missingIndexes foundApp_missingIndexes eq_refl
                    _ _ _ _ _ Hw _)) in Hm.
    destruct Hm as (t' & f & Ht' & Hc & _ & Hx).
    destruct Hc as [_ ->| dc mc di mi Hpresent _ _ Hdi _ ->]; simpl in Hx; [tauto|].
    apply In_missingIndexesOf in Hx. destruct Hx as (Hd & _).
    rewrite (getTableIndexes_table _ _ Hdi d Hd). intros ->. contradiction.
  - intros other Hother Hboth.
    destruct (@walk_table _ _ _ _ _ other Hw Hother) as (f & _ & Hc & Hmc & Hdc & Hmi).
    destruct Hc as [Habsent _| dc mc di mi _ Hdc' Hmc' Hdi' Hmi' ->];
      [contradiction|].
    exists dc, mc, di, mi. simpl in *. repeat split; try assumption.
    + intros c Hc Hf. apply Hmc, In_missingColumnsOf. now exists c.
    + intros c m Hc Hf Hne. apply Hdc, In_differentColumnsOf. now exists c, m.
    + intros d Hd Hn. apply Hmi, In_missingIndexesOf. tauto.
Qed.

Lemma C3_missing_table_not_descended_witness :
  count_occ string_dec (Result.missingTables driftResult) "orders" = 1%nat
  /\ (forall m, In m (Result.missingColumns driftResult) ->
                MissingColumn.table m <> "orders")
  /\ (forall x, In x (Result.differentColumns driftResult) ->
                DifferentColumn.table x <> "orders")
  /\ (forall d, In d (Result.missingIndexes driftResult) -> Index.table d <> "orders")
  /\ (forall other, In other ["orders"; "users"] -> In other ["users"] ->
                    driftReported devDrift mainDrift driftResult other).
Proof.
  apply (@C3_missing_table_not_descended devDrift mainDrift driftResult
           ["orders"; "users"] ["users"] "orders").
  - reflexivity.
  - reflexivity.
  - reflexivity.
  - repeat constructor; simpl; intuition discriminate.
  - simpl. tauto.
  - simpl. intuition discriminate.
Defined.

(** C4. The comparator looks at type, nullable, default and extra in this
    order and writes at most one note for each, so at most four notes in
    that order; for a reference column of type int(11) and a target column
    of type int(10) that agree otherwise it returns the one note that has
    int(10) before int(11). *)
Theorem C4_compare_fixed_order :
  (forall dev main : Column.t,
      compareColumns dev main = compare_spec dev main
      /\ (length (compareColumns dev main) <= 4)%nat)
  /\ (forall name name' keyType keyType' l l' p p' s s',
         compareColumns
           (Column.mk name "int(11)" "NO" None "" keyType l p s)
           (Column.mk name' "int(10)" "NO" None "" keyType' l' p' s')
         = ["type: 'int(10)' → 'int(11)'"])
  /\ (exists before between after,
         "type: 'int(10)' → 'int(11)'"
         = before ++ "int(10)" ++ between ++ "int(11)" ++ after).
Proof.
  split; [|split].
  - intros dev main. split; [apply compareColumns_spec|].
    rewrite compareColumns_spec. unfold compare_spec.
    rewrite !length_app.
    repeat match goal with
           | |- context [length (note ?b ?t)] =>
               let H := fresh in
               pose proof (note_length b t) as H;
               generalize dependent (length (note b t)); intros
           end.
    lia.
  - reflexivity.
  - exists "type: '", "' → '", "'". reflexivity.
Qed.



(** C6. Missing indexes are found by name alone: an index of a table both
    sides have is in [missingIndexes] exactly when no index of the target's
    table has its name; an index of the same name in the target keeps it out
    of the list whatever its columns and uniqueness; and the whole result
    stays the same when the target's indexes change in anything but their
    names. *)
Theorem C6_missing_index_by_name (devDb mainDb : Connection) (r : Result.t)
  (devTables mainTables : list string) (table : string)
  (devIndexes mainIndexes : list Index.t) (devIndex : Index.t) :
  Action.checkAndReport devDb mainDb = Normal r ->
  getTables devDb = Normal devTables ->
  getTables mainDb = Normal mainTables ->
  In table devTables ->
  In table mainTables ->
  getTableIndexes devDb table = Normal devIndexes ->
  getTableIndexes mainDb table = Normal mainIndexes ->
  In devIndex devIndexes ->
  (In devIndex (Result.missingIndexes r)
   <-> ~ In (Index.name devIndex) (map Index.name mainIndexes))
  /\ (forall mainIndex, In mainIndex mainIndexes ->
                        Index.name mainIndex = Index.name devIndex ->
                        ~ In devIndex (Result.missingIndexes r))
  /\ (forall other,
         getTables other = getTables mainDb ->
         (forall t, getTableColumns other t = getTableColumns mainDb t) ->
         (forall t, indexNames other t = indexNames mainDb t) ->
         Action.checkAndReport devDb other = Normal r).
Proof.
  intros H HA HB Hdev Hmain Hdi Hmi Hin.
  assert (Hiff : In devIndex (Result.missingIndexes r)
                 <-> ~ In (Index.name devIndex) (map Index.name mainIndexes)).
  { pose proof H as H'.
    apply checkAndReport_walk in H'. destruct H' as (found & Hw & ->).
    apply walkTables_inv in Hw. destruct Hw as (ta & tb & HA' & HB' & Hw).
    rewrite HA in HA'. rewrite HB in HB'. injection HA' as <-. injection HB' as <-.
    simpl. split.
    - intros Hm.
      apply (proj1 (@walk_In _ Found.missingIndexes foundApp_missingIndexes eq_refl
                      _ _ _ _ _ Hw _)) in Hm.
      destruct Hm as (t' & f & Ht' & Hc & _ & Hx).
      destruct Hc as [_ ->| dc mc di mi _ _ _ Hdi' Hmi' ->]; simpl in Hx; [tauto|].
      apply In_missingIndexesOf in Hx. destruct Hx as (Hd & Hn).
      assert (t' = table).
      { rewrite <- (getTableIndexes_table _ _ Hdi' devIndex Hd).
        apply (getTableIndexes_table _ _ Hdi devIndex Hin). }
      subst t'. rewrite Hmi in Hmi'. now injection Hmi' as <-.
    - intros Hn.
      destruct (@walk_table _ _ _ _ _ table Hw Hdev) as (f & _ & Hc & _ & _ & Hincl).
      destruct Hc as [Habsent _| dc mc di mi _ _ _ Hdi' Hmi' ->]; [contradiction|].
      rewrite Hdi in Hdi'. rewrite Hmi in Hmi'.
      injection Hdi' as <-. injection Hmi' as <-.
      apply Hincl. simpl. apply In_missingIndexesOf. tauto. }
  split; [exact Hiff|]. split.
  - intros mainIndex Hm Hname Hrep. apply Hiff in Hrep. apply Hrep.
    rewrite <- Hname. now apply in_map.
  - intros other Ht Hc Hi. rewrite <- H. now apply checkAndReport_index_names.
Qed.

Lemma C6_missing_index_by_name_witness :
  (In (Index.mk "ix_email" ["email"] true "users") (Result.missingIndexes driftResult)
   <-> ~ In "ix_email" ["ix_email"])
  /\ (forall mainIndex,
         In mainIndex [Index.mk "ix_email" ["id"; "email"] false "users"] ->
         Index.name mainIndex = "ix_email" ->
         ~ In (Index.mk "ix_email" ["email"] true "users")
              (Result.missingIndexes driftResult))
  /\ (forall other,
         getTables other = getTables mainDrift ->
         (forall t, getTableColumns other t = getTableColumns mainDrift t) ->
         (forall t, indexNames other t = indexNames mainDrift t) ->
         Action.checkAndReport devDrift other = Normal driftResult).
Proof.
  apply (@C6_missing_index_by_name devDrift mainDrift driftResult
           ["orders"; "users"] ["users"] "users"
           [Index.mk "ix_email" ["email"] true "users";
            Index.mk "ix_age" ["age"] false "users"]
           [Index.mk "ix_email" ["id"; "email"] false "users"]
           (Index.mk "ix_email" ["email"] true "users")).
  - reflexivity.
  - reflexivity.
  - reflexivity.
  - simpl. tauto.
  - simpl. tauto.
  - reflexivity.
  - reflexivity.
  - simpl. tauto.
Defined.

(** C7. The statement for a missing column is ALTER TABLE, the table, ADD
    COLUMN, the name and the type, then NOT NULL exactly when nullable is
    'NO', DEFAULT and the value exactly when the default is not null, the
    extra string exactly when it is not empty, and a semicolon; for column
    age, int, not nullable, default 0, no extra, on table users it is
    ALTER TABLE `users` ADD COLUMN `age` int NOT NULL DEFAULT 0; *)
Theorem C7_add_column :
  (forall (tableName : string) (c : Column.t),
      generateAlterColumnCommand tableName c
      = ("ALTER TABLE `" ++ tableName ++ "` ADD COLUMN `" ++ Column.name c ++ "` "
           ++ Column.type c) ++ columnClauses c ++ ";")
  /\ (forall keyType l p s,
         generateAlterColumnCommand "users"
           (Column.mk "age" "int" "NO" (Some "0") "" keyType l p s)
         = "ALTER TABLE `users` ADD COLUMN `age` int NOT NULL DEFAULT 0;").
Proof. split; [apply generateAlterColumnCommand_clauses | reflexivity]. Qed.

(** C8. A null default and the literal string NULL compare as equal: two
    columns that agree on type, nullable and extra, one with no default and
    the other with the default 'NULL', differ in nothing, whichever of the
    two is the reference. *)
Theorem C8_null_default (a b : Column.t) :
  Column.type a = Column.type b ->
  Column.nullable a = Column.nullable b ->
  Column.extra a = Column.extra b ->
  Column.defaultValue a = None ->
  Column.defaultValue b = Some "NULL" ->
  compareColumns a b = [] /\ compareColumns b a = [].
Proof.
  intros Ht Hn He Ha Hb.
  rewrite !compareColumns_spec. unfold compare_spec.
  rewrite Ht, Hn, He, Ha, Hb. unfold normalized.
  now rewrite !String.eqb_refl.
Qed.

Lemma C8_null_default_witness :
  compareColumns (col "note" "text" "YES" None "") (col "note" "text" "YES" (Some "NULL") "")
  = []
  /\ compareColumns (col "note" "text" "YES" (Some "NULL") "") (col "note" "text" "YES" None "")
     = [].
Proof.
  apply (@C8_null_default (col "note" "text" "YES" None "")
           (col "note" "text" "YES" (Some "NULL") "")); reflexivity.
Defined.

(** C9, evaluated where it fails.  [src/index.js] never ends a connection:
    [process.exit] is called inside [try] and [catch], before the [finally]
    block that holds [disconnect]; so a run over two equal catalogs exits
    with 0 and both connections open.  [src/unnamed/part_000] calls
    [disconnect] on the way to [process.exit(0)] only: when the dev server
    refuses the connection, or a query fails, it exits with 1 and leaves
    what it opened open. *)
Theorem C9_connections_left_open :
  (forall (env : Env) (s : side),
      ~ In (Ended s) (trace (snd (Legacy.main env initial))))
  /\ Legacy.main envInSync initial
     = (Exit 0%Z,
        {| this_mainDb := Some mainSample; this_devDb := Some mainSample;
           trace := [Connected MainDb; Connected DevDb] |})
  /\ Action.main envDevDown initial
     = (Exit 1%Z,
        {| this_mainDb := Some mainSample; this_devDb := None;
           trace := [Connected MainDb] |})
  /\ Action.main envQueryFails initial
     = (Exit 1%Z,
        {| this_mainDb := Some mainSample; this_devDb := Some devVanishing;
           trace := [Connected MainDb; Connected DevDb] |})
  /\ ~ releasedAll (snd (Legacy.main envInSync initial))
  /\ ~ releasedAll (snd (Action.main envDevDown initial))
  /\ ~ releasedAll (snd (Action.main envQueryFails initial)).
Proof.
  split; [exact legacy_main_never_ends|].
  split; [reflexivity|]. split; [reflexivity|]. split; [reflexivity|].
  assert (Hopen : forall w, In (Connected MainDb) (trace w) ->
                            ~ In (Ended MainDb) (trace w) -> ~ releasedAll w).
  { intros w Hc He Hr. apply He, Hr, Hc. }
  repeat split; apply Hopen; simpl; intuition discriminate.
Qed.

(** C10. A column whose default is the empty string still gets its DEFAULT
    clause, from both emitters, with nothing between the keyword and what
    follows; when extra is empty too, the statement ends in ' DEFAULT ;'. *)
Theorem C10_empty_default (tableName : string) (c : Column.t) :
  Column.defaultValue c = Some "" ->
  (exists head,
      generateAlterColumnCommand tableName c
      = head ++ " DEFAULT " ++ extraClause c ++ ";")
  /\ (exists head,
         generateModifyColumnCommand tableName c
         = head ++ " DEFAULT " ++ extraClause c ++ ";")
  /\ (Column.extra c = "" ->
      (exists head, generateAlterColumnCommand tableName c = head ++ " DEFAULT ;")
      /\ (exists head, generateModifyColumnCommand tableName c = head ++ " DEFAULT ;")).
Proof.
  intros Hd.
  rewrite generateAlterColumnCommand_clauses, generateModifyColumnCommand_clauses.
  assert (Hc : defaultClause c = " DEFAULT ").
  { unfold defaultClause. now rewrite Hd. }
  unfold columnClauses. rewrite Hc.
  assert (Happ : forall h : string,
             h ++ (notNullClause c ++ " DEFAULT " ++ extraClause c) ++ ";"
             = (h ++ notNullClause c) ++ " DEFAULT " ++ extraClause c ++ ";").
  { intros h. now rewrite !append_assoc. }
  rewrite !Happ.
  split; [eexists; reflexivity|].
  split; [eexists; reflexivity|].
  intros He. unfold extraClause. rewrite He.
  destruct (string_dec "" "") as [_|n]; [|congruence].
  split; eexists; reflexivity.
Qed.

Lemma C10_empty_default_witness :
  (exists head,
      generateAlterColumnCommand "users" (col "nick" "varchar(32)" "NO" (Some "") "")
      = head ++ " DEFAULT ;")
  /\ (exists head,
         generateModifyColumnCommand "users" (col "nick" "varchar(32)" "NO" (Some "") "")
         = head ++ " DEFAULT ;").
Proof.
  apply (proj2 (proj2 (@C10_empty_default "users"
                         (col "nick" "varchar(32)" "NO" (Some "") "") eq_refl))).
  reflexivity.
Defined.

(** * Further properties of the code *)

Lemma bind_assoc {A B C : Type} (c : completion A) (f : A -> completion B)
  (g : B -> completion C) :
  bind (bind c f) g = bind c (fun a => bind (f a) g).
Proof. now destruct c. Qed.

(** [src/index.js] answers with the [isInSync] of what
    [src/unnamed/part_000] answers. *)
Lemma legacy_checkAndReport_as_action (devDb mainDb : Connection) :
  Legacy.checkAndReport devDb mainDb
  = (r <- Action.checkAndReport devDb mainDb ;; Normal (Result.isInSync r)).
Proof.
  unfold Legacy.checkAndReport, Action.checkAndReport.
  destruct (walkTables devDb mainDb) as [found| |]; cbn [bind]; try reflexivity.
  destruct (Found.any found); [|reflexivity].
  destruct (fixCommands devDb found); reflexivity.
Qed.

(** X1. The two variants of [checkAndReport] agree: on the same two
    catalogs [src/index.js] returns the [isInSync] of the result that
    [src/unnamed/part_000] returns, and throws what it throws. *)
Theorem checkAndReport_variants_agree (devDb mainDb : Connection) :
  Legacy.checkAndReport devDb mainDb
  = (r <- Action.checkAndReport devDb mainDb ;; Normal (Result.isInSync r)).
Proof.
  unfold Legacy.checkAndReport, Action.checkAndReport.
  destruct (walkTables devDb mainDb) as [found|e|code]; cbn [bind].
  - destruct (Found.any found); [|reflexivity].
    now destruct (fixCommands devDb found).
  - reflexivity.
  - reflexivity.
Qed.

(** The commands can be printed when the statement of every missing table
    can be fetched. *)
Lemma forOf_creates_returns (devDb : Connection) (tables : list string)
  (out : list string) :
  (exists creates,
      forOf (fun (out : list string) (table : string) =>
               createStatement <- getCreateTableStatement devDb table ;;
               Normal (push out (createStatement ++ ";")))
            tables out = Normal creates)
  <-> (forall table, In table tables ->
                     exists s, getCreateTableStatement devDb table = Normal s).
Proof.
  revert out. induction tables as [|t ts IH]; intros out; simpl.
  - split; [tauto | intros _; eexists; reflexivity].
  - split.
    + intros [creates H].
      destruct (getCreateTableStatement devDb t) as [s| |] eqn:Hs;
        cbn [bind] in H; try discriminate.
      intros table [<-|Hin]; [now exists s|].
      apply (proj1 (IH (push out (s ++ ";")))); [now exists creates | assumption].
    + intros Hall. destruct (Hall t) as [s Hs]; [now left|].
      rewrite Hs. cbn [bind]. apply IH. intros table Hin. apply Hall. now right.
Qed.

Lemma fixCommands_returns (devDb : Connection) (found : Found.t) :
  (exists commands, fixCommands devDb found = Normal commands)
  <-> (forall table, In table (Found.missingTables found) ->
                     exists s, getCreateTableStatement devDb table = Normal s).
Proof.
  rewrite <- (forOf_creates_returns devDb (Found.missingTables found) []).
  unfold fixCommands. split.
  - intros [commands H]. apply bind_Normal in H. destruct H as (creates & Hc & _).
    now exists creates.
  - intros [creates Hc]. rewrite Hc. cbn [bind]. eexists; reflexivity.
Qed.

Lemma getCreateTableStatement_Normal (connection : Connection) (tableName s : string) :
  getCreateTableStatement connection tableName = Normal s
  <-> exists row rest, showCreateRows connection tableName = Normal (row :: rest)
                       /\ s = CreateRow.Create_Table row.
Proof.
  unfold getCreateTableStatement. split.
  - intros H. apply bind_Normal in H. destruct H as (rows & Hr & H).
    destruct rows as [|row rest]; [discriminate|]. injection H as <-.
    now exists row, rest.
  - intros (row & rest & Hr & ->). now rewrite Hr.
Qed.

(** X2. Once the walk over the tables has returned, [checkAndReport]
    returns, in both variants, when [SHOW CREATE TABLE] on dev gives a row
    for every missing table; a missing table for which it gives none (or
    fails) costs both variants their result. *)
Theorem checkAndReport_needs_create_statements (devDb mainDb : Connection)
  (found : Found.t) :
  walkTables devDb mainDb = Normal found ->
  ((forall table, In table (Found.missingTables found) ->
      exists row rest, showCreateRows devDb table = Normal (row :: rest))
   -> Action.checkAndReport devDb mainDb = Normal (resultOf found)
      /\ Legacy.checkAndReport devDb mainDb = Normal (negb (Found.any found)))
  /\ (forall table, In table (Found.missingTables found) ->
        (forall row rest, showCreateRows devDb table <> Normal (row :: rest)) ->
        (forall r, Action.checkAndReport devDb mainDb <> Normal r)
        /\ (forall b, Legacy.checkAndReport devDb mainDb <> Normal b)).
Proof.
  intros Hw. split.
  - intros Hall.
    assert (Hfix : exists commands, fixCommands devDb found = Normal commands).
    { apply fixCommands_returns. intros table Hin.
      destruct (Hall table Hin) as (row & rest & Hr).
      exists (CreateRow.Create_Table row).
      apply getCreateTableStatement_Normal. now exists row, rest. }
    destruct Hfix as [commands Hfix].
    assert (HA : Action.checkAndReport devDb mainDb = Normal (resultOf found)).
    { unfold Action.checkAndReport, resultOf. rewrite Hw. cbn [bind].
      destruct (Found.any found) eqn:Hany.
      - now rewrite Hfix.
      - apply any_false in Hany. destruct Hany as (-> & -> & -> & ->). reflexivity. }
    split; [exact HA|].
    rewrite legacy_checkAndReport_as_action, HA. reflexivity.
  - intros table Hin Hnone.
    assert (HA : forall r, Action.checkAndReport devDb mainDb <> Normal r).
    { intros r H. unfold Action.checkAndReport in H. rewrite Hw in H. cbn [bind] in H.
      destruct (Found.any found) eqn:Hany.
      - apply bind_Normal in H. destruct H as (commands & Hfix & _).
        assert (Hex : exists commands, fixCommands devDb found = Normal commands)
          by now exists commands.
        apply fixCommands_returns with (table := table) in Hex; [|assumption].
        destruct Hex as [s Hs]. apply getCreateTableStatement_Normal in Hs.
        destruct Hs as (row & rest & Hr & _). now apply (Hnone row rest).
      - apply any_false in Hany. destruct Hany as (Hmt & _).
        rewrite Hmt in Hin. destruct Hin. }
    split; [exact HA|].
    intros b H. rewrite legacy_checkAndReport_as_action in H.
    apply bind_Normal in H. destruct H as (r & Hr & _). now apply (HA r).
Qed.


(** X3. With both connections made and outside a GitHub Actions run:
    when the check returns, [src/unnamed/part_000] exits with 0 whatever
    the result and [src/index.js] with 0 or 1 as the result is in sync or
    not; when the check throws, both exit with 1. *)
Theorem main_exit_codes (env : Env) (m d : Connection) :
  createMainConnection env = Normal m ->
  createDevConnection env = Normal d ->
  GITHUB_ACTIONS env = false ->
  (forall r, Action.checkAndReport d m = Normal r ->
             fst (Action.main env initial) = Exit 0%Z
             /\ fst (Legacy.main env initial)
                = Exit (if Result.isInSync r then 0 else 1)%Z)
  /\ (forall e, Action.checkAndReport d m = Throw e ->
                fst (Action.main env initial) = Exit 1%Z
                /\ fst (Legacy.main env initial) = Exit 1%Z).
Proof.
  intros Hm Hd Hg. split.
  - intros r Hr. split.
    + now rewrite (action_main_releases_on_success env Hm Hd Hr Hg).
    + unfold Legacy.main, tryCatchFinally, tryCatch, connect,
        Legacy.this_checkAndReport, bindP, await, record, retP, theConnection,
        processExit, initial.
      rewrite Hm, Hd. cbn.
      rewrite legacy_checkAndReport_as_action, Hr. cbn.
      now destruct (Result.isInSync r).
  - intros e He. split.
    + now rewrite (action_main_check_throws env Hm Hd He Hg).
    + unfold Legacy.main, tryCatchFinally, tryCatch, connect,
        Legacy.this_checkAndReport, bindP, await, record, retP, theConnection,
        processExit, initial.
      rewrite Hm, Hd. cbn.
      rewrite legacy_checkAndReport_as_action, He. reflexivity.
Qed.

Lemma main_exit_codes_witness :
  (fst (Action.main envDrift initial) = Exit 0%Z
   /\ fst (Legacy.main envDrift initial) = Exit 1%Z)
  /\ (fst (Action.main envQueryFails initial) = Exit 1%Z
      /\ fst (Legacy.main envQueryFails initial) = Exit 1%Z).
Proof.
  split.
  - apply (proj1 (@main_exit_codes envDrift mainDrift devDrift
                    eq_refl eq_refl eq_refl) driftResult).
    reflexivity.
  - apply (proj2 (@main_exit_codes envQueryFails mainSample devVanishing
                    eq_refl eq_refl eq_refl)
             (QueryError "Table 'users' doesn't exist")).
    reflexivity.
Defined.

(** X4. A refused connection, whichever server refuses, ends
    [src/index.js] with code 1 in every environment, and
    [src/unnamed/part_000] with code 1 where [GITHUB_ACTIONS] is unset
    (where it is set, the [catch] block first posts a comment, which this
    property does not speak of). *)
Theorem main_exit_code_refused (env : Env) (e : error) :
  createMainConnection env = Throw e
  \/ (exists m, createMainConnection env = Normal m)
     /\ createDevConnection env = Throw e ->
  fst (Legacy.main env initial) = Exit 1%Z
  /\ (GITHUB_ACTIONS env = false -> fst (Action.main env initial) = Exit 1%Z).
Proof.
  intros [Hm|[[m Hm] Hd]]; split; try intros Hg;
    unfold Action.main, Legacy.main, tryCatchFinally, tryCatch, connect,
      bindP, await, record, retP, processExit, initial;
    rewrite ?Hm, ?Hd, ?Hg; reflexivity.
Qed.

Lemma main_exit_code_refused_witness :
  fst (Legacy.main envDevDown initial) = Exit 1%Z
  /\ fst (Action.main envDevDown initial) = Exit 1%Z.
Proof.
  destruct (@main_exit_code_refused envDevDown (ConnectionError "connect ECONNREFUSED"))
    as [Hl Ha].
  - right. split; [now exists mainSample | reflexivity].
  - split; [exact Hl | apply Ha; reflexivity].
Defined.

(** X5. [disconnect] run after [connect] ends every connection that
    [connect] opened, the main one first, whether [connect] returned or
    threw; on a checker that never connected it does nothing. *)
Theorem disconnect_releases_what_connect_opened (env : Env) :
  releasedAll (snd (disconnect (snd (connect env initial))))
  /\ trace (snd (disconnect (snd (connect env initial))))
     = match createMainConnection env with
       | Normal _ =>
           match createDevConnection env with
           | Normal _ => [Connected MainDb; Connected DevDb; Ended MainDb; Ended DevDb]
           | _ => [Connected MainDb; Ended MainDb]
           end
       | _ => []
       end
  /\ disconnect initial = (Normal tt, initial).
Proof.
  unfold releasedAll, connect, disconnect, bindP, await, record, retP, initial.
  destruct (createMainConnection env) as [m|e|n];
    [destruct (createDevConnection env) as [d|e|n]| |]; cbn.
  all: split; [intros [|]; intuition discriminate|].
  all: split; reflexivity.
Qed.


Lemma forOf_checkTable_Forall2 (devDb mainDb : Connection)
  (mainTables tables : list string) (found : Found.t) :
  forOf (checkTable devDb mainDb mainTables) tables Found.empty = Normal found
  <-> exists fs,
      Forall2 (fun table f => tableFound devDb mainDb mainTables table = Normal f)
        tables fs
      /\ found = foundConcat fs.
Proof.
  revert found. induction tables as [|t ts IH]; intros found.
  - simpl. split.
    + intros [= <-]. exists []. split; [constructor | reflexivity].
    + intros (fs & Hfs & ->). inversion Hfs. reflexivity.
  - rewrite forOf_checkTable_cons. split.
    + intros H. apply bind_Normal in H. destruct H as (f & Hf & H).
      apply bind_Normal in H. destruct H as (g & Hg & [= <-]).
      apply IH in Hg. destruct Hg as (fs & Hfs & ->).
      exists (f :: fs). split; [now constructor | reflexivity].
    + intros (fs & Hfs & ->). inversion Hfs as [|? f ? fs' Hf Hrest]; subst.
      rewrite Hf. cbn [bind].
      rewrite (proj2 (IH (foundConcat fs'))) by now exists fs'.
      reflexivity.
Qed.

(** X6. The four arrays follow the listing of dev: [missingTables] is
    the listing of dev without the tables main lists, in that order, and
    each of the other three arrays is the concatenation, in that order, of
    what the single tables contribute. *)
Theorem walk_in_listing_order (devDb mainDb : Connection)
  (devTables mainTables : list string) (found : Found.t) :
  getTables devDb = Normal devTables ->
  getTables mainDb = Normal mainTables ->
  walkTables devDb mainDb = Normal found ->
  Found.missingTables found
  = filter (fun table => negb (includes mainTables table)) devTables
  /\ exists fs,
      Forall2 (fun table f => checked devDb mainDb mainTables table f) devTables fs
      /\ Found.missingColumns found = concat (map Found.missingColumns fs)
      /\ Found.differentColumns found = concat (map Found.differentColumns fs)
      /\ Found.missingIndexes found = concat (map Found.missingIndexes fs).
Proof.
  intros HA HB Hw. unfold walkTables in Hw. rewrite HA, HB in Hw. cbn [bind] in Hw.
  split; [now apply forOf_checkTable_missingTables with devDb mainDb|].
  apply forOf_checkTable_Forall2 in Hw. destruct Hw as (fs & Hfs & ->).
  exists fs. split.
  - clear HA. induction Hfs as [|t f ts fs' Hf _ IH]; constructor; [|assumption].
    now apply tableFound_checked.
  - clear. induction fs as [|f fs IH]; [repeat split|].
    destruct IH as (H1 & H2 & H3). simpl. now rewrite H1, H2, H3.
Qed.

Lemma walk_in_listing_order_witness :
  Found.missingTables
    (Found.mk ["orders"] (Result.missingColumns driftResult)
       (Result.differentColumns driftResult) (Result.missingIndexes driftResult))
  = filter (fun table => negb (includes ["users"] table)) ["orders"; "users"]
  /\ exists fs,
      Forall2 (fun table f => checked devDrift mainDrift ["users"] table f)
        ["orders"; "users"] fs
      /\ Result.missingColumns driftResult = concat (map Found.missingColumns fs)
      /\ Result.differentColumns driftResult = concat (map Found.differentColumns fs)
      /\ Result.missingIndexes driftResult = concat (map Found.missingIndexes fs).
Proof.
  apply (@walk_in_listing_order devDrift mainDrift ["orders"; "users"] ["users"]
           (Found.mk ["orders"] (Result.missingColumns driftResult)
              (Result.differentColumns driftResult)
              (Result.missingIndexes driftResult))); reflexivity.
Defined.

(** ** Which statements a run issues *)

Lemma forOf_ext_in {A S : Type} (f g : S -> A -> completion S) (l : list A) (s : S) :
  (forall s x, In x l -> f s x = g s x) -> forOf f l s = forOf g l s.
Proof.
  revert s. induction l as [|x xs IH]; intros s H; simpl; [reflexivity|].
  rewrite H by now left. destruct (g s x); simpl; try reflexivity.
  apply IH. intros s' y Hy. apply H. now right.
Qed.

(** X7. The walk looks into the tables both sides list and into no
    other: two pairs of catalogs with the same table listings, and the same
    columns and index rows for the tables both list, give the same walk. *)
Theorem walk_reads_shared_tables_only (devDb devDb' mainDb mainDb' : Connection)
  (devTables mainTables : list string) :
  getTables devDb = Normal devTables ->
  getTables mainDb = Normal mainTables ->
  tablesRows devDb' = tablesRows devDb ->
  tablesRows mainDb' = tablesRows mainDb ->
  (forall table, In table devTables -> In table mainTables ->
     columnsRows devDb' table = columnsRows devDb table
     /\ showIndexRows devDb' table = showIndexRows devDb table
     /\ columnsRows mainDb' table = columnsRows mainDb table
     /\ showIndexRows mainDb' table = showIndexRows mainDb table) ->
  walkTables devDb' mainDb' = walkTables devDb mainDb.
Proof.
  intros HA HB HA' HB' Hsame.
  unfold walkTables.
  assert (HtA : getTables devDb' = getTables devDb)
    by (unfold getTables; now rewrite HA').
  assert (HtB : getTables mainDb' = getTables mainDb)
    by (unfold getTables; now rewrite HB').
  rewrite HtA, HtB, HA, HB. cbn [bind].
  apply forOf_ext_in. intros acc table Hin. unfold checkTable.
  destruct (includes mainTables table) eqn:Hmain; [|reflexivity].
  apply includes_In in Hmain.
  destruct (Hsame table Hin Hmain) as (H1 & H2 & H3 & H4).
  unfold getTableColumns, getTableIndexes. now rewrite H1, H2, H3, H4.
Qed.


Lemma tableFound_readable (devDb mainDb : Connection) (mainTables : list string)
  (table : string) :
  In table mainTables ->
  (exists f, tableFound devDb mainDb mainTables table = Normal f)
  <-> readable devDb mainDb table.
Proof.
  intros Hin. apply includes_In in Hin.
  rewrite (tableFound_present devDb mainDb mainTables table Hin).
  unfold readable. split.
  - intros [f H].
    apply bind_Normal in H. destruct H as (dc & Hdc & H).
    apply bind_Normal in H. destruct H as (mc & Hmc & H).
    apply bind_Normal in H. destruct H as (di & Hdi & H).
    apply bind_Normal in H. destruct H as (mi & Hmi & _).
    repeat split; eexists; eassumption.
  - intros ([dc Hdc] & [mc Hmc] & [di Hdi] & [mi Hmi]).
    rewrite Hdc, Hmc, Hdi, Hmi. cbn [bind]. eexists; reflexivity.
Qed.

(** X8. The walk returns exactly when the columns and the indexes of
    every table both sides list can be read on both sides; one shared table
    that cannot be read costs both variants of [checkAndReport] their
    result. *)
Theorem walk_returns_iff_readable (devDb mainDb : Connection)
  (devTables mainTables : list string) :
  getTables devDb = Normal devTables ->
  getTables mainDb = Normal mainTables ->
  ((exists found, walkTables devDb mainDb = Normal found)
   <-> (forall table, In table devTables -> In table mainTables ->
                      readable devDb mainDb table))
  /\ (forall table, In table devTables -> In table mainTables ->
                    ~ readable devDb mainDb table ->
                    (forall r, Action.checkAndReport devDb mainDb <> Normal r)
                    /\ (forall b, Legacy.checkAndReport devDb mainDb <> Normal b)).
Proof.
  intros HA HB.
  assert (Hiff : (exists found, walkTables devDb mainDb = Normal found)
                 <-> (forall table, In table devTables -> In table mainTables ->
                                    readable devDb mainDb table)).
  { unfold walkTables. rewrite HA, HB. cbn [bind]. split.
    - intros [found Hw] table Hdev Hmain.
      apply (tableFound_readable devDb mainDb mainTables table Hmain).
      now apply (forOf_checkTable_each _ _ _ _ Hw).
    - intros Hall. apply forOf_checkTable_returns. intros table Hdev.
      destruct (includes mainTables table) eqn:Hmain.
      + apply includes_In in Hmain.
        apply (tableFound_readable devDb mainDb mainTables table Hmain).
        now apply Hall.
      + rewrite tableFound_missing by assumption. eexists; reflexivity. }
  split; [exact Hiff|].
  intros table Hdev Hmain Hnot.
  assert (HA' : forall r, Action.checkAndReport devDb mainDb <> Normal r).
  { intros r H. apply checkAndReport_walk in H. destruct H as (found & Hw & _).
    apply Hnot. apply (proj1 Hiff); [now exists found | assumption..]. }
  split; [exact HA'|].
  intros b H. rewrite legacy_checkAndReport_as_action in H.
  apply bind_Normal in H. destruct H as (r & Hr & _). now apply (HA' r).
Qed.

Lemma walk_returns_iff_readable_witness :
  ((exists found, walkTables devVanishing mainSample = Normal found)
   <-> (forall table, In table ["users"] -> In table ["users"] ->
                      readable devVanishing mainSample table))
  /\ (forall table, In table ["users"] -> In table ["users"] ->
                    ~ readable devVanishing mainSample table ->
                    (forall r, Action.checkAndReport devVanishing mainSample <> Normal r)
                    /\ (forall b, Legacy.checkAndReport devVanishing mainSample
                                  <> Normal b)).
Proof.
  apply (@walk_returns_iff_readable devVanishing mainSample ["users"] ["users"]);
    reflexivity.
Defined.

(** X9. An index named like a member of [Object.prototype], on a table
    both sides list, makes [getTableIndexes] throw a [TypeError] on the side
    that has it, and neither variant of [checkAndReport] returns. *)
Theorem inherited_index_name_aborts (devDb mainDb : Connection)
  (devTables mainTables : list string) (table : string)
  (rows : list IndexRow.t) (row : IndexRow.t) :
  getTables devDb = Normal devTables ->
  getTables mainDb = Normal mainTables ->
  In table devTables ->
  In table mainTables ->
  showIndexRows devDb table = Normal rows
  \/ showIndexRows mainDb table = Normal rows ->
  In row rows ->
  inherited (IndexRow.Key_name row) = true ->
  (getTableIndexes devDb table
   = Throw (TypeError "Cannot read properties of undefined (reading 'push')")
   \/ getTableIndexes mainDb table
      = Throw (TypeError "Cannot read properties of undefined (reading 'push')"))
  /\ (forall r, Action.checkAndReport devDb mainDb <> Normal r)
  /\ (forall b, Legacy.checkAndReport devDb mainDb <> Normal b).
Proof.
  intros HA HB Hdev Hmain Hrows Hrow Hinh.
  assert (Hbad : exists r, In r rows /\ IndexRow.Key_name r <> "PRIMARY"
                           /\ inherited (IndexRow.Key_name r) = true).
  { exists row. repeat split; try assumption.
    intros Hp. rewrite Hp in Hinh. discriminate. }
  assert (Hthrow :
            getTableIndexes devDb table
            = Throw (TypeError "Cannot read properties of undefined (reading 'push')")
            \/ getTableIndexes mainDb table
               = Throw (TypeError "Cannot read properties of undefined (reading 'push')")).
  { destruct Hrows as [Hr|Hr]; [left|right];
      now apply getTableIndexes_throws with rows. }
  split; [exact Hthrow|].
  assert (Hnot : ~ readable devDb mainDb table).
  { intros (_ & _ & [di Hdi] & [mi Hmi]). destruct Hthrow as [H|H]; congruence. }
  assert (HA' : forall r, Action.checkAndReport devDb mainDb <> Normal r).
  { intros r H. apply checkAndReport_walk in H. destruct H as (found & Hw & _).
    apply Hnot. unfold walkTables in Hw. rewrite HA, HB in Hw. cbn [bind] in Hw.
    apply (tableFound_readable devDb mainDb mainTables table Hmain).
    now apply (forOf_checkTable_each _ _ _ _ Hw). }
  split; [exact HA'|].
  intros b H. rewrite legacy_checkAndReport_as_action in H.
  apply bind_Normal in H. destruct H as (r & Hr & _). now apply (HA' r).
Qed.

Lemma inherited_index_name_aborts_witness :
  (getTableIndexes withToString "users"
   = Throw (TypeError "Cannot read properties of undefined (reading 'push')")
   \/ getTableIndexes withToString "users"
      = Throw (TypeError "Cannot read properties of undefined (reading 'push')"))
  /\ (forall r, Action.checkAndReport withToString withToString <> Normal r)
  /\ (forall b, Legacy.checkAndReport withToString withToString <> Normal b).
Proof.
  apply (@inherited_index_name_aborts withToString withToString ["users"] ["users"]
           "users" toStringRows (IndexRow.mk "toString" "label" 1)).
  - reflexivity.
  - reflexivity.
  - simpl. tauto.
  - simpl. tauto.
  - left. reflexivity.
  - simpl. tauto.
  - reflexivity.
Defined.

(** X10. A column of dev is never both missing and different: a
    different column has a column of the same name in main, and its
    differences are the non-empty list [compareColumns] gives against the
    first such column; a missing column has no column of its name in
    main. *)
Theorem column_missing_or_different (devDb mainDb : Connection) (r : Result.t) :
  Action.checkAndReport devDb mainDb = Normal r ->
  (forall m x, In m (Result.missingColumns r) -> In x (Result.differentColumns r) ->
               MissingColumn.table m = DifferentColumn.table x ->
               Column.name (MissingColumn.column m)
               <> Column.name (DifferentColumn.column x))
  /\ (forall x, In x (Result.differentColumns r) ->
        DifferentColumn.differences x <> []
        /\ exists mainColumns mainColumn,
            getTableColumns mainDb (DifferentColumn.table x) = Normal mainColumns
            /\ find (sameName (DifferentColumn.column x)) mainColumns = Some mainColumn
            /\ DifferentColumn.differences x
               = compareColumns (DifferentColumn.column x) mainColumn)
  /\ (forall m, In m (Result.missingColumns r) ->
        exists mainColumns,
          getTableColumns mainDb (MissingColumn.table m) = Normal mainColumns
          /\ ~ In (Column.name (MissingColumn.column m))
                 (map Column.name mainColumns)).
Proof.
  intros H. apply checkAndReport_walk in H. destruct H as (found & Hw & ->).
  apply walkTables_inv in Hw. destruct Hw as (ta & tb & HA & HB & Hw). simpl.
  assert (Hdiff : forall x, In x (Found.differentColumns found) ->
            DifferentColumn.differences x <> []
            /\ exists mainColumns mainColumn,
                getTableColumns mainDb (DifferentColumn.table x) = Normal mainColumns
                /\ find (sameName (DifferentColumn.column x)) mainColumns
                   = Some mainColumn
                /\ DifferentColumn.differences x
                   = compareColumns (DifferentColumn.column x) mainColumn).
  { intros x Hx.
    apply (proj1 (@walk_In _ Found.differentColumns foundApp_differentColumns eq_refl
                    _ _ _ _ _ Hw _)) in Hx.
    destruct Hx as (t & f & _ & Hc & _ & Hx).
    destruct Hc as [_ ->| dc mc di mi _ _ Hmc _ _ ->]; simpl in Hx; [tauto|].
    apply In_differentColumnsOf in Hx. destruct Hx as (c & m & _ & Hf & Hne & ->).
    simpl. split; [assumption|]. now exists mc, m. }
  assert (Hmiss : forall m, In m (Found.missingColumns found) ->
            exists mainColumns,
              getTableColumns mainDb (MissingColumn.table m) = Normal mainColumns
              /\ find (sameName (MissingColumn.column m)) mainColumns = None).
  { intros m Hm.
    apply (proj1 (@walk_In _ Found.missingColumns foundApp_missingColumns eq_refl
                    _ _ _ _ _ Hw _)) in Hm.
    destruct Hm as (t & f & _ & Hc & _ & Hm).
    destruct Hc as [_ ->| dc mc di mi _ _ Hmc _ _ ->]; simpl in Hm; [tauto|].
    apply In_missingColumnsOf in Hm. destruct Hm as (c & _ & Hf & ->).
    simpl. now exists mc. }
  split; [|split].
  - intros m x Hm Hx Ht Hn.
    destruct (Hmiss m Hm) as (mc & Hmc & Hnone).
    destruct (Hdiff x Hx) as (_ & mc' & c' & Hmc' & Hsome & _).
    rewrite Ht, Hmc' in Hmc. injection Hmc as <-.
    unfold sameName in Hnone, Hsome. rewrite Hn in Hnone. congruence.
  - exact Hdiff.
  - intros m Hm. destruct (Hmiss m Hm) as (mc & Hmc & Hnone).
    exists mc. split; [assumption|].
    intros Hin. apply in_map_iff in Hin. destruct Hin as (c & Hc & Hin).
    apply (find_none _ _ Hnone) in Hin. unfold sameName in Hin.
    rewrite Hc, String.eqb_refl in Hin. discriminate.
Qed.

Lemma column_missing_or_different_witness :
  (forall m x, In m (Result.missingColumns driftResult) ->
               In x (Result.differentColumns driftResult) ->
               MissingColumn.table m = DifferentColumn.table x ->
               Column.name (MissingColumn.column m)
               <> Column.name (DifferentColumn.column x))
  /\ (forall x, In x (Result.differentColumns driftResult) ->
        DifferentColumn.differences x <> []
        /\ exists mainColumns mainColumn,
            getTableColumns mainDrift (DifferentColumn.table x) = Normal mainColumns
            /\ find (sameName (DifferentColumn.column x)) mainColumns = Some mainColumn
            /\ DifferentColumn.differences x
               = compareColumns (DifferentColumn.column x) mainColumn)
  /\ (forall m, In m (Result.missingColumns driftResult) ->
        exists mainColumns,
          getTableColumns mainDrift (MissingColumn.table m) = Normal mainColumns
          /\ ~ In (Column.name (MissingColumn.column m))
                 (map Column.name mainColumns)).
Proof.
  apply (@column_missing_or_different devDrift mainDrift driftResult). reflexivity.
Defined.


Lemma note_nil (same : bool) (text : string) : note same text = [] <-> same = true.
Proof. destruct same; simpl; split; congruence. Qed.

(** X11. [compareColumns] looks at the type, the nullability, the extra
    and the default with [null] read as ['NULL'], and at nothing else: it
    is empty exactly when the two columns agree on these, it depends on
    them only, and it has as many entries in either direction. *)
Theorem compareColumns_detects (a b : Column.t) :
  (compareColumns a b = [] <-> compared a = compared b)
  /\ length (compareColumns a b) = length (compareColumns b a)
  /\ (forall a' b', compared a' = compared a -> compared b' = compared b ->
                    compareColumns a' b' = compareColumns a b).
Proof.
  split; [|split].
  - rewrite compareColumns_spec. unfold compare_spec, compared. split.
    + intros H.
      apply app_eq_nil in H. destruct H as [H1 H].
      apply app_eq_nil in H. destruct H as [H2 H].
      apply app_eq_nil in H. destruct H as [H3 H4].
      apply note_nil, String.eqb_eq in H1, H2, H3, H4. congruence.
    + intros [= -> -> -> ->]. now rewrite !String.eqb_refl.
  - rewrite !compareColumns_spec. unfold compare_spec.
    rewrite (String.eqb_sym (Column.type b)), (String.eqb_sym (Column.nullable b)),
      (String.eqb_sym (normalized (Column.defaultValue b))),
      (String.eqb_sym (Column.extra b)).
    repeat match goal with
           | |- context [String.eqb ?x ?y] => destruct (String.eqb x y)
           end; reflexivity.
  - intros a' b'. unfold compared. intros [= Ha1 Ha2 Ha3 Ha4] [= Hb1 Hb2 Hb3 Hb4].
    rewrite !compareColumns_spec. unfold compare_spec.
    now rewrite Ha1, Ha2, Ha3, Ha4, Hb1, Hb2, Hb3, Hb4.
Qed.

Lemma compareColumns_detects_witness :
  (compareColumns (col "id" "int" "NO" None "") (col "ID" "int" "NO" (Some "NULL") "")
   = []
   <-> compared (col "id" "int" "NO" None "")
       = compared (col "ID" "int" "NO" (Some "NULL") ""))
  /\ compareColumns
       (Column.mk "id" "int" "NO" None "" "PRI" None (Some 10%Z) (Some 0%Z))
       (Column.mk "n" "bigint" "NO" (Some "NULL") "" "" None (Some 19%Z) (Some 0%Z))
     = compareColumns (col "id" "int" "NO" None "")
         (col "ID" "bigint" "NO" (Some "NULL") "").
Proof.
  split.
  - apply (proj1 (compareColumns_detects _ _)).
  - apply (proj2 (proj2 (compareColumns_detects _ _))); reflexivity.
Defined.

(** ** The statements for a column *)

(** X12. [generateModifyColumnCommand] is [generateAlterColumnCommand]
    with [MODIFY COLUMN] for [ADD COLUMN]: the two statements share what
    follows the keyword. *)
Theorem modify_is_add_but_for_keyword (tableName : string) (c : Column.t) :
  exists tail,
    generateAlterColumnCommand tableName c
    = "ALTER TABLE `" ++ tableName ++ "` ADD COLUMN " ++ tail
    /\ generateModifyColumnCommand tableName c
       = "ALTER TABLE `" ++ tableName ++ "` MODIFY COLUMN " ++ tail
    /\ tail = "`" ++ Column.name c ++ "` " ++ Column.type c ++ columnClauses c ++ ";".
Proof.
  exists ("`" ++ Column.name c ++ "` " ++ Column.type c ++ columnClauses c ++ ";").
  split; [|split]; [| |reflexivity].
  - rewrite generateAlterColumnCommand_clauses.
    rewrite ?append_assoc. cbn [append]. now rewrite ?append_assoc.
  - rewrite generateModifyColumnCommand_clauses.
    rewrite ?append_assoc. cbn [append]. now rewrite ?append_assoc.
Qed.


Lemma getOwn_Some_key (o : JsObject) (k : string) (v : Index.t) :
  getOwn o k = Some v -> In k (map fst o).
Proof. intros H. apply getOwn_Some in H. now apply (in_map fst) in H. Qed.

Lemma indexRow_keys (tableName : string) (o o' : JsObject) (row : IndexRow.t) :
  indexRow tableName o row = Normal o' ->
  map fst o' = if IndexRow.Key_name row =? "PRIMARY" then map fst o
               else addName (map fst o) (IndexRow.Key_name row).
Proof.
  destruct (String.eqb_spec (IndexRow.Key_name row) "PRIMARY") as [Hp|Hp].
  - rewrite (indexRow_primary tableName o row Hp). now intros [= <-].
  - rewrite (indexRow_cases tableName o row Hp). unfold addName.
    destruct (getOwn o (IndexRow.Key_name row)) as [d|] eqn:Hget.
    + intros [= <-]. rewrite replaceOwn_keys.
      apply getOwn_Some_key in Hget. apply includes_In in Hget. now rewrite Hget.
    + destruct (inherited (IndexRow.Key_name row)); [discriminate|].
      intros [= <-]. apply getOwn_None in Hget. apply includes_not_In in Hget.
      rewrite Hget. unfold push. now rewrite map_app.
Qed.

Lemma forOf_indexRow_keys (tableName : string) (rows : list IndexRow.t)
  (o o' : JsObject) :
  forOf (indexRow tableName) rows o = Normal o' ->
  map fst o' = fold_left addName (indexKeys rows) (map fst o).
Proof.
  revert o. induction rows as [|row rows IH]; intros o; simpl.
  - now intros [= <-].
  - intros H. apply bind_Normal in H. destruct H as (o1 & H1 & H).
    rewrite (IH _ H), (indexRow_keys _ _ _ H1). unfold indexKeys. simpl.
    now destruct (IndexRow.Key_name row =? "PRIMARY").
Qed.

Lemma insertByIndex_sorted (e : N * Index.t) (l : list (N * Index.t)) :
  StronglySorted (fun a b => (fst a <= fst b)%N) l ->
  StronglySorted (fun a b => (fst a <= fst b)%N) (insertByIndex e l).
Proof.
  induction l as [|h l IH]; intros Hs; simpl.
  - repeat constructor.
  - inversion Hs as [|? ? Hl Hh]; subst.
    destruct (N.leb_spec (fst e) (fst h)) as [Hle|Hlt].
    + constructor; [assumption|]. constructor; [assumption|].
      apply Forall_forall. intros x Hx.
      assert (Hhx : (fst h <= fst x)%N)
        by (revert x Hx; now apply Forall_forall).
      lia.
    + constructor; [now apply IH|].
      apply Forall_forall. intros x Hx.
      apply (Permutation_in _ (insertByIndex_perm e l)) in Hx.
      destruct Hx as [<-|Hx]; [lia|].
      revert x Hx. now apply Forall_forall.
Qed.

Lemma indexedProps_sorted (o : JsObject) :
  StronglySorted (fun a b => (fst a <= fst b)%N) (indexedProps o).
Proof.
  unfold indexedProps. induction o as [|[k v] o IH]; simpl; [constructor|].
  destruct (arrayIndex k); [now apply insertByIndex_sorted | assumption].
Qed.

Lemma indexedProps_In (o : JsObject) (e : N * Index.t) :
  In e (indexedProps o) ->
  exists k, In (k, snd e) o /\ arrayIndex k = Some (fst e).
Proof.
  unfold indexedProps. induction o as [|[k v] o IH]; simpl; [tauto|].
  destruct (arrayIndex k) as [n|] eqn:Hk.
  - intros H. apply (Permutation_in _ (insertByIndex_perm _ _)) in H.
    destruct H as [<-|H].
    + exists k. simpl. tauto.
    + destruct (IH H) as (k' & Hin & Hk'). exists k'. tauto.
  - intros H. destruct (IH H) as (k' & Hin & Hk'). exists k'. tauto.
Qed.

Lemma StronglySorted_map_snd (o : JsObject)
  (l : list (N * Index.t)) :
  (forall k d, In (k, d) o -> Index.name d = k) ->
  (forall e, In e l -> exists k, In (k, snd e) o /\ arrayIndex k = Some (fst e)) ->
  StronglySorted (fun a b => (fst a <= fst b)%N) l ->
  StronglySorted numberedBefore (map snd l).
Proof.
  intros Hname Hin Hs. induction Hs as [|e l Hl IH He]; simpl; constructor.
  - apply IH. intros x Hx. apply Hin. now right.
  - apply Forall_forall. intros d Hd. apply in_map_iff in Hd.
    destruct Hd as (e' & <- & He').
    destruct (Hin e) as (k & Hk & Hke); [now left|].
    destruct (Hin e') as (k' & Hk' & Hke'); [now right|].
    exists (fst e), (fst e').
    rewrite (Hname _ _ Hk), (Hname _ _ Hk'). repeat split; try assumption.
    apply (proj1 (Forall_forall _ _) He e' He').
Qed.

Lemma namedProps_names (o : JsObject) :
  (forall k d, In (k, d) o -> Index.name d = k) ->
  map Index.name (map snd (namedProps o))
  = filter (fun k => negb (isArrayIndex k)) (map fst o).
Proof.
  unfold namedProps, isArrayIndex.
  induction o as [|[k v] o IH]; intros Hname; simpl; [reflexivity|].
  destruct (arrayIndex k); simpl.
  - apply IH. intros k' d H. apply Hname. now right.
  - rewrite (Hname k v) by now left. f_equal.
    apply IH. intros k' d H. apply Hname. now right.
Qed.

(** X13. The order in which [getTableIndexes] returns the indexes is
    that of [Object.values]: the indexes whose name is an array index come
    first, by ascending number, then the others by the first row that
    names them. *)
Theorem getTableIndexes_order (connection : Connection) (tableName : string)
  (rows : list IndexRow.t) (indexes : list Index.t) :
  showIndexRows connection tableName = Normal rows ->
  getTableIndexes connection tableName = Normal indexes ->
  exists numbered named,
    indexes = (numbered ++ named)%list
    /\ StronglySorted numberedBefore numbered
    /\ Forall (fun d => isArrayIndex (Index.name d) = true) numbered
    /\ map Index.name named
       = filter (fun k => negb (isArrayIndex k)) (firstNames (indexKeys rows)).
Proof.
  intros Hrows. unfold getTableIndexes. rewrite Hrows. cbn [bind].
  intros H. apply bind_Normal in H. destruct H as (o & Ho & [= <-]).
  pose proof (forOf_indexRow_grouped rows (grouped_nil tableName) Ho) as Hg.
  simpl app in Hg.
  assert (Hname : forall k d, In (k, d) o -> Index.name d = k).
  { intros k d Hin. now destruct (grouped_own Hg _ _ Hin) as (-> & _). }
  exists (map snd (indexedProps o)), (map snd (namedProps o)).
  split; [reflexivity|]. split; [|split].
  - apply StronglySorted_map_snd with o; try assumption.
    + apply indexedProps_In.
    + apply indexedProps_sorted.
  - apply Forall_forall. intros d Hd. apply in_map_iff in Hd.
    destruct Hd as (e & <- & He).
    destruct (indexedProps_In o e He) as (k & Hk & Hke).
    unfold isArrayIndex. now rewrite (Hname _ _ Hk), Hke.
  - rewrite (namedProps_names o Hname).
    now rewrite (forOf_indexRow_keys _ _ _ Ho).
Qed.

Lemma getTableIndexes_order_witness :
  exists numbered named,
    [ Index.mk "2" ["y"] false "t"; Index.mk "10" ["y"] false "t";
      Index.mk "b" ["x"; "z"] true "t"; Index.mk "a" ["w"] true "t" ]
    = (numbered ++ named)%list
    /\ StronglySorted numberedBefore numbered
    /\ Forall (fun d => isArrayIndex (Index.name d) = true) numbered
    /\ map Index.name named
       = filter (fun k => negb (isArrayIndex k))
           (firstNames
              (indexKeys [ IndexRow.mk "b" "x" 0; IndexRow.mk "10" "y" 1;
                           IndexRow.mk "PRIMARY" "id" 0; IndexRow.mk "a" "w" 0;
                           IndexRow.mk "b" "z" 0; IndexRow.mk "2" "y" 1 ])).
Proof.
  apply (@getTableIndexes_order
           (serve ["t"] (fun _ => [])
              (fun _ => [ IndexRow.mk "b" "x" 0; IndexRow.mk "10" "y" 1;
                          IndexRow.mk "PRIMARY" "id" 0; IndexRow.mk "a" "w" 0;
                          IndexRow.mk "b" "z" 0; IndexRow.mk "2" "y" 1 ]))
           "t"); reflexivity.
Defined.


Lemma join_cons (sep x : string) (l : list string) :
  join sep (x :: l) = x ++ appendAll (map (fun y => sep ++ y) l).
Proof.
  revert x. induction l as [|y l IH]; intros x.
  - simpl. now rewrite append_empty_r.
  - change (join sep (x :: y :: l)) with (x ++ sep ++ join sep (y :: l)).
    rewrite IH. simpl. now rewrite append_assoc.
Qed.

(** X14. An index that [getTableIndexes] returned is not [PRIMARY],
    belongs to the table asked for and has a column, so that
    [generateCreateIndexCommand] gives a statement on that table with a
    column list of one or more quoted names separated by a comma and a
    blank. *)
Theorem create_index_of_read_index (connection : Connection) (tableName : string)
  (indexes : list Index.t) (d : Index.t) :
  getTableIndexes connection tableName = Normal indexes ->
  In d indexes ->
  Index.name d <> "PRIMARY"
  /\ Index.table d = tableName
  /\ exists first rest,
      Index.columns d = first :: rest
      /\ generateCreateIndexCommand d
         = "CREATE " ++ (if Index.unique d then "UNIQUE " else "") ++ "INDEX `"
             ++ Index.name d ++ "` ON `" ++ tableName ++ "` (`" ++ first ++ "`"
             ++ appendAll (map (fun c => ", `" ++ c ++ "`") rest) ++ ");".
Proof.
  intros H Hd. pose proof H as H'. unfold getTableIndexes in H'.
  apply bind_Normal in H'. destruct H' as (rows & Hrows & _).
  destruct (getTableIndexes_grouped _ _ Hrows H) as [_ Hin].
  apply Hin in Hd. destruct Hd as (r & Hr & Hp & ->).
  split; [exact Hp|]. split; [reflexivity|].
  destruct (rowsOf (IndexRow.Key_name r) rows) as [|f rest] eqn:Hrs.
  { exfalso. apply rowsOf_nil_iff in Hrs. apply Hrs. now apply in_map. }
  exists (IndexRow.Column_name f), (map IndexRow.Column_name rest).
  unfold generateCreateIndexCommand, descriptorOf. cbn [Index.columns Index.name
    Index.unique Index.table]. rewrite Hrs. split; [reflexivity|].
  cbn [map]. rewrite join_cons, map_map.
  rewrite ?append_assoc. cbn [append]. rewrite ?append_assoc.
  assert (Hmap : forall l : list string,
             map (fun y => ", " ++ "`" ++ y ++ "`") l
             = map (fun c => ", `" ++ c ++ "`") l) by reflexivity.
  now rewrite Hmap.
Qed.

Lemma create_index_of_read_index_witness :
  Index.name (Index.mk "ix_email" ["id"; "email"] false "users") <> "PRIMARY"
  /\ Index.table (Index.mk "ix_email" ["id"; "email"] false "users") = "users"
  /\ exists first rest,
      ["id"; "email"] = first :: rest
      /\ generateCreateIndexCommand (Index.mk "ix_email" ["id"; "email"] false "users")
         = "CREATE " ++ "" ++ "INDEX `" ++ "ix_email" ++ "` ON `" ++ "users"
             ++ "` (`" ++ first ++ "`"
             ++ appendAll (map (fun c => ", `" ++ c ++ "`") rest) ++ ");".
Proof.
  apply (@create_index_of_read_index mainDrift "users"
           [Index.mk "ix_email" ["id"; "email"] false "users"]
           (Index.mk "ix_email" ["id"; "email"] false "users")).
  - reflexivity.
  - simpl. tauto.
Defined.


Lemma stripFrom_noEsc (s : string) : noEsc s = true -> stripFrom Outside s = s.
Proof.
  induction s as [|c s IH]; simpl; [reflexivity|].
  intros H. apply andb_true_iff in H. destruct H as [Hc Hs].
  apply negb_true_iff in Hc. rewrite Hc. now rewrite IH.
Qed.

Lemma stripFrom_params (params seen rest : string) :
  allParams params = true ->
  stripFrom (InParams seen) (params ++ String "m" rest) = stripFrom Outside rest.
Proof.
  revert seen. induction params as [|c params IH]; intros seen; simpl.
  - reflexivity.
  - intros H. apply andb_true_iff in H. destruct H as [Hc Hp].
    rewrite Hc. now apply IH.
Qed.

Lemma stripAnsi_colorCode (params rest : string) :
  allParams params = true ->
  stripAnsi (colorCode params ++ rest) = stripAnsi rest.
Proof.
  intros H. unfold stripAnsi, colorCode. simpl.
  rewrite append_assoc. simpl. now apply stripFrom_params.
Qed.

Lemma stripFrom_noEsc_app (text rest : string) :
  noEsc text = true ->
  stripFrom Outside (text ++ rest) = text ++ stripFrom Outside rest.
Proof.
  induction text as [|c text IH]; simpl; [reflexivity|].
  intros H. apply andb_true_iff in H. destruct H as [Hc Ht].
  apply negb_true_iff in Hc. rewrite Hc. now rewrite IH.
Qed.

Lemma length_append (a b : string) :
  String.length (a ++ b) = String.length a + String.length b.
Proof. induction a as [|c a IH]; simpl; [reflexivity | now rewrite IH]. Qed.

Lemma stripFrom_length (s : string) (st : scan) :
  String.length (stripFrom st s)
  <= String.length s
     + match st with
       | Outside => 0
       | AfterEsc => 1
       | InParams params => 2 + String.length params
       end.
Proof.
  revert st. induction s as [|c s IH]; intros st.
  - destruct st; simpl; lia.
  - assert (Hout : String.length
                     (if (c =? ESC)%char then stripFrom AfterEsc s
                      else String c (stripFrom Outside s))
                   <= S (String.length s)).
    { destruct (c =? ESC)%char.
      - specialize (IH AfterEsc). simpl in IH. lia.
      - specialize (IH Outside). simpl in *. lia. }
    destruct st as [| |params]; cbn [stripFrom String.length].
    + lia.
    + destruct (c =? "[")%char.
      * specialize (IH (InParams "")). simpl in IH. lia.
      * cbn [String.length]. lia.
    + destruct (isParam c).
      * specialize (IH (InParams (params ++ String c ""))).
        cbv beta iota in IH. rewrite length_append in IH. simpl in IH. lia.
      * destruct (c =? "m")%char.
        -- specialize (IH Outside). simpl in IH. lia.
        -- cbn [String.length]. rewrite length_append. lia.
Qed.

(** X15. The message recorded for a console call has its colour codes
    removed: text without the escape character is kept, a colour code is
    dropped where it stands, text wrapped in an opening and a closing code
    is recorded bare, and nothing is ever added. *)
Theorem stripAnsi_removes_color_codes :
  (forall text, noEsc text = true -> stripAnsi text = text)
  /\ (forall before params after,
         noEsc before = true -> allParams params = true ->
         stripAnsi (before ++ colorCode params ++ after) = before ++ stripAnsi after)
  /\ (forall opening closing text,
         allParams opening = true -> allParams closing = true -> noEsc text = true ->
         capturedMessage [StringArg (colorCode opening ++ text ++ colorCode closing)]
         = text)
  /\ (forall s, String.length (stripAnsi s) <= String.length s).
Proof.
  split; [|split; [|split]].
  - exact stripFrom_noEsc.
  - intros before params after Hb Hp. unfold stripAnsi.
    rewrite stripFrom_noEsc_app by assumption.
    f_equal. now apply stripAnsi_colorCode.
  - intros opening closing text Ho Hc Ht. unfold capturedMessage. cbn [map join].
    rewrite stripAnsi_colorCode by assumption. unfold stripAnsi.
    rewrite stripFrom_noEsc_app by assumption.
    rewrite <- (append_empty_r (colorCode closing)).
    fold (stripAnsi (colorCode closing ++ "")).
    rewrite stripAnsi_colorCode by assumption. apply append_empty_r.
  - intros s. unfold stripAnsi. pose proof (stripFrom_length s Outside) as H.
    simpl in H. lia.
Qed.

Lemma stripAnsi_removes_color_codes_witness :
  stripAnsi "Checking table: users" = "Checking table: users"
  /\ stripAnsi ("  " ++ colorCode "1;31" ++ "Missing in main")
     = "  " ++ stripAnsi "Missing in main"
  /\ capturedMessage [StringArg (colorCode "36" ++ "Checking table: users"
                                   ++ colorCode "39")]
     = "Checking table: users".
Proof.
  destruct stripAnsi_removes_color_codes as (H1 & H2 & H3 & _).
  split; [|split].
  - apply H1. reflexivity.
  - apply H2; reflexivity.
  - apply H3; reflexivity.
Defined.

(** The replacement is not a cleaning: what it leaves can hold a colour
    code again. *)
Example stripAnsi_leaves_a_code :
  stripAnsi (String ESC (String "[" (colorCode "0" ++ "m"))) = colorCode "".
Proof. reflexivity. Qed.


Lemma map_through {A : Type} (proj : A -> string) (f : string -> string)
  (l l' : list A) :
  map proj l = map proj l' ->
  map (fun x => f (proj x)) l = map (fun x => f (proj x)) l'
  /\ length l = length l'.
Proof.
  intros H. split.
  - rewrite <- (map_map proj f l), <- (map_map proj f l'). now rewrite H.
  - rewrite <- (length_map proj l), <- (length_map proj l'). now rewrite H.
Qed.

(** X16. The step summary shows of a result its [isInSync], the number
    of the missing indexes, and the missing tables and the tables of the
    missing and different columns (of an in-sync result only the numbers of
    these): two results alike in these give the same summary. *)
Theorem summary_names_tables_only (toLocaleTimeString : string -> string)
  (now : string) (capturedOutput : list Captured.t) (r r' : Result.t) :
  Result.isInSync r = Result.isInSync r' ->
  length (Result.missingIndexes r) = length (Result.missingIndexes r') ->
  (Result.missingTables r = Result.missingTables r'
   /\ map MissingColumn.table (Result.missingColumns r)
      = map MissingColumn.table (Result.missingColumns r')
   /\ map DifferentColumn.table (Result.differentColumns r)
      = map DifferentColumn.table (Result.differentColumns r'))
  \/ (Result.isInSync r = true
      /\ length (Result.missingTables r) = length (Result.missingTables r')
      /\ length (Result.missingColumns r) = length (Result.missingColumns r')
      /\ length (Result.differentColumns r) = length (Result.differentColumns r')) ->
  generateActionsSummary toLocaleTimeString now capturedOutput r
  = generateActionsSummary toLocaleTimeString now capturedOutput r'.
Proof.
  intros Hs Hi [(Ht & Hc & Hd)|(Hsync & Ht & Hc & Hd)]; unfold generateActionsSummary.
  - destruct (map_through MissingColumn.table
                (fun t => "- " ++ t ++ "." ++ objectToString) _ _ Hc) as [Hc1 Hc2].
    destruct (map_through DifferentColumn.table
                (fun t => "- " ++ t ++ "." ++ objectToString ++ ": "
                            ++ undefinedToString) _ _ Hd) as [Hd1 Hd2].
    cbv beta in Hc1, Hd1.
    now rewrite <- Hs, <- Hi, <- Ht, <- Hc1, <- Hc2, <- Hd1, <- Hd2.
  - rewrite <- Hs, Hsync, <- Hi, <- Ht, <- Hc, <- Hd. reflexivity.
Qed.

Lemma summary_names_tables_only_witness :
  generateActionsSummary (fun _ => "10:15:00") "2024-05-01T10:15:00.000Z" []
    driftResult
  = generateActionsSummary (fun _ => "10:15:00") "2024-05-01T10:15:00.000Z" []
      (Result.mk false ["orders"]
         [MissingColumn.mk "users" (col "nickname" "text" "YES" None "")]
         [DifferentColumn.mk "users" (col "id" "bigint" "NO" None "") []]
         [Index.mk "ix_other" ["id"] true "orders"]).
Proof.
  apply (@summary_names_tables_only); [reflexivity | reflexivity |].
  left. repeat split; reflexivity.
Defined.

Example summary_of_drift :
  generateActionsSummary (fun _ => "10:15:00") "2024-05-01T10:15:00.000Z"
    [Captured.mk "log" "Checking table: orders" "2024-05-01T10:15:00.000Z"]
    driftResult
  = join (String (ascii_of_nat 10) "")
      [ "# 🔍 MySQL Schema Comparison Report"; "";
        "## ❌ Status: Out of Sync";
        "Main database is missing elements from dev database."; "";
        "## 📊 Summary"; "| Category | Count |"; "|----------|-------|";
        "| Missing Tables | 1 |"; "| Missing Columns | 1 |";
        "| Different Columns | 1 |"; "| Missing Indexes | 1 |"; "";
        "## 📋 Full Console Output"; ""; "<details>";
        "<summary>Click to view complete log</summary>"; ""; "```";
        "[10:15:00] Checking table: orders";
        "```"; "</details>"; "";
        "## 📋 Missing Tables"; "- orders"; "";
        "## 📋 Missing Columns"; "- users.[object Object]"; "";
        "## 📋 Different Columns"; "- users.[object Object]: undefined"; "";
        "---"; "Generated at: 2024-05-01T10:15:00.000Z" ].
Proof. reflexivity. Qed.


Lemma forOf_app {A S : Type} (f : S -> A -> completion S) (a b : list A) (s : S) :
  forOf f (a ++ b) s = (s' <- forOf f a s ;; forOf f b s').
Proof.
  revert s. induction a as [|x a IH]; intros s; simpl; [reflexivity|].
  destruct (f s x); simpl; auto.
Qed.

Lemma forOf_map {A B S : Type} (f : S -> B -> completion S) (g : A -> B)
  (l : list A) (s : S) :
  forOf f (map g l) s = forOf (fun s x => f s (g x)) l s.
Proof.
  revert s. induction l as [|x l IH]; intros s; simpl; [reflexivity|].
  destruct (f s (g x)); simpl; auto.
Qed.

Lemma forOf_pure {A S : Type} (f : S -> A -> S) (l : list A) (s : S) :
  forOf (fun s x => Normal (f s x)) l s = Normal (fold_left f l s).
Proof. revert s. induction l as [|x l IH]; intros s; simpl; auto. Qed.

Lemma groupByTable_findings (result : Result.t) :
  groupByTable result = forOf applyFinding (findingsOf result) [].
Proof.
  unfold groupByTable, findingsOf.
  rewrite forOf_app, forOf_map. cbn [applyFinding].
  rewrite forOf_pure. cbn [bind].
  rewrite forOf_app, forOf_map. cbn [applyFinding].
  destruct (forOf _ (Result.missingColumns result) _) as [o| |]; cbn [bind];
    try reflexivity.
  rewrite forOf_app, forOf_map. cbn [applyFinding].
  destruct (forOf _ (Result.differentColumns result) _) as [o'| |]; cbn [bind];
    try reflexivity.
  now rewrite forOf_map.
Qed.

(** Own properties of [tableGroups]. *)
Lemma getGroup_None (o : TableGroups) (k : string) :
  getGroup o k = None <-> ~ In k (map fst o).
Proof.
  induction o as [|[k' v] o IH]; simpl.
  - tauto.
  - destruct (String.eqb_spec k' k) as [->|Hne].
    + split; [discriminate | tauto].
    + rewrite IH. tauto.
Qed.

Lemma getGroup_Some (o : TableGroups) (k : string) (v : Group.t) :
  getGroup o k = Some v -> In (k, v) o.
Proof.
  induction o as [|[k' w] o IH]; simpl; [discriminate|].
  destruct (String.eqb_spec k' k) as [->|Hne].
  - intros [= ->]. now left.
  - intros H. right. now apply IH.
Qed.

Lemma getGroup_push (o : TableGroups) (k : string) (v : Group.t) :
  getGroup o k = None -> getGroup (push o (k, v)) k = Some v.
Proof.
  unfold push. induction o as [|[k' w] o IH]; simpl.
  - now rewrite String.eqb_refl.
  - destruct (k' =? k); [discriminate | exact IH].
Qed.

Lemma replaceGroup_push (o : TableGroups) (k : string) (v v' : Group.t) :
  getGroup o k = None -> replaceGroup (push o (k, v)) k v' = push o (k, v').
Proof.
  unfold push. induction o as [|[k' w] o IH]; simpl.
  - now rewrite String.eqb_refl.
  - destruct (k' =? k); [discriminate|]. intros H. now rewrite IH.
Qed.

Lemma replaceGroup_keys (o : TableGroups) (k : string) (v : Group.t) :
  map fst (replaceGroup o k v) = map fst o.
Proof.
  induction o as [|[k' w] o IH]; simpl; [reflexivity|].
  destruct (k' =? k); simpl; [reflexivity | now rewrite IH].
Qed.

Lemma In_replaceGroup (o : TableGroups) (k : string) (v : Group.t)
  (k' : string) (x : Group.t) :
  In k (map fst o) ->
  NoDup (map fst o) ->
  In (k', x) (replaceGroup o k v) <-> (k' = k /\ x = v) \/ (k' <> k /\ In (k', x) o).
Proof.
  induction o as [|[k0 w] o IH]; simpl; [tauto|].
  intros Hin Hnd. inversion Hnd as [|? ? Hnot Hnd']; subst.
  destruct (String.eqb_spec k0 k) as [->|Hne]; simpl.
  - split.
    + intros [[= <- <-]|H]; [now left|].
      right. split; [|now right].
      intros ->. apply Hnot. now apply (in_map fst) in H.
    + intros [[-> ->]|[Hne [[= <- <-]|H]]]; [now left | congruence | now right].
  - destruct Hin as [?|Hin]; [congruence|].
    rewrite (IH Hin Hnd'). split.
    + intros [[= <- <-]|[H|H]]; [right; split; [congruence | now left] | now left |].
      right. split; [tauto | right; tauto].
    + intros [H|[Hk [[= <- <-]|H]]]; [right; now left | now left | right; right; tauto].
Qed.

Lemma replaceGroup_same (o : TableGroups) (k : string) (g : Group.t) :
  getGroup o k = Some g -> replaceGroup o k g = o.
Proof.
  induction o as [|[k' w] o IH]; simpl; [reflexivity|].
  destruct (String.eqb_spec k' k) as [->|Hne].
  - now intros [= ->].
  - intros H. now rewrite IH.
Qed.

Lemma applyFinding_cases (o : TableGroups) (f : finding) :
  applyFinding o f =
  match getGroup o (tableOf f) with
  | Some g => Normal (replaceGroup o (tableOf f) (extendGroup g f))
  | None =>
      if inherited (tableOf f) then
        match f with
        | TableFinding _ => Normal o
        | _ => Throw (TypeError "Cannot read properties of undefined (reading 'push')")
        end
      else Normal (push o (tableOf f, firstGroup f))
  end.
Proof.
  destruct f as [t|t e|i]; cbn [applyFinding tableOf firstGroup extendGroup];
    unfold groupColumn, groupIndex, ensureGroup.
  - destruct (getGroup o t) as [g|] eqn:Hg.
    + destruct g. now rewrite replaceGroup_same.
    + now destruct (inherited t).
  - destruct (getGroup o t) as [g|] eqn:Hg.
    + now rewrite Hg.
    + destruct (inherited t).
      * now rewrite Hg.
      * rewrite getGroup_push by assumption. now rewrite replaceGroup_push.
  - destruct (getGroup o (Index.table i)) as [g|] eqn:Hg.
    + now rewrite Hg.
    + destruct (inherited (Index.table i)).
      * now rewrite Hg.
      * rewrite getGroup_push by assumption. now rewrite replaceGroup_push.
Qed.

Lemma findingsFor_app (k : string) (a b : list finding) :
  findingsFor k (a ++ b) = (findingsFor k a ++ findingsFor k b)%list.
Proof. apply filter_app. Qed.

Lemma findingsFor_nil_iff (k : string) (seen : list finding) :
  findingsFor k seen = [] <-> ~ In k (map tableOf seen).
Proof.
  unfold findingsFor. induction seen as [|f seen IH]; simpl; [tauto|].
  destruct (String.eqb_spec (tableOf f) k) as [->|Hne].
  - split; [discriminate | tauto].
  - rewrite IH. tauto.
Qed.

Lemma groupAfter_other (seen : list finding) (f : finding) (k : string) :
  tableOf f <> k -> groupAfter (seen ++ [f]) k = groupAfter seen k.
Proof.
  intros Hne. unfold groupAfter. rewrite findingsFor_app.
  assert (Hn : findingsFor k [f] = []).
  { unfold findingsFor. simpl. destruct (String.eqb_spec (tableOf f) k); congruence. }
  now rewrite Hn, app_nil_r.
Qed.

Lemma findingsFor_self (f : finding) : findingsFor (tableOf f) [f] = [f].
Proof. unfold findingsFor. simpl. now rewrite String.eqb_refl. Qed.

Lemma groupAfter_first (seen : list finding) (f : finding) :
  ~ In (tableOf f) (map tableOf seen) ->
  groupAfter (seen ++ [f]) (tableOf f) = firstGroup f.
Proof.
  intros Hnew. apply findingsFor_nil_iff in Hnew.
  unfold groupAfter. rewrite findingsFor_app, Hnew, findingsFor_self.
  now destruct f.
Qed.

Lemma groupAfter_next (seen : list finding) (f : finding) :
  In (tableOf f) (map tableOf seen) ->
  groupAfter (seen ++ [f]) (tableOf f) = extendGroup (groupAfter seen (tableOf f)) f.
Proof.
  intros Hold. unfold groupAfter.
  rewrite findingsFor_app, findingsFor_self, !flat_map_app.
  destruct (findingsFor (tableOf f) seen) as [|h rest] eqn:Hs.
  - apply findingsFor_nil_iff in Hs. contradiction.
  - destruct f; cbn [extendGroup flat_map Group.missing Group.columns Group.indexes
                       app]; unfold push; now rewrite ?app_nil_r.
Qed.

Lemma groupedBy_nil : groupedBy [] [].
Proof. split; simpl; try tauto. constructor. Qed.

Lemma applyFinding_groupedBy (seen : list finding) (o o' : TableGroups) (f : finding) :
  groupedBy seen o ->
  applyFinding o f = Normal o' ->
  groupedBy (seen ++ [f]) o'.
Proof.
  intros [Hnd Hown Hall]. rewrite applyFinding_cases.
  destruct (getGroup o (tableOf f)) as [g|] eqn:Hget.
  - intros [= <-].
    pose proof (getGroup_Some _ _ Hget) as Hin.
    destruct (Hown _ _ Hin) as (Hg & Hi & Hs).
    assert (Hkey : In (tableOf f) (map fst o)) by now apply (in_map fst) in Hin.
    split.
    + now rewrite replaceGroup_keys.
    + intros k x Hx. apply In_replaceGroup in Hx; [|assumption..].
      destruct Hx as [[-> ->]|[Hne Hx]].
      * repeat split; try assumption.
        -- rewrite groupAfter_next by assumption. now rewrite <- Hg.
        -- rewrite map_app, in_app_iff. now left.
      * destruct (Hown k x Hx) as (Hg' & Hi' & Hs').
        repeat split; try assumption.
        -- rewrite groupAfter_other; [assumption | congruence].
        -- rewrite map_app, in_app_iff. now left.
    + intros f' Hf' Hp. rewrite replaceGroup_keys.
      apply in_app_iff in Hf'. destruct Hf' as [Hf'|[<-|[]]];
        [now apply Hall | assumption].
  - pose proof (proj1 (getGroup_None _ _) Hget) as Hnew.
    destruct (inherited (tableOf f)) eqn:Hinh.
    + destruct f as [t| |]; try discriminate. intros [= <-]. split.
      * assumption.
      * intros k x Hx. destruct (Hown k x Hx) as (Hg' & Hi' & Hs').
        repeat split; try assumption.
        -- rewrite groupAfter_other; [assumption|].
           intros Heq. simpl in Heq. subst k. simpl in Hinh. congruence.
        -- rewrite map_app, in_app_iff. now left.
      * intros f' Hf' Hp. apply in_app_iff in Hf'.
        destruct Hf' as [Hf'|[<-|[]]]; [now apply Hall | congruence].
    + intros [= <-]. unfold push.
      assert (Hunseen : ~ In (tableOf f) (map tableOf seen)).
      { intros Hs. apply in_map_iff in Hs. destruct Hs as (f' & Hk & Hf').
        apply Hnew. rewrite <- Hk. apply Hall; [assumption | congruence]. }
      split.
      * rewrite map_app. simpl.
        apply NoDup_app; [assumption | repeat constructor; simpl; tauto |].
        intros a Ha [<-|[]]. contradiction.
      * intros k x Hx. apply in_app_iff in Hx. destruct Hx as [Hx|[[= <- <-]|[]]].
        -- destruct (Hown k x Hx) as (Hg' & Hi' & Hs').
           repeat split; try assumption.
           ++ rewrite groupAfter_other; [assumption|]. intros <-. contradiction.
           ++ rewrite map_app, in_app_iff. now left.
        -- repeat split; try assumption.
           ++ now rewrite groupAfter_first.
           ++ rewrite map_app, in_app_iff. right. now left.
      * intros f' Hf' Hp. rewrite map_app, in_app_iff.
        apply in_app_iff in Hf'. destruct Hf' as [Hf'|[<-|[]]].
        -- left. now apply Hall.
        -- right. now left.
Qed.

Lemma forOf_applyFinding_groupedBy (fs seen : list finding) (o o' : TableGroups) :
  groupedBy seen o ->
  forOf applyFinding fs o = Normal o' ->
  groupedBy (seen ++ fs) o'.
Proof.
  revert seen o. induction fs as [|f fs IH]; intros seen o Hg; simpl.
  - intros [= <-]. now rewrite app_nil_r.
  - destruct (applyFinding o f) as [o1| |] eqn:Hstep; simpl; try discriminate.
    intros Hrest.
    replace (seen ++ f :: fs)%list with ((seen ++ [f]) ++ fs)%list
      by (rewrite <- app_assoc; reflexivity).
    apply (IH _ o1); [|assumption].
    now apply applyFinding_groupedBy with (o := o).
Qed.

(** The keys, in the order of creation. *)
Lemma applyFinding_keys (o o' : TableGroups) (f : finding) :
  applyFinding o f = Normal o' ->
  map fst o' = if inherited (tableOf f) then map fst o
               else addName (map fst o) (tableOf f).
Proof.
  rewrite applyFinding_cases. unfold addName.
  destruct (getGroup o (tableOf f)) as [g|] eqn:Hget.
  - intros [= <-]. rewrite replaceGroup_keys.
    apply getGroup_Some in Hget. apply (in_map fst) in Hget. simpl in Hget.
    apply includes_In in Hget. rewrite Hget. now destruct (inherited (tableOf f)).
  - destruct (inherited (tableOf f)).
    + destruct f; try discriminate. now intros [= <-].
    + intros [= <-]. apply getGroup_None in Hget. apply includes_not_In in Hget.
      rewrite Hget. unfold push. now rewrite map_app.
Qed.

Lemma forOf_applyFinding_keys (fs : list finding) (o o' : TableGroups) :
  forOf applyFinding fs o = Normal o' ->
  map fst o'
  = fold_left addName (filter (fun k => negb (inherited k)) (map tableOf fs))
      (map fst o).
Proof.
  revert o. induction fs as [|f fs IH]; intros o; simpl.
  - now intros [= <-].
  - intros H. apply bind_Normal in H. destruct H as (o1 & H1 & H).
    rewrite (IH _ H), (applyFinding_keys _ _ H1).
    now destruct (inherited (tableOf f)).
Qed.


Lemma filter_map_comm {A B : Type} (p : B -> bool) (f : A -> B) (l : list A) :
  filter p (map f l) = map f (filter (fun x => p (f x)) l).
Proof.
  induction l as [|x l IH]; simpl; [reflexivity|].
  destruct (p (f x)); simpl; now rewrite IH.
Qed.

Lemma flat_map_map {A B C : Type} (g : B -> list C) (f : A -> B) (l : list A) :
  flat_map g (map f l) = flat_map (fun x => g (f x)) l.
Proof. induction l as [|x l IH]; simpl; [reflexivity | now rewrite IH]. Qed.

Lemma flat_map_nil {A B : Type} (l : list A) : flat_map (fun _ : A => @nil B) l = [].
Proof. induction l; simpl; auto. Qed.

Lemma flat_map_singleton {A B : Type} (f : A -> B) (l : list A) :
  flat_map (fun x => [f x]) l = map f l.
Proof. induction l as [|x l IH]; simpl; [reflexivity | now rewrite IH]. Qed.

Lemma filter_names_nil_iff (l : list string) (k : string) :
  filter (fun t => t =? k) l = [] <-> includes l k = false.
Proof.
  rewrite includes_not_In. induction l as [|x l IH]; simpl; [tauto|].
  destruct (String.eqb_spec x k) as [->|Hne].
  - split; [discriminate | tauto].
  - rewrite IH. tauto.
Qed.

Lemma tableOf_findingsOf (r : Result.t) :
  map tableOf (findingsOf r) = tablesOfResult r.
Proof.
  unfold findingsOf, tablesOfResult. rewrite !map_app, !map_map.
  cbn [tableOf]. now rewrite map_id.
Qed.

Lemma groupAfter_findingsOf (r : Result.t) (k : string) :
  groupAfter (findingsOf r) k = groupOf r k.
Proof.
  unfold groupAfter, groupOf, findingsOf, findingsFor.
  rewrite !filter_app, !filter_map_comm. cbn [tableOf].
  rewrite !flat_map_app, !flat_map_map.
  rewrite !flat_map_nil, ?flat_map_singleton. simpl app. rewrite ?app_nil_r.
  f_equal; [|apply map_id].
  destruct (filter (fun x => x =? k) (Result.missingTables r)) as [|t ts] eqn:Hmt.
  - apply filter_names_nil_iff in Hmt. rewrite Hmt. simpl.
    destruct (filter _ (Result.missingColumns r)); [|reflexivity]. simpl.
    destruct (filter _ (Result.differentColumns r)); [|reflexivity]. simpl.
    now destruct (filter _ (Result.missingIndexes r)).
  - simpl. symmetry. apply not_false_iff_true. intros Hf.
    apply filter_names_nil_iff in Hf. congruence.
Qed.

Lemma insertGroup_perm (e : N * (string * Group.t)) (l : list (N * (string * Group.t))) :
  Permutation (insertGroup e l) (e :: l).
Proof.
  induction l as [|h l IH]; simpl; [reflexivity|].
  destruct (fst e <=? fst h)%N; [reflexivity|].
  rewrite IH. apply perm_swap.
Qed.

Lemma groupsInKeyOrder_perm (o : TableGroups) : Permutation (groupsInKeyOrder o) o.
Proof.
  unfold groupsInKeyOrder.
  induction o as [|[k v] o IH]; simpl; [reflexivity|].
  destruct (arrayIndex k) as [n|]; simpl.
  - rewrite insertGroup_perm. simpl. now apply perm_skip.
  - rewrite <- Permutation_middle. now apply perm_skip.
Qed.

(** X17. When the grouping of [generatePRComment] returns, it has one
    group for each table of the result whose name is not that of a member
    of [Object.prototype], in the order the tables are first met (missing
    tables, then missing columns, different columns and missing indexes),
    each holding what the result has on that table; a table so named gets
    no group, which a returning grouping meets among the missing tables
    only.  The comment goes through the groups in the key order of the
    object, a rearrangement of the same groups. *)
Theorem comment_groups_by_table (r : Result.t) (o : TableGroups) :
  groupByTable r = Normal o ->
  NoDup (map fst o)
  /\ map fst o
     = firstNames (filter (fun k => negb (inherited k)) (tablesOfResult r))
  /\ (forall k g, In (k, g) o -> g = groupOf r k)
  /\ Permutation (groupsInKeyOrder o) o.
Proof.
  rewrite groupByTable_findings. intros H.
  pose proof (forOf_applyFinding_groupedBy (findingsOf r) groupedBy_nil H) as Hg.
  simpl app in Hg. destruct Hg as [Hnd Hown _].
  split; [assumption|]. split; [|split].
  - rewrite (forOf_applyFinding_keys _ _ H), tableOf_findingsOf. reflexivity.
  - intros k g Hin. destruct (Hown k g Hin) as (-> & _).
    apply groupAfter_findingsOf.
  - apply groupsInKeyOrder_perm.
Qed.

Lemma comment_groups_by_table_witness :
  NoDup (map fst [ ("orders", Group.mk true [] []);
                   ("users",
                    Group.mk false
                      [ Group.MissingEntry (col "age" "int" "NO" (Some "0") "");
                        Group.DifferentEntry
                          (col "id" "int(11)" "NO" None "auto_increment")
                          ["type: 'int(10)' → 'int(11)'"] ]
                      [Index.mk "ix_age" ["age"] false "users"]) ])
  /\ ["orders"; "users"]
     = firstNames (filter (fun k => negb (inherited k)) (tablesOfResult driftResult))
  /\ (forall k g,
         In (k, g) [ ("orders", Group.mk true [] []);
                     ("users",
                      Group.mk false
                        [ Group.MissingEntry (col "age" "int" "NO" (Some "0") "");
                          Group.DifferentEntry
                            (col "id" "int(11)" "NO" None "auto_increment")
                            ["type: 'int(10)' → 'int(11)'"] ]
                        [Index.mk "ix_age" ["age"] false "users"]) ] ->
         g = groupOf driftResult k)
  /\ Permutation
       (groupsInKeyOrder
          [ ("orders", Group.mk true [] []);
            ("users",
             Group.mk false
               [ Group.MissingEntry (col "age" "int" "NO" (Some "0") "");
                 Group.DifferentEntry
                   (col "id" "int(11)" "NO" None "auto_increment")
                   ["type: 'int(10)' → 'int(11)'"] ]
               [Index.mk "ix_age" ["age"] false "users"]) ])
       [ ("orders", Group.mk true [] []);
         ("users",
          Group.mk false
            [ Group.MissingEntry (col "age" "int" "NO" (Some "0") "");
              Group.DifferentEntry
                (col "id" "int(11)" "NO" None "auto_increment")
                ["type: 'int(10)' → 'int(11)'"] ]
            [Index.mk "ix_age" ["age"] false "users"]) ].
Proof.
  apply (@comment_groups_by_table driftResult). reflexivity.
Defined.

(** A missing table named [constructor] gets no group: the lookup
    [tableGroups[table]] finds the member the object inherits. *)
Example missing_table_named_constructor :
  groupByTable (Result.mk false ["constructor"; "orders"] [] [] [])
  = Normal [("orders", Group.mk true [] [])].
Proof. reflexivity. Qed.


Lemma forOf_applyFinding_returns (fs : list finding) (o : TableGroups) :
  (forall f, In f fs -> isTableFinding f = false -> inherited (tableOf f) = false) ->
  exists o', forOf applyFinding fs o = Normal o'.
Proof.
  revert o. induction fs as [|f fs IH]; intros o Hsafe; simpl.
  - eexists; reflexivity.
  - assert (Hstep : exists o1, applyFinding o f = Normal o1).
    { rewrite applyFinding_cases.
      destruct (getGroup o (tableOf f)); [eexists; reflexivity|].
      destruct (inherited (tableOf f)) eqn:Hinh; [|eexists; reflexivity].
      destruct f; try (eexists; reflexivity);
        (rewrite (Hsafe _ (or_introl eq_refl) eq_refl) in Hinh; discriminate). }
    destruct Hstep as [o1 H1]. rewrite H1. simpl.
    apply IH. intros f' Hf'. apply Hsafe. now right.
Qed.

Lemma forOf_applyFinding_throws (fs seen : list finding) (o : TableGroups) :
  groupedBy seen o ->
  (exists f, In f fs /\ isTableFinding f = false /\ inherited (tableOf f) = true) ->
  forOf applyFinding fs o
  = Throw (TypeError "Cannot read properties of undefined (reading 'push')").
Proof.
  revert seen o. induction fs as [|f fs IH]; intros seen o Hg (b & Hb & Ht & Hi).
  - destruct Hb.
  - simpl. destruct (applyFinding o f) as [o1|e|n] eqn:Hstep.
    + simpl. apply (IH (seen ++ [f])%list).
      * now apply applyFinding_groupedBy with (o := o).
      * destruct Hb as [<-|Hb]; [|now exists b].
        exfalso. rewrite applyFinding_cases in Hstep.
        destruct (getGroup o (tableOf f)) as [g|] eqn:Hget.
        -- apply getGroup_Some in Hget.
           destruct (groupedBy_own Hg _ _ Hget) as (_ & Hplain & _). congruence.
        -- rewrite Hi in Hstep. destruct f; discriminate.
    + rewrite applyFinding_cases in Hstep.
      destruct (getGroup o (tableOf f)); [discriminate|].
      destruct (inherited (tableOf f)); [|discriminate].
      destruct f; try discriminate; now injection Hstep as <-.
    + rewrite applyFinding_cases in Hstep.
      destruct (getGroup o (tableOf f)); [discriminate|].
      destruct (inherited (tableOf f)); [|discriminate].
      destruct f; discriminate.
Qed.

Lemma plainTables_findings (r : Result.t) :
  plainTables r <->
  (forall f, In f (findingsOf r) -> isTableFinding f = false ->
             inherited (tableOf f) = false).
Proof.
  unfold plainTables, findingsOf. split.
  - intros (Hc & Hd & Hi) f Hf Ht.
    repeat (apply in_app_iff in Hf; destruct Hf as [Hf|Hf]);
      apply in_map_iff in Hf; destruct Hf as (x & <- & Hx);
      try discriminate; cbn [tableOf]; auto.
  - intros H. repeat split; intros x Hx.
    + apply (H (ColumnFinding (MissingColumn.table x)
                  (Group.MissingEntry (MissingColumn.column x)))); [|reflexivity].
      apply in_app_iff. right. apply in_app_iff. left.
      apply in_map_iff. now exists x.
    + apply (H (ColumnFinding (DifferentColumn.table x)
                  (Group.DifferentEntry (DifferentColumn.column x)
                     (DifferentColumn.differences x)))); [|reflexivity].
      apply in_app_iff. right. apply in_app_iff. right. apply in_app_iff. left.
      apply in_map_iff. now exists x.
    + apply (H (IndexFinding x)); [|reflexivity].
      apply in_app_iff. right. apply in_app_iff. right. apply in_app_iff. right.
      apply in_map_iff. now exists x.
Qed.

Lemma forOf_comment_creates_returns (devDb : Connection) (tables : list string)
  (comment : list string) :
  (exists lines,
      forOf (fun (comment : list string) (table : string) =>
               createStatement <- getCreateTableStatement devDb table ;;
               Normal (push (push comment (createStatement ++ ";")) ""))
            tables comment = Normal lines)
  <-> (forall table, In table tables ->
                     exists s, getCreateTableStatement devDb table = Normal s).
Proof.
  revert comment. induction tables as [|t ts IH]; intros comment; simpl.
  - split; [tauto | intros _; eexists; reflexivity].
  - split.
    + intros [lines H].
      destruct (getCreateTableStatement devDb t) as [s| |] eqn:Hs;
        cbn [bind] in H; try discriminate.
      intros table [<-|Hin]; [now exists s|].
      apply (proj1 (IH (push (push comment (s ++ ";")) "")));
        [now exists lines | assumption].
    + intros Hall. destruct (Hall t) as [s Hs]; [now left|].
      rewrite Hs. cbn [bind]. apply IH. intros table Hin. apply Hall. now right.
Qed.

Lemma commentCommands_returns (devDb : Connection) (r : Result.t) :
  (exists lines, commentCommands devDb r = Normal lines)
  <-> (forall table, In table (Result.missingTables r) ->
                     exists s, getCreateTableStatement devDb table = Normal s).
Proof.
  unfold commentCommands.
  destruct (Result.missingTables r) as [|t ts] eqn:Hmt.
  - simpl. split; [tauto | intros _; eexists; reflexivity].
  - cbn [length Nat.ltb Nat.leb].
    rewrite <- (forOf_comment_creates_returns devDb (t :: ts)
                  ["-- Missing Tables --"]).
    split.
    + intros [lines H]. apply bind_Normal in H. destruct H as (tables & Ht & _).
      now exists tables.
    + intros [tables Ht]. rewrite Ht. cbn [bind]. eexists; reflexivity.
Qed.

Lemma generatePRCommentBody_returns (serverUrl repository runId : string)
  (devDb : Connection) (r : Result.t) :
  (plainTables r ->
   ((exists body,
        generatePRCommentBody serverUrl repository runId devDb r = Normal body)
    <-> (forall table, In table (Result.missingTables r) ->
                       exists row rest,
                         showCreateRows devDb table = Normal (row :: rest))))
  /\ (~ plainTables r ->
      generatePRCommentBody serverUrl repository runId devDb r
      = Throw (TypeError "Cannot read properties of undefined (reading 'push')")).
Proof.
  assert (Hcreate :
            (forall table, In table (Result.missingTables r) ->
                           exists s, getCreateTableStatement devDb table = Normal s)
            <-> (forall table, In table (Result.missingTables r) ->
                               exists row rest,
                                 showCreateRows devDb table = Normal (row :: rest))).
  { split; intros H table Hin; destruct (H table Hin) as [x Hx].
    - apply getCreateTableStatement_Normal in Hx.
      destruct Hx as (row & rest & Hr & _). now exists row, rest.
    - destruct Hx as [rest Hr]. exists (CreateRow.Create_Table x).
      apply getCreateTableStatement_Normal. now exists x, rest. }
  split.
  - intros Hplain. rewrite <- Hcreate, <- commentCommands_returns.
    unfold generatePRCommentBody.
    destruct ((0 <? length (Result.missingTables r))%nat
              || (0 <? length (Result.missingColumns r))%nat
              || (0 <? length (Result.differentColumns r))%nat
              || (0 <? length (Result.missingIndexes r))%nat) eqn:Hany.
    + destruct (forOf_applyFinding_returns (findingsOf r) []
                  (proj1 (plainTables_findings r) Hplain)) as [o Ho].
      rewrite groupByTable_findings, Ho. cbn [bind]. split.
      * intros [body H]. apply bind_Normal in H. destruct H as (details & H & _).
        apply bind_Normal in H. destruct H as (commands & Hc & _).
        now exists commands.
      * intros [commands Hc]. rewrite Hc. cbn [bind]. eexists; reflexivity.
    + cbn [bind]. split; [|intros _; eexists; reflexivity].
      intros _.
      assert (Hmt : Result.missingTables r = []).
      { destruct (Result.missingTables r); [reflexivity | discriminate]. }
      unfold commentCommands. rewrite Hmt. simpl. eexists; reflexivity.
  - intros Hnot.
    assert (Hbad : exists f, In f (findingsOf r) /\ isTableFinding f = false
                             /\ inherited (tableOf f) = true).
    { destruct (existsb (fun f => negb (isTableFinding f) && inherited (tableOf f))
                  (findingsOf r)) eqn:Hex.
      - apply existsb_exists in Hex. destruct Hex as (f & Hf & Hp).
        apply andb_true_iff in Hp. destruct Hp as [Hp1 Hp2].
        apply negb_true_iff in Hp1. now exists f.
      - exfalso. apply Hnot. apply plainTables_findings. intros f Hf Ht.
        destruct (inherited (tableOf f)) eqn:Hi; [|reflexivity].
        assert (Htrue : existsb (fun f => negb (isTableFinding f)
                                          && inherited (tableOf f))
                          (findingsOf r) = true).
        { apply existsb_exists. exists f. now rewrite Ht, Hi. }
        congruence. }
    assert (Hany : ((0 <? length (Result.missingTables r))%nat
                    || (0 <? length (Result.missingColumns r))%nat
                    || (0 <? length (Result.differentColumns r))%nat
                    || (0 <? length (Result.missingIndexes r))%nat) = true).
    { destruct Hbad as (f & Hf & Ht & _). unfold findingsOf in Hf.
      repeat (apply in_app_iff in Hf; destruct Hf as [Hf|Hf]);
        apply in_map_iff in Hf; destruct Hf as (x & Hx & Hin);
        try (subst f; discriminate).
      - destruct (Result.missingColumns r); [destruct Hin|].
        simpl. now rewrite orb_true_r.
      - destruct (Result.differentColumns r); [destruct Hin|].
        simpl. now rewrite !orb_true_r.
      - destruct (Result.missingIndexes r); [destruct Hin|].
        simpl. now rewrite !orb_true_r. }
    unfold generatePRCommentBody. rewrite Hany.
    rewrite groupByTable_findings.
    now rewrite (forOf_applyFinding_throws (findingsOf r) groupedBy_nil Hbad).
Qed.


(** X18. [restoreConsoleLog] after [setupOutputCapture] puts the console
    back as it was; in between a call of [console.log] is both recorded,
    with its message and time, and written as before; and
    [restoreConsoleLog] without a capture set up throws a [TypeError]. *)
Theorem capture_records_and_restores (st : capture) :
  (exists st', restoreConsoleLog (setupOutputCapture st) = Normal st'
               /\ console st' = console st
               /\ written st' = written st)
  /\ (forall now args,
         console_log (console st) = Native "log" ->
         let st' := consoleCall console_log now args (setupOutputCapture st) in
         capturedOutput st' = [Captured.mk "log" (capturedMessage args) now]
         /\ written st' = push (written st) ("log", args))
  /\ restoreConsoleLog freshCapture
     = Throw (TypeError "Cannot read properties of undefined (reading 'log')").
Proof.
  split; [|split].
  - eexists. split; [reflexivity|]. split; [|reflexivity].
    now destruct (console st).
  - intros now args Hlog. unfold consoleCall. simpl. now rewrite Hlog.
  - reflexivity.
Qed.

Lemma capture_records_and_restores_witness :
  let st' := consoleCall console_log "2024-05-01T10:15:00.000Z"
               [StringArg (colorCode "31" ++ "  Missing in main" ++ colorCode "39")]
               (setupOutputCapture freshCapture) in
  capturedOutput st'
  = [Captured.mk "log" "  Missing in main" "2024-05-01T10:15:00.000Z"]
  /\ written st'
     = [("log", [StringArg (colorCode "31" ++ "  Missing in main" ++ colorCode "39")])].
Proof.
  apply (proj1 (proj2 (capture_records_and_restores freshCapture))). reflexivity.
Defined.

(** Capturing twice keeps the first capture under the second: [restore]
    then gives back a console that still captures. *)
Example capture_twice :
  restoreConsoleLog (setupOutputCapture (setupOutputCapture freshCapture))
  = Normal {| console := console (setupOutputCapture freshCapture);
              capturedOutput := [];
              originalConsole := Some (console (setupOutputCapture freshCapture));
              written := [] |}.
Proof. reflexivity. Qed.

Lemma walk_reads_shared_tables_only_witness :
  walkTables devDriftOrdersLocked mainDrift = walkTables devDrift mainDrift.
Proof.
  apply (@walk_reads_shared_tables_only devDrift devDriftOrdersLocked
           mainDrift mainDrift ["orders"; "users"] ["users"]);
    try reflexivity.
  intros table _ [<-|[]]. repeat split; reflexivity.
Defined.

Lemma checkAndReport_needs_create_statements_witness :
  (Action.checkAndReport devDrift mainDrift = Normal driftResult
   /\ Legacy.checkAndReport devDrift mainDrift = Normal false)
  /\ (forall r, Action.checkAndReport devDriftNoCreate mainDrift <> Normal r)
  /\ (forall b, Legacy.checkAndReport devDriftNoCreate mainDrift <> Normal b).
Proof.
  split.
  - apply (proj1 (@checkAndReport_needs_create_statements devDrift mainDrift
                    (Found.mk (Result.missingTables driftResult)
                       (Result.missingColumns driftResult)
                       (Result.differentColumns driftResult)
                       (Result.missingIndexes driftResult))
                    eq_refl)).
    intros table [<-|[]]. eexists. eexists. reflexivity.
  - apply (proj2 (@checkAndReport_needs_create_statements devDriftNoCreate mainDrift
                    (Found.mk (Result.missingTables driftResult)
                       (Result.missingColumns driftResult)
                       (Result.differentColumns driftResult)
                       (Result.missingIndexes driftResult))
                    eq_refl) "orders").
    + simpl. tauto.
    + intros row rest. discriminate.
Defined.

Example constructor_run :
  Action.checkAndReport devConstructor mainConstructor = Normal constructorResult.
Proof. reflexivity. Qed.

(** On tables with plain names the comment can be written exactly when
    the commands can be fetched. *)
Lemma generatePRCommentBody_as_commands (serverUrl repository runId : string)
  (devDb : Connection) (r : Result.t) :
  plainTables r ->
  (exists body, generatePRCommentBody serverUrl repository runId devDb r = Normal body)
  <-> (exists commands, Action.generatePRComment devDb r = Normal commands).
Proof.
  intros Hplain.
  rewrite (proj1 (generatePRCommentBody_returns serverUrl repository runId devDb r) Hplain).
  unfold Action.generatePRComment.
  set (found := Found.mk (Result.missingTables r) (Result.missingColumns r)
                  (Result.differentColumns r) (Result.missingIndexes r)).
  assert (Hcreate :
            (forall table, In table (Result.missingTables r) ->
                           exists row rest,
                             showCreateRows devDb table = Normal (row :: rest))
            <-> (exists commands, fixCommands devDb found = Normal commands)).
  { rewrite fixCommands_returns. simpl.
    split; intros H table Hin; destruct (H table Hin) as [x Hx].
    - destruct Hx as [rest Hr]. exists (CreateRow.Create_Table x).
      apply getCreateTableStatement_Normal. now exists x, rest.
    - apply getCreateTableStatement_Normal in Hx.
      destruct Hx as (row & rest & Hr & _). now exists row, rest. }
  destruct (Found.any found) eqn:Hany; [exact Hcreate|].
  apply any_false in Hany. destruct Hany as (Hmt & _). simpl in Hmt.
  rewrite Hmt. split; [intros _; eexists; reflexivity | intros _ t []].
Qed.

(** X20. When no finding on a column or an index is on a table named
    like a member of [Object.prototype], the comment is written exactly
    when [SHOW CREATE TABLE] gives a row for every missing table, which is
    when its statements alone can be written; otherwise
    [generatePRComment] throws a [TypeError]. *)
Theorem comment_body_returns (serverUrl repository runId : string)
  (devDb : Connection) (r : Result.t) :
  (plainTables r ->
   ((exists body,
        generatePRCommentBody serverUrl repository runId devDb r = Normal body)
    <-> (forall table, In table (Result.missingTables r) ->
                       exists row rest,
                         showCreateRows devDb table = Normal (row :: rest)))
   /\ ((exists body,
          generatePRCommentBody serverUrl repository runId devDb r = Normal body)
       <-> (exists commands, Action.generatePRComment devDb r = Normal commands)))
  /\ (~ plainTables r ->
      generatePRCommentBody serverUrl repository runId devDb r
      = Throw (TypeError "Cannot read properties of undefined (reading 'push')")).
Proof.
  split.
  - intros Hplain. split.
    + now apply (proj1 (generatePRCommentBody_returns serverUrl repository runId
                          devDb r)).
    + now apply generatePRCommentBody_as_commands.
  - apply (proj2 (generatePRCommentBody_returns serverUrl repository runId devDb r)).
Qed.

Lemma comment_body_returns_witness :
  ((exists body,
       generatePRCommentBody "https://github.com" "o/r" "42" devDrift driftResult
       = Normal body)
   <-> (forall table, In table (Result.missingTables driftResult) ->
                      exists row rest,
                        showCreateRows devDrift table = Normal (row :: rest)))
  /\ generatePRCommentBody "https://github.com" "o/r" "42" devConstructor
       constructorResult
     = Throw (TypeError "Cannot read properties of undefined (reading 'push')").
Proof.
  split.
  - apply (proj1 (proj1 (comment_body_returns "https://github.com" "o/r" "42"
                           devDrift driftResult)
                    ltac:(repeat split; intros x [<-|[]]; reflexivity))).
  - apply (proj2 (comment_body_returns "https://github.com" "o/r" "42"
                    devConstructor constructorResult)).
    intros (H & _).
    specialize (H (MissingColumn.mk "constructor" (col "label" "text" "YES" None ""))
                  (or_introl eq_refl)).
    discriminate.
Defined.

(** X21. [connect] builds the configuration of dev from the [dev-]
    inputs as it builds that of main from the [main-] inputs, each from its
    own seven inputs only; [ssl] is set exactly when the [-ssl] input is
    ['true'], with the [ca] of the [-ssl-ca] input when that is not
    empty. *)
Theorem configs_from_their_own_inputs (getInput : string -> string) :
  devConfig getInput = mainConfig (fun name => getInput (devInput name))
  /\ (forall getInput',
         (forall name, In name mainInputs -> getInput' name = getInput name) ->
         mainConfig getInput' = mainConfig getInput)
  /\ (forall getInput',
         (forall name, In name mainInputs ->
                       getInput' (devInput name) = getInput (devInput name)) ->
         devConfig getInput' = devConfig getInput)
  /\ (Config.ssl (mainConfig getInput) <> None <-> getInput "main-db-ssl" = "true")
  /\ (forall options, Config.ssl (mainConfig getInput) = Some options ->
                      Config.ca options
                      = if getInput "main-db-ssl-ca" =? "" then None
                        else Some (getInput "main-db-ssl-ca")).
Proof.
  split; [reflexivity|].
  assert (Hmain : forall g g' : string -> string,
             (forall name, In name mainInputs -> g' name = g name) ->
             mainConfig g' = mainConfig g).
  { intros g g' H. unfold mainConfig.
    rewrite !H by (unfold mainInputs; simpl; tauto). reflexivity. }
  split; [|split; [|split]].
  - intros g'. apply Hmain.
  - intros g' H.
    change (devConfig g') with (mainConfig (fun name => g' (devInput name))).
    change (devConfig getInput)
      with (mainConfig (fun name => getInput (devInput name))).
    now apply Hmain.
  - unfold mainConfig.
    destruct (String.eqb_spec (getInput "main-db-ssl") "true") as [He|Hne];
      cbn [Config.ssl]; split; try congruence; intros; discriminate.
  - intros options. unfold mainConfig, truthy.
    destruct (getInput "main-db-ssl" =? "true"); cbn [Config.ssl];
      [|discriminate].
    intros [= <-]. now destruct (getInput "main-db-ssl-ca" =? "").
Qed.

Lemma configs_from_their_own_inputs_witness :
  mainConfig (fun name => if name =? "dev-db-host" then "other" else sampleInputs name)
  = mainConfig sampleInputs
  /\ Config.ca (Config.mkSsl None)
     = if sampleInputs "main-db-ssl-ca" =? "" then None
       else Some (sampleInputs "main-db-ssl-ca").
Proof.
  destruct (configs_from_their_own_inputs sampleInputs) as (_ & H1 & _ & _ & H2).
  split.
  - apply H1. intros name Hin. unfold mainInputs in Hin. simpl in Hin.
    repeat (destruct Hin as [<-|Hin]; [reflexivity|]). destruct Hin.
  - apply H2. reflexivity.
Defined.

Example ssl_only_for_true : Config.ssl (devConfig sampleInputs) = None.
Proof. reflexivity. Qed.

